(** * Sentry API client ([app/api.tsx]): a shallow embedding and its properties

    The development follows the source file top to bottom:
    - JavaScript values and the few built-ins the client relies on;
    - [paramsToQueryArgs], the translation of a parameter bag;
    - the [Request] handle and the [Client] with its registry of active
      requests, written in a small state-and-effect monad ([cancel] and
      [clear] come after [request], whose callbacks an abort runs);
    - the event loop: what the transport, the re-authentication modal and the
      promise job queue may do to a client;
    - the properties. *)

From stdpp Require Import gmap strings pretty list fin_maps.

Local Open Scope string_scope.
Local Open Scope list_scope.

#[local] Set Default Proof Using "Type".

(** ** JavaScript values *)

#[local] Set Warnings "-register-all".

(** Numbers are integers here: the client only counts and compares them.
    Objects are association lists in insertion order.  [VRequestError] is the
    error object built by [createRequestError] (see below). *)
Inductive val : Type :=
  | VUndef
  | VNull
  | VBool (b : bool)
  | VNum (n : Z)
  | VStr (s : string)
  | VArr (elems : list val)
  | VObj (fields : list (string * val))
  | VRequestError (resp stack method : val) (path : string) (removedFrames : nat).

(** Truthiness, as used by [?:], [&&], [||] and [if]. *)
Definition truthy (v : val) : bool :=
  match v with
  | VUndef | VNull => false
  | VBool b => b
  | VNum n => negb (n =? 0)%Z
  | VStr s => negb (String.eqb s EmptyString)
  | VArr _ | VObj _ | VRequestError _ _ _ _ _ => true
  end.

(** lodash [isNil] and [isUndefined]. *)
Definition isNil (v : val) : bool :=
  match v with VUndef | VNull => true | _ => false end.

Definition isUndefined (v : val) : bool :=
  match v with VUndef => true | _ => false end.

(** Property read on a plain object held as a map: a missing key reads as
    [undefined]. *)
Definition prop (o : gmap string val) (k : string) : val :=
  default VUndef (o !! k).

(** Lookup of a key among the fields of an object. *)
Fixpoint assoc (k : string) (fields : list (string * val)) : option val :=
  match fields with
  | [] => None
  | (k', v) :: rest => if String.eqb k k' then Some v else assoc k rest
  end.

(** Member access [v.k]; arrays and strings have a [length]. *)
Definition member (v : val) (k : string) : val :=
  match v with
  | VObj fs => default VUndef (assoc k fs)
  | VArr l => if String.eqb k "length" then VNum (Z.of_nat (length l)) else VUndef
  | VStr s => if String.eqb k "length" then VNum (Z.of_nat (String.length s)) else VUndef
  | _ => VUndef
  end.

(** lodash [get(v, 'a.b.c')], the path given as its list of keys. *)
Definition get (v : val) (path : list string) : val := foldl member v path.

(** [a && b] on values. *)
Definition js_and (a b : val) : val := if truthy a then b else a.

(** [a === s] for a string constant [s]. *)
Definition strict_eq_str (a : val) (s : string) : bool :=
  match a with VStr t => String.eqb t s | _ => false end.

(** ** [paramsToQueryArgs] *)

(** The parameter bag is indexed dynamically ([params[prop]]), so it is a map
    from property names to values, and so is the result. *)
Definition date_props : list string := ["start"; "end"; "period"; "utc"].

Definition copy_date (params : gmap string val) (p : gmap string val) (prop_ : string)
  : gmap string val :=
  if negb (isNil (prop params prop_))
  then <[(if String.eqb prop_ "period" then "statsPeriod" else prop_) := prop params prop_]> p
  else p.

Definition paramsToQueryArgs (params : gmap string val) : gmap string val :=
  let p : gmap string val :=
    if truthy (prop params "itemIds") then {["id" := prop params "itemIds"]}
    else if truthy (prop params "query") then {["query" := prop params "query"]}
    else ∅ in
  (* only include environment if it is not null/undefined *)
  let p :=
    if truthy (prop params "query") && negb (isNil (prop params "environment"))
    then <["environment" := prop params "environment"]> p else p in
  (* only include projects if it is not null/undefined/an empty array *)
  let p :=
    if truthy (prop params "project") && truthy (member (prop params "project") "length")
    then <["project" := prop params "project"]> p else p in
  (* only include date filters if they are not null/undefined *)
  if truthy (prop params "query")
  then foldl (copy_date params) p date_props
  else p.

(** The bag before the date filters are copied: the first three steps of
    [paramsToQueryArgs], named for the proofs. *)
Definition filters (params : gmap string val) : gmap string val :=
  let p : gmap string val :=
    if truthy (prop params "itemIds") then {["id" := prop params "itemIds"]}
    else if truthy (prop params "query") then {["query" := prop params "query"]}
    else ∅ in
  let p :=
    if truthy (prop params "query") && negb (isNil (prop params "environment"))
    then <["environment" := prop params "environment"]> p else p in
  if truthy (prop params "project") && truthy (member (prop params "project") "length")
  then <["project" := prop params "project"]> p else p.

(** ** The data of the client *)

Inductive APIRequestMethod := POST | GET | DELETE | PUT.

Definition method_name (m : APIRequestMethod) : string :=
  match m with POST => "POST" | GET => "GET" | DELETE => "DELETE" | PUT => "PUT" end.

Definition is_GET (m : APIRequestMethod) : bool :=
  match m with GET => true | _ => false end.

Definition method_val (m : option APIRequestMethod) : val :=
  match m with Some m => VStr (method_name m) | None => VUndef end.

(** An [Error] object, of which the client only reads the stack. *)
Record ErrorObject := { stack : val }.

(** The functions that can sit in a callback slot.  [Caller f] is a function
    supplied by the caller of the client; it is opaque, running it is recorded
    as the effect [ECall f args].  The other two are the closures that
    [requestPromise] passes to [request]; they hold the variables they
    capture ([resolve] and [reject] stand for the promise [p]). *)
Inductive callback :=
  | Caller (f : string)
  | PromiseSuccess (p : nat) (includeAllArgs : bool)
  | PromiseError (p : nat) (preserved : ErrorObject)
                 (method : option APIRequestMethod) (path : string).

Record RequestOptions := {
  method : option APIRequestMethod;
  data : val;
  query : val;
  preservedError : option ErrorObject;
  success : option callback;
  error : option callback;
  complete : option callback;
}.

(** [requestPromise] takes the same options and [includeAllArgs]. *)
Record PromiseOptions := {
  includeAllArgs : val;
  options_rest : RequestOptions;
}.

(** [class Request]: [xhr] names the transport handle. *)
Record Request := { alive : bool; xhr : nat }.

Record Span := { request_data : val; op : string; description : string }.

(** What [Sentry.withScope] collects before [captureException]. *)
Record Scope := {
  extras : list (string * val);
  tags : list (string * string);
  level : option string;
}.

Definition empty_scope : Scope := {| extras := []; tags := []; level := None |}.
Definition setExtra (k : string) (v : val) (s : Scope) : Scope :=
  {| extras := extras s ++ [(k, v)]; tags := tags s; level := level s |}.
Definition setTag (k v : string) (s : Scope) : Scope :=
  {| extras := extras s; tags := tags s ++ [(k, v)]; level := level s |}.
Definition setLevel (l : string) (s : Scope) : Scope :=
  {| extras := extras s; tags := tags s; level := Some l |}.

(** The settings object handed to [$.ajax] by [request].  Its three callbacks
    are closures of [request]; the record keeps the variables they capture. *)
Record AjaxSettings := {
  url : string;
  ajax_method : APIRequestMethod;
  ajax_data : val;
  c_id : string;
  c_path : string;
  c_options : RequestOptions;
  c_errorObject : ErrorObject;
  c_requestSpan : Span;
}.

(** The argument of [openSudo]: two flags and the closures [retryRequest] and
    [onClose], kept as the variables they capture. *)
Record SudoModal := {
  superuser : bool;
  sudo : bool;
  m_path : string;
  m_requestOptions : RequestOptions;
  m_response : val;
}.

Inductive settled := Fulfilled (v : val) | Rejected (v : val).

(** A promise made by [requestPromise]: its outcome once settled, and the
    [.then(..).catch(..)] pair that [retryRequest] hangs on it, whose closures
    capture [requestOptions]. *)
Record Promise := {
  outcome : option settled;
  reaction : option RequestOptions;
}.

(** Everything observable from outside the client. *)
Inductive Effect :=
  | ECall (f : string) (args : list val)
  | EAjax (x : nat) (url : string) (m : APIRequestMethod) (body : val)
  | EAbort (x : nat)
  | EOpenSudo (modal : nat) (superuser sudo : bool)
  | ERedirectToProject (slug : val)
  | ECaptureException (exn : val) (scope : Scope)
  | EStartSpan (s : Span)
  | EFinishSpan (s : Span)
  | EMetric (name : string) (n : Z)
  | EMark (name : string)
  | EMeasure (name start : string) (status : val).

(** The client ([baseUrl], [activeRequests]) and the world around it: the
    [Request] objects, shared between the registry and whoever holds a handle;
    the settings of every transport call issued; promises, open modals, the
    queue of promise jobs; how many ids and [Error] objects were made. *)
Record State := {
  baseUrl : string;
  activeRequests : gmap string nat;
  heap : list Request;
  xhrs : list AjaxSettings;
  promises : list Promise;
  modals : list SudoModal;
  jobs : list (RequestOptions * settled);
  guids : nat;
  errors : nat;
}.

(** A client with base url [b] that has issued nothing yet: what the
    constructor builds (see [Client] below). *)
Definition new_client (b : string) : State :=
  {| baseUrl := b;
     activeRequests := ∅; heap := []; xhrs := []; promises := []; modals := [];
     jobs := []; guids := 0; errors := 0 |}.

Definition set_activeRequests (f : gmap string nat → gmap string nat) (σ : State) : State :=
  {| baseUrl := baseUrl σ; activeRequests := f (activeRequests σ); heap := heap σ;
     xhrs := xhrs σ; promises := promises σ; modals := modals σ; jobs := jobs σ;
     guids := guids σ; errors := errors σ |}.
Definition set_heap (f : list Request → list Request) (σ : State) : State :=
  {| baseUrl := baseUrl σ; activeRequests := activeRequests σ; heap := f (heap σ);
     xhrs := xhrs σ; promises := promises σ; modals := modals σ; jobs := jobs σ;
     guids := guids σ; errors := errors σ |}.
Definition set_xhrs (f : list AjaxSettings → list AjaxSettings) (σ : State) : State :=
  {| baseUrl := baseUrl σ; activeRequests := activeRequests σ; heap := heap σ;
     xhrs := f (xhrs σ); promises := promises σ; modals := modals σ; jobs := jobs σ;
     guids := guids σ; errors := errors σ |}.
Definition set_promises (f : list Promise → list Promise) (σ : State) : State :=
  {| baseUrl := baseUrl σ; activeRequests := activeRequests σ; heap := heap σ;
     xhrs := xhrs σ; promises := f (promises σ); modals := modals σ; jobs := jobs σ;
     guids := guids σ; errors := errors σ |}.
Definition set_modals (f : list SudoModal → list SudoModal) (σ : State) : State :=
  {| baseUrl := baseUrl σ; activeRequests := activeRequests σ; heap := heap σ;
     xhrs := xhrs σ; promises := promises σ; modals := f (modals σ); jobs := jobs σ;
     guids := guids σ; errors := errors σ |}.
Definition set_jobs (f : list (RequestOptions * settled) → list (RequestOptions * settled))
    (σ : State) : State :=
  {| baseUrl := baseUrl σ; activeRequests := activeRequests σ; heap := heap σ;
     xhrs := xhrs σ; promises := promises σ; modals := modals σ; jobs := f (jobs σ);
     guids := guids σ; errors := errors σ |}.
Definition set_guids (f : nat → nat) (σ : State) : State :=
  {| baseUrl := baseUrl σ; activeRequests := activeRequests σ; heap := heap σ;
     xhrs := xhrs σ; promises := promises σ; modals := modals σ; jobs := jobs σ;
     guids := f (guids σ); errors := errors σ |}.
Definition set_errors (f : nat → nat) (σ : State) : State :=
  {| baseUrl := baseUrl σ; activeRequests := activeRequests σ; heap := heap σ;
     xhrs := xhrs σ; promises := promises σ; modals := modals σ; jobs := jobs σ;
     guids := guids σ; errors := f (errors σ) |}.

(** ** State, effects and exceptions *)

Inductive Res (A : Type) := Ok (a : A) | Throw (e : val).
Arguments Ok {A} a.
Arguments Throw {A} e.

(** A computation reads and writes the state, appends to the trace of
    effects, and either returns or throws. *)
Definition M (A : Type) : Type := State → Res A * State * list Effect.

Definition ret {A} (a : A) : M A := fun σ => (Ok a, σ, []).

Definition bind {A B} (m : M A) (k : A → M B) : M B := fun σ =>
  match m σ with
  | (Ok a, σ1, t1) => let '(r, σ2, t2) := k a σ1 in (r, σ2, t1 ++ t2)
  | (Throw e, σ1, t1) => (Throw e, σ1, t1)
  end.

Definition throw {A} (e : val) : M A := fun σ => (Throw e, σ, []).

(** [try { m } catch (err) { h err }]. *)
Definition try_catch {A} (m : M A) (h : val → M A) : M A := fun σ =>
  match m σ with
  | (Ok a, σ1, t1) => (Ok a, σ1, t1)
  | (Throw e, σ1, t1) => let '(r, σ2, t2) := h e σ1 in (r, σ2, t1 ++ t2)
  end.

Definition lift {A} (r : Res A) : M A := fun σ => (r, σ, []).
Definition emit (e : Effect) : M unit := fun σ => (Ok tt, σ, [e]).
Definition read : M State := fun σ => (Ok σ, σ, []).
Definition modify (f : State → State) : M unit := fun σ => (Ok tt, f σ, []).

(** The monad structure, so that stdpp's [x ← m; k] and [m;; k] apply. *)
#[global] Instance M_ret : MRet M := @ret.
#[global] Instance M_bind : MBind M := fun A B k m => bind m k.

Definition state_of {A} (r : Res A * State * list Effect) : State := snd (fst r).
Definition trace_of {A} (r : Res A * State * list Effect) : list Effect := snd r.
Definition result_of {A} (r : Res A * State * list Effect) : Res A := fst (fst r).

(** ** A concrete platform

    Instances of the imported constants and platform functions, to run the
    client on examples.  The serializers are small stand-ins: they write the
    fields of a flat object, strings bare, as [k=v] joined by [&] ([param]) or
    as [{k:v,..}] ([JSON_stringify]); [param] throws on the object
    [{circular: true}], which plays the part of a cyclic one. *)
Module Demo.

Definition SUDO_REQUIRED : string := "sudo-required".
Definition SUPERUSER_REQUIRED : string := "superuser-required".
Definition PROJECT_MOVED : string := "project-moved".

Definition uniqueId (n : nat) : string := "id" +:+ pretty n.

Definition atom (v : val) : string :=
  match v with
  | VStr s => s
  | VNum n => pretty n
  | VBool true => "true"
  | VBool false => "false"
  | VNull => "null"
  | _ => EmptyString
  end.

Fixpoint join (sep : string) (l : list string) : string :=
  match l with
  | [] => EmptyString
  | [a] => a
  | a :: l => a +:+ sep +:+ join sep l
  end.

Definition param (v : val) (traditional : bool) : Res string :=
  match v with
  | VObj [("circular", VBool true)] => Throw (VStr "TypeError: cyclic object value")
  | VObj fs => Ok (join "&" ((fun kv => fst kv +:+ "=" +:+ atom (snd kv)) <$> fs))
  | _ => Ok EmptyString
  end.

Definition JSON_stringify (v : val) : Res val :=
  match v with
  | VUndef => Ok VUndef
  | VObj fs =>
      Ok (VStr ("{" +:+ join "," ((fun kv => fst kv +:+ ":" +:+ atom (snd kv)) <$> fs) +:+ "}"))
  | _ => Ok (VStr (atom v))
  end.

Definition String_ (v : val) : string :=
  match v with
  | VUndef => "undefined"
  | _ => atom v
  end.

Definition captured_stack (n : nat) : val := VStr ("Error at site " +:+ pretty n).

(** Example inputs. *)
Definition bag_ids : gmap string val :=
  {["itemIds" := VArr [VNum 1; VNum 2]]}.

Definition bag_ids_query : gmap string val :=
  <["itemIds" := VArr [VNum 1; VNum 2]]>
    (<["query" := VStr "is:unresolved"]> {["start" := VStr "2019-10-01"]}).

Definition bag_query : gmap string val :=
  <["query" := VStr "is:unresolved"]>
    (<["period" := VStr "14d"]> {["utc" := VNull]}).

Definition opts : RequestOptions :=
  {| method := None; data := VObj [("status", VStr "resolved")];
     query := VObj [("id", VNum 1)]; preservedError := None;
     success := Some (Caller "onSuccess"); error := Some (Caller "onError");
     complete := Some (Caller "onComplete") |}.

Definition opts_circular : RequestOptions :=
  {| method := None; data := VUndef;
     query := VObj [("circular", VBool true)]; preservedError := None;
     success := Some (Caller "onSuccess"); error := Some (Caller "onError");
     complete := Some (Caller "onComplete") |}.

Definition sudo_response : val :=
  VObj [("status", VNum 401);
        ("responseJSON", VObj [("detail", VObj [("code", VStr "sudo-required")])])].

Definition ok_xhr : val := VObj [("status", VNum 200)].

(** The client made by [new Client()]. *)
Definition client : State := new_client "/api/0".

(** More example inputs. *)
Definition bag_empty_ids : gmap string val :=
  <["itemIds" := VArr []]> {["query" := VStr "is:unresolved"]}.

Definition bag_project : gmap string val :=
  {["project" := VArr [VNum 7]]}.

Definition opts_no_success : RequestOptions :=
  {| method := Some GET; data := VUndef; query := VUndef; preservedError := None;
     success := None; error := Some (Caller "onError");
     complete := Some (Caller "onComplete") |}.

Definition moved : val :=
  VObj [("status", VNum 302);
        ("responseJSON",
         VObj [("detail",
                VObj [("code", VStr "project-moved");
                      ("extra", VObj [("slug", VStr "new-slug")])])])].

Definition not_found : val :=
  VObj [("status", VNum 404); ("responseJSON", VObj [("detail", VStr "Not found")])].

(** A [JSON.stringify] that throws, as on a value it cannot serialize. *)
Definition JSON_stringify_throws (v : val) : Res val :=
  Throw (VStr "TypeError: Do not know how to serialize a BigInt").

End Demo.

(** [for (const a of l) body(a)]. *)
Fixpoint for_each {A} (l : list A) (body : A → M unit) : M unit :=
  match l with
  | [] => ret tt
  | a :: l => body a;; for_each l body
  end.

(** Modelled from the spec: [createRequestError] lives in
    [app/utils/requestError], which is not part of this file; the spec says
    the constructed error object carries the method, the path, the original
    response and the pre-captured stack. *)
Definition createRequestError (resp stack method : val) (path : string) : val :=
  VRequestError resp stack method path 0.

(** Modelled from the spec: [removeFrames] is a method of that error object,
    also outside this file; the spec does not describe it, so the number of
    frames dropped is kept on the object and the stack is left as captured. *)
Definition removeFrames (n : nat) (e : val) : val :=
  match e with
  | VRequestError resp stack method path k => VRequestError resp stack method path (k + n)
  | _ => e
  end.

Section Client.

(** Imported constants and functions of other modules and of the platform. *)
Variables SUDO_REQUIRED SUPERUSER_REQUIRED PROJECT_MOVED : string.
(** [uniqueId n] is the [n]-th id that [uniqueId()] hands out. *)
Variable uniqueId : nat → string.
(** [$.param(obj, traditional)] and [JSON.stringify(v)]; both may throw. *)
Variable param : val → bool → Res string.
Variable JSON_stringify : val → Res val.
(** [String(v)]. *)
Variable String_ : val → string.
(** The stack captured by the [n]-th [new Error()]. *)
Variable captured_stack : nat → val.

Definition new_Error : M ErrorObject :=
  σ ← read;
  modify (set_errors S);;
  ret {| stack := captured_stack (errors σ) |}.

Definition fresh_id : M string :=
  σ ← read;
  modify (set_guids S);;
  ret (uniqueId (guids σ)).

(** *** [class Request] *)

(** [new Request(xhr)] allocates the object and returns its location. *)
Definition new_Request (x : nat) : M nat :=
  σ ← read;
  modify (set_heap (fun h => h ++ [{| alive := true; xhr := x |}]));;
  ret (length (heap σ)).

(** [cancel] calls [xhr.abort()], which runs callbacks of [request]: it is
    defined after them, with the transport. *)

(** *** Promises *)

(** [resolve(v)] / [reject(v)]: only a pending promise changes; its reaction,
    if any, becomes a job. *)
Definition settle (p : nat) (o : settled) : M unit :=
  σ ← read;
  match promises σ !! p with
  | Some pr =>
      match outcome pr with
      | None =>
          modify (set_promises <[p := {| outcome := Some o; reaction := reaction pr |}]>);;
          match reaction pr with
          | Some opts => modify (set_jobs (fun q => q ++ [(opts, o)]))
          | None => ret tt
          end
      | Some _ => ret tt
      end
  | None => ret tt
  end.

(** [new Promise(..)]. *)
Definition new_Promise : M nat :=
  σ ← read;
  modify (set_promises (fun ps => ps ++ [{| outcome := None; reaction := None |}]));;
  ret (length (promises σ)).

(** [promise.then(..).catch(..)] with the two closures of [retryRequest]. *)
Definition then_catch (p : nat) (requestOptions : RequestOptions) : M unit :=
  σ ← read;
  match promises σ !! p with
  | Some pr =>
      match outcome pr with
      | None =>
          modify (set_promises
                    <[p := {| outcome := None; reaction := Some requestOptions |}]>)
      | Some o => modify (set_jobs (fun q => q ++ [(requestOptions, o)]))
      end
  | None => ret tt
  end.

(** Calling what sits in a callback slot. *)
Definition call_fn (f : callback) (args : list val) : M unit :=
  match f with
  | Caller name => emit (ECall name args)
  | PromiseSuccess p all =>
      (* (data, ...args) => includeAllArgs ? resolve([data, ...args]) : resolve(data) *)
      let data := hd VUndef args in
      if all then settle p (Fulfilled (VArr (data :: tl args)))
      else settle p (Fulfilled data)
  | PromiseError p preserved method path =>
      (* (resp) => { ...; reject(errorObjectToUse) } *)
      let resp := hd VUndef args in
      let errorObjectToUse :=
        createRequestError resp (stack preserved) (method_val method) path in
      let errorObjectToUse := removeFrames 2 errorObjectToUse in
      settle p (Rejected errorObjectToUse)
  end.

(** *** [class Client] *)

(** [new Client(options)].  Only [undefined] is replaced by [{}]: reading
    [baseUrl] off [null] throws a [TypeError] (its message is the engine's;
    one is fixed here); every other value has
    properties, and a primitive has no [baseUrl].  The field is declared a
    string; the constructor keeps a truthy [baseUrl] of another type as it
    is, and both uses of the field in [request] ([indexOf] and [+] with a
    string) read it as [String(baseUrl)], which is what the state holds. *)
Definition Client (options : val) : Res State :=
  let options := if isUndefined options then VObj [] else options in
  match options with
  | VNull => Throw (VStr "TypeError: Cannot read property 'baseUrl' of null")
  | _ =>
      let b := member options "baseUrl" in
      Ok (new_client (if truthy b
                      then match b with VStr s => s | _ => String_ b end
                      else "/api/0"))
  end.

Definition isProjectMoved (response : val) : bool :=
  strict_eq_str (get response ["responseJSON"; "detail"; "code"]) PROJECT_MOVED.

Definition hasProjectBeenRenamed (response : val) : M bool :=
  if negb (isProjectMoved response) then ret false
  else
    let slug := get response ["responseJSON"; "detail"; "extra"; "slug"] in
    emit (ERedirectToProject slug);;
    ret true.

(** [wrapCallback(id, func, cleanup)(...args)]. *)
Definition wrapCallback (id : string) (func : option callback) (cleanup : bool)
    (args : list val) : M unit :=
  σ ← read;
  let req := activeRequests σ !! id in
  (if cleanup then modify (set_activeRequests (delete id)) else ret tt);;
  match req ≫= (fun h => heap σ !! h) with
  | Some r =>
      if alive r then
        bind (hasProjectBeenRenamed (hd VUndef args)) (fun renamed : bool =>
        if renamed then ret tt
        else match func with
             | None => ret tt
             | Some f => call_fn f args
             end)
      else ret tt
  | None => ret tt
  end.

(** [openSudo({superuser, sudo, retryRequest, onClose})]: the modal opens and
    keeps the two closures. *)
Definition openSudo (m : SudoModal) : M unit :=
  σ ← read;
  modify (set_modals (fun ms => ms ++ [m]));;
  emit (EOpenSudo (length (modals σ)) (superuser m) (sudo m)).

Definition isSudoRequired (response : val) : bool :=
  let code := get response ["responseJSON"; "detail"; "code"] in
  strict_eq_str code SUDO_REQUIRED || strict_eq_str code SUPERUSER_REQUIRED.

Definition handleRequestError (id path : string) (requestOptions : RequestOptions)
    (response : val) (responseArgs : list val) : M unit :=
  let code := get response ["responseJSON"; "detail"; "code"] in
  if isSudoRequired response then
    openSudo {| superuser := strict_eq_str code SUPERUSER_REQUIRED;
                sudo := strict_eq_str code SUDO_REQUIRED;
                m_path := path;
                m_requestOptions := requestOptions;
                m_response := response |}
  else
    (* Call normal error callback *)
    wrapCallback id (error requestOptions) false (response :: responseArgs).

Definition withScope (f : Scope → Scope) (exn : val) : M unit :=
  emit (ECaptureException exn (f empty_scope)).

(** The pieces of [request]: the effective method, the body, the url. *)
Definition request_method (options : RequestOptions) : APIRequestMethod :=
  match method options with
  | Some m => m
  | None => if truthy (data options) then POST else GET
  end.

Definition request_data_ (options : RequestOptions) : Res val :=
  if negb (isUndefined (data options)) && negb (is_GET (request_method options))
  then JSON_stringify (data options)
  else Ok (data options).

Definition request_query (options : RequestOptions) : Res string :=
  param (if truthy (query options) then query options else VArr []) true.

Definition fullUrl (base path query_ : string) : string :=
  let fullUrl :=
    match String.index 0 base path with
    | None => base +:+ path
    | Some _ => path
    end in
  if truthy (VStr query_) then
    match String.index 0 "?" fullUrl with
    | Some _ => fullUrl +:+ "&" +:+ query_
    | None => fullUrl +:+ "?" +:+ query_
    end
  else fullUrl.

Definition request (path : string) (options : RequestOptions) : M nat :=
  let method_ := request_method options in
  data_ ← lift (request_data_ options);
  let requestSpan :=
    {| request_data := data_; op := "http";
       description := method_name method_ +:+ " " +:+ path |} in
  emit (EStartSpan requestSpan);;
  query_ ← try_catch
    (lift (request_query options))
    (fun err =>
       withScope (fun scope =>
                    setExtra "query" (query options) (setExtra "path" (VStr path) scope))
                 err;;
       throw err);
  id ← fresh_id;
  emit (EMark ("api-request-start-" +:+ id));;
  σ ← read;
  let fullUrl_ := fullUrl (baseUrl σ) path query_ in
  errorObject ← new_Error;
  (* $.ajax({...}) *)
  let x := length (xhrs σ) in
  modify (set_xhrs (fun xs => xs ++ [
    {| url := fullUrl_; ajax_method := method_; ajax_data := data_;
       c_id := id; c_path := path; c_options := options;
       c_errorObject := errorObject; c_requestSpan := requestSpan |}]));;
  emit (EAjax x fullUrl_ method_ data_);;
  h ← new_Request x;
  modify (set_activeRequests <[id := h]>);;
  ret h.

(** The options that [requestPromise] passes on to [request]. *)
Definition promise_options (path : string) (popts : PromiseOptions) (p : nat)
    (preservedError_ : ErrorObject) : RequestOptions :=
  let options := options_rest popts in
  {| method := method options; data := data options; query := query options;
     complete := complete options;
     preservedError := Some preservedError_;
     success := Some (PromiseSuccess p (truthy (includeAllArgs popts)));
     error := Some (PromiseError p preservedError_ (method options) path) |}.

Definition requestPromise (path : string) (popts : PromiseOptions) : M nat :=
  preservedError_ ← new_Error;
  p ← new_Promise;
  (* the executor of [new Promise]: what it throws rejects the promise *)
  try_catch
    (request path (promise_options path popts p preservedError_);; ret tt)
    (fun err => settle p (Rejected err));;
  ret p.

(** [_chain(...funcs)(...args)]: the functions among [funcs] are called in
    turn with the same arguments; the undefined ones are skipped. *)
Definition _chain (funcs : list (option callback)) (args : list val) : M unit :=
  let filteredFuncs := omap (fun f => f) funcs in
  for_each filteredFuncs (fun func => call_fn func args).

(** The closures handed to [openSudo]. *)
Definition retryRequest (path : string) (requestOptions : RequestOptions) : M unit :=
  p ← requestPromise path {| includeAllArgs := VUndef; options_rest := requestOptions |};
  then_catch p requestOptions.

Definition onClose (requestOptions : RequestOptions) (response : val) : M unit :=
  match error requestOptions with
  | None => ret tt
  | Some f =>
      (* If modal was closed, then forward the original response *)
      call_fn f [response]
  end.

(** The [.then] and [.catch] closures of [retryRequest], run as one job once
    the promise of the retry is settled. *)
Definition run_job (job : RequestOptions * settled) : M unit :=
  let '(requestOptions, o) := job in
  match o with
  | Fulfilled v =>
      match success requestOptions with
      | None => ret tt
      | Some f => call_fn f [v]
      end
  | Rejected e =>
      match error requestOptions with
      | None => ret tt
      | Some f => call_fn f [e]
      end
  end.

(** The three callbacks that [request] puts in the settings of [$.ajax]. *)
Definition ajax_success (c : AjaxSettings) (data_ textStatus xhr_ : val) : M unit :=
  emit (EMeasure "app.api.request-success" ("api-request-start-" +:+ c_id c)
          (js_and xhr_ (member xhr_ "status")));;
  match success (c_options c) with
  | Some _ => wrapCallback (c_id c) (success (c_options c)) false [data_; textStatus; xhr_]
  | None => ret tt
  end.

Definition ajax_error (c : AjaxSettings) (resp textStatus errorThrown : val) : M unit :=
  emit (EMeasure "app.api.request-error" ("api-request-start-" +:+ c_id c)
          (js_and resp (member resp "status")));;
  (* `requestPromise` can pass its error object *)
  (let preservedError_ := default (c_errorObject c) (preservedError (c_options c)) in
   let errorObjectToUse :=
     createRequestError resp (stack preservedError_)
       (VStr (method_name (ajax_method c))) (c_path c) in
   let errorObjectToUse := removeFrames 2 errorObjectToUse in
   withScope (fun scope =>
                setTag "http.statusCode" (String_ (member resp "status"))
                  (setLevel "warning" scope))
             errorObjectToUse);;
  handleRequestError (c_id c) (c_path c) (c_options c) resp [textStatus; errorThrown].

Definition ajax_complete (c : AjaxSettings) (jqXHR textStatus : val) : M unit :=
  emit (EFinishSpan (c_requestSpan c));;
  wrapCallback (c_id c) (complete (c_options c)) true [jqXHR; textStatus].

(** *** The transport, [Request.cancel] and [clear]

    [$.ajax] and the [jqXHR] it returns belong to jQuery, not to this file.
    jQuery completes a call once: it runs the [success] or the [error]
    callback of the settings and then the [complete] callback.
    [jqXHR.abort()] completes a call that is still underway, before it
    returns: the [error] and then the [complete] callback run with the jqXHR
    itself, whose status is 0 and which has no response, and with the status
    text ["abort"]; on a call that has completed it does nothing.

    jQuery runs the callbacks of a completion in one go, and the registry
    then tells which calls are underway: [request] puts the id of a call
    there, and the [complete] callback, which ends every completion, is the
    only code that takes it out (see [registered_step]).  [abort] goes by
    the registry. *)
Definition aborted_xhr : val :=
  VObj [("readyState", VNum 0); ("status", VNum 0); ("statusText", VStr "abort")].

Definition underway (c : AjaxSettings) (σ : State) : bool :=
  match activeRequests σ !! c_id c with Some _ => true | None => false end.

Definition abort (x : nat) : M unit :=
  emit (EAbort x);;
  σ ← read;
  match xhrs σ !! x with
  | Some c =>
      if underway c σ then
        ajax_error c aborted_xhr (VStr "abort") (VStr "abort");;
        ajax_complete c aborted_xhr (VStr "abort")
      else ret tt
  | None => ret tt
  end.

(** [Request.cancel()]. *)
Definition cancel (h : nat) : M unit :=
  σ ← read;
  match heap σ !! h with
  | Some r =>
      modify (set_heap <[h := {| alive := false; xhr := xhr r |}]>);;
      abort (xhr r);;
      emit (EMetric "app.api.request-abort" 1)
  | None => ret tt
  end.

(** Attempt to cancel all active XHR requests.  Every [cancel] takes its own
    id out of the registry; [for .. in] visits the keys that are there when
    the loop starts and skips one that is gone when its turn comes. *)
Definition clear : M unit :=
  σ ← read;
  for_each (map_to_list (activeRequests σ)).*1 (fun id =>
    σ' ← read;
    match activeRequests σ' !! id with
    | Some h => cancel h
    | None => ret tt
    end).

(** ** The event loop *)

(** What can happen to a client: its caller uses the API; the transport runs
    one of the callbacks of a call it was given, with any arguments; the user
    answers a re-authentication modal; the engine runs a promise job.  The
    loop does not hold the transport to its contract (one outcome and then the
    completion, once per call, nothing after an abort): a property that needs
    it says so.  Caller-supplied callbacks are opaque and run last in every
    handler; what they do to the client is a later event, after the
    completion they run in. *)
Inductive Event :=
  | CallRequest (path : string) (options : RequestOptions)
  | CallRequestPromise (path : string) (popts : PromiseOptions)
  | CallCancel (h : nat)
  | CallClear
  | XhrSuccess (x : nat) (data textStatus xhr : val)
  | XhrError (x : nat) (resp textStatus errorThrown : val)
  | XhrComplete (x : nat) (jqXHR textStatus : val)
  | SudoRetry (m : nat)
  | SudoClose (m : nat)
  | Microtask.

Definition step (ev : Event) : M unit :=
  match ev with
  | CallRequest path options => request path options;; ret tt
  | CallRequestPromise path popts => requestPromise path popts;; ret tt
  | CallCancel h => cancel h
  | CallClear => clear
  | XhrSuccess x d ts xv =>
      σ ← read;
      match xhrs σ !! x with Some c => ajax_success c d ts xv | None => ret tt end
  | XhrError x r ts et =>
      σ ← read;
      match xhrs σ !! x with Some c => ajax_error c r ts et | None => ret tt end
  | XhrComplete x j ts =>
      σ ← read;
      match xhrs σ !! x with Some c => ajax_complete c j ts | None => ret tt end
  | SudoRetry m =>
      σ ← read;
      match modals σ !! m with
      | Some md => retryRequest (m_path md) (m_requestOptions md)
      | None => ret tt
      end
  | SudoClose m =>
      σ ← read;
      match modals σ !! m with
      | Some md => onClose (m_requestOptions md) (m_response md)
      | None => ret tt
      end
  | Microtask =>
      σ ← read;
      match jobs σ with
      | job :: rest => modify (set_jobs (fun _ => rest));; run_job job
      | [] => ret tt
      end
  end.

(** A run: the state reached and everything observed on the way.  An
    exception surfaces to whoever made the call; the client lives on. *)
Fixpoint run (evs : list Event) (σ : State) : State * list Effect :=
  match evs with
  | [] => (σ, [])
  | ev :: evs =>
      let r := step ev σ in
      let '(σ', t) := run evs (state_of r) in
      (σ', trace_of r ++ t)
  end.


(** ** Vocabulary of the properties *)

(** The calls of caller-supplied functions in a trace. *)
Definition is_call (e : Effect) : bool :=
  match e with ECall _ _ => true | _ => false end.

Definition calls (t : list Effect) : list Effect := List.filter is_call t.

Definition is_abort_of (x : nat) (e : Effect) : bool :=
  match e with EAbort y => Nat.eqb x y | _ => false end.

(** Is [id] a key of the registry? *)
Definition registered (id : string) (σ : State) : bool :=
  match activeRequests σ !! id with Some _ => true | None => false end.

(** How often a run takes [id] out of the registry. *)
Fixpoint removals (id : string) (evs : list Event) (σ : State) : nat :=
  match evs with
  | [] => 0
  | ev :: evs =>
      let σ' := state_of (step ev σ) in
      (if registered id σ && negb (registered id σ') then 1 else 0) + removals id evs σ'
  end.

(** The events that complete call [x]: the transport runs its [complete]
    callback, or the call is aborted, by [cancel()] on its handle (which has
    the number of the call, see [wf]) or by [clear()]. *)
Definition is_complete_of (x : nat) (ev : Event) : bool :=
  match ev with
  | XhrComplete y _ _ => Nat.eqb x y
  | CallCancel h => Nat.eqb x h
  | CallClear => true
  | _ => false
  end.

(** The transport running a callback of call [x]. *)
Definition delivery_of (x : nat) (ev : Event) : bool :=
  match ev with
  | XhrSuccess y _ _ _ | XhrError y _ _ _ | XhrComplete y _ _ => Nat.eqb x y
  | _ => false
  end.

(** The transport running the error callback of call [x] with a response that
    has an elevated-privilege code. *)
Definition sudo_error_of (x : nat) (ev : Event) : bool :=
  match ev with
  | XhrError y resp _ _ => Nat.eqb x y && isSudoRequired resp
  | _ => false
  end.

(** The transport running a callback of call [x], an error response with an
    elevated-privilege code excepted. *)
Definition plain_delivery (x : nat) (ev : Event) : bool :=
  match ev with
  | XhrSuccess y _ _ _ => Nat.eqb x y
  | XhrComplete y _ _ => Nat.eqb x y
  | XhrError y resp _ _ => Nat.eqb x y && negb (isSudoRequired resp)
  | _ => false
  end.

(** The [Request] object at [h] has been cancelled. *)
Definition dead (h : nat) (σ : State) : Prop :=
  ∃ r, heap σ !! h = Some r ∧ alive r = false.

(** The states of a client that has issued [length (xhrs σ)] requests: the
    call, the [Request] object and the id of the [n]-th one are all numbered
    [n], and the registry holds handles under their own id only. *)
Definition wf (σ : State) : Prop :=
  guids σ = length (xhrs σ) ∧
  length (heap σ) = length (xhrs σ) ∧
  (∀ x c, xhrs σ !! x = Some c → c_id c = uniqueId x) ∧
  (∀ h r, heap σ !! h = Some r → xhr r = h) ∧
  (∀ id h, activeRequests σ !! id = Some h → id = uniqueId h ∧ h < length (heap σ)).

(** The same [Request] objects, some of them cancelled since. *)
Definition killed (hp hp' : list Request) : Prop :=
  Forall2 (fun r r' => xhr r' = xhr r ∧ (alive r' = true → alive r = true)) hp hp'.

(** A computation that issues no request and leaves the registry alone. *)
Definition quiet (σ σ' : State) : Prop :=
  baseUrl σ' = baseUrl σ ∧ activeRequests σ' = activeRequests σ ∧
  xhrs σ' = xhrs σ ∧ guids σ' = guids σ ∧ killed (heap σ) (heap σ') ∧
  modals σ `prefix_of` modals σ'.

Definition Quiet {A} (m : M A) : Prop := ∀ σ, quiet σ (state_of (m σ)).

(** A computation that issues no request and may take ids out of the
    registry. *)
Definition calm (σ σ' : State) : Prop :=
  baseUrl σ' = baseUrl σ ∧ activeRequests σ' ⊆ activeRequests σ ∧
  xhrs σ' = xhrs σ ∧ guids σ' = guids σ ∧ killed (heap σ) (heap σ') ∧
  modals σ `prefix_of` modals σ'.

Definition Calm {A} (m : M A) : Prop := ∀ σ, calm σ (state_of (m σ)).

(** A computation that issues one request. *)
Definition issues (σ σ' : State) : Prop :=
  ∃ c, c_id c = uniqueId (guids σ) ∧
       baseUrl σ' = baseUrl σ ∧
       xhrs σ' = xhrs σ ++ [c] ∧
       heap σ' = heap σ ++ [{| alive := true; xhr := length (xhrs σ) |}] ∧
       activeRequests σ' = <[uniqueId (guids σ) := length (heap σ)]> (activeRequests σ) ∧
       guids σ' = S (guids σ) ∧
       modals σ' = modals σ.

(** The state and trace of a request that goes through. *)
Definition issued (path : string) (options : RequestOptions) (body : val) (q : string)
    (σ : State) : State :=
  {| baseUrl := baseUrl σ;
     activeRequests := <[uniqueId (guids σ) := length (heap σ)]> (activeRequests σ);
     heap := heap σ ++ [{| alive := true; xhr := length (xhrs σ) |}];
     xhrs := xhrs σ ++ [
       {| url := fullUrl (baseUrl σ) path q; ajax_method := request_method options;
          ajax_data := body; c_id := uniqueId (guids σ); c_path := path;
          c_options := options;
          c_errorObject := {| stack := captured_stack (errors σ) |};
          c_requestSpan :=
            {| request_data := body; op := "http";
               description := method_name (request_method options) +:+ " " +:+ path |} |}];
     promises := promises σ; modals := modals σ; jobs := jobs σ;
     guids := S (guids σ); errors := S (errors σ) |}.

(** The state in which [requestPromise] hands over to [request]. *)
Definition promised (σ : State) : State :=
  set_promises (fun ps => ps ++ [{| outcome := None; reaction := None |}])
    (set_errors S σ).

(** The state after [retryRequest] has issued the retry and hung its
    closures on the promise. *)
Definition retried (path : string) (requestOptions : RequestOptions) (body : val)
    (q : string) (σ : State) : State :=
  set_promises
    <[length (promises σ) := {| outcome := None; reaction := Some requestOptions |}]>
    (issued path
       (promise_options path {| includeAllArgs := VUndef; options_rest := requestOptions |}
          (length (promises σ)) {| stack := captured_stack (errors σ) |})
       body q (promised σ)).

(** Whose functions are called.  [supplies f options]: the caller put [f] in
    a callback slot of [options].  [known f σ]: [f] was supplied to a request
    issued in [σ], or to one that a modal, a promise or a job of [σ] holds.
    [mentions f ev]: the event is a call of the API that supplies [f]. *)
Definition is_caller (f : string) (cb : option callback) : bool :=
  match cb with Some (Caller g) => String.eqb f g | _ => false end.

Definition supplies (f : string) (options : RequestOptions) : bool :=
  is_caller f (success options) || is_caller f (error options) ||
  is_caller f (complete options).

Definition known (f : string) (σ : State) : bool :=
  existsb (fun c => supplies f (c_options c)) (xhrs σ) ||
  existsb (fun m => supplies f (m_requestOptions m)) (modals σ) ||
  existsb (fun p => match reaction p with Some o => supplies f o | None => false end)
    (promises σ) ||
  existsb (fun j => supplies f (fst j)) (jobs σ).

Definition mentions (f : string) (ev : Event) : bool :=
  match ev with
  | CallRequest _ options => supplies f options
  | CallRequestPromise _ popts => supplies f (options_rest popts)
  | _ => false
  end.

Definition is_call_of (f : string) (e : Effect) : bool :=
  match e with ECall g _ => String.eqb f g | _ => false end.

(** The callbacks that a state holds are left as they are. *)
Definition same_callbacks (σ σ' : State) : Prop :=
  xhrs σ' = xhrs σ ∧ modals σ' = modals σ ∧ promises σ' = promises σ ∧ jobs σ' = jobs σ.

(** [f] is supplied to call [x] at most: no other call, no modal, no promise
    and no job holds it. *)
Definition own (f : string) (x : nat) (σ : State) : Prop :=
  x < length (xhrs σ) ∧
  (∀ y c, xhrs σ !! y = Some c → y ≠ x → supplies f (c_options c) = false) ∧
  Forall (fun md => supplies f (m_requestOptions md) = false) (modals σ) ∧
  Forall (fun pr => ∀ o, reaction pr = Some o → supplies f o = false) (promises σ) ∧
  Forall (fun j => supplies f (fst j) = false) (jobs σ).

(** A trace without a call of [f]. *)
Definition nocall (f : string) (t : list Effect) : Prop :=
  List.filter (is_call_of f) t = [].

(** A computation that does not call [f] and hands it to nobody. *)
Definition Hush {A} (f : string) (x : nat) (m : M A) : Prop :=
  ∀ σ, own f x σ → nocall f (trace_of (m σ)) ∧ own f x (state_of (m σ)).

(** What the callbacks of call [c] report when the call is aborted: the error
    is measured and captured, the span is finished. *)
Definition abort_report (c : AjaxSettings) : list Effect :=
  [EMeasure "app.api.request-error" ("api-request-start-" +:+ c_id c) (VNum 0);
   ECaptureException
     (VRequestError aborted_xhr
        (stack (default (c_errorObject c) (preservedError (c_options c))))
        (VStr (method_name (ajax_method c))) (c_path c) 2)
     {| extras := []; tags := [("http.statusCode", String_ (VNum 0))];
        level := Some "warning" |};
   EFinishSpan (c_requestSpan c)].

(** More vocabulary: the aborts and the redirects of a trace, and the keys
    that [paramsToQueryArgs] can produce. *)
Definition is_abort (e : Effect) : bool :=
  match e with EAbort _ => true | _ => false end.

Definition is_redirect (e : Effect) : bool :=
  match e with ERedirectToProject _ => true | _ => false end.

Definition query_keys : list string :=
  ["id"; "query"; "environment"; "project"; "start"; "end"; "statsPeriod"; "utc"].

(** ** Properties *)

Example paramsToQueryArgs_ids :
  paramsToQueryArgs {["itemIds" := VArr [VNum 1; VNum 2; VNum 3]]}
  = {["id" := VArr [VNum 1; VNum 2; VNum 3]]}.
Proof. vm_compute. reflexivity. Qed.

Lemma request_ok path options σ body q :
  request_data_ options = Ok body →
  request_query options = Ok q →
  request path options σ =
    (Ok (length (heap σ)), issued path options body q σ,
     [EStartSpan {| request_data := body; op := "http";
                    description := method_name (request_method options) +:+ " " +:+ path |};
      EMark ("api-request-start-" +:+ uniqueId (guids σ));
      EAjax (length (xhrs σ)) (fullUrl (baseUrl σ) path q) (request_method options) body]).
Proof.
  intros Hd Hq. unfold request, issued.
  unfold mbind, M_bind, bind, lift, try_catch. rewrite Hd, Hq. reflexivity.
Qed.

(** *** Running computations *)

Lemma bind_run {A B} (m : M A) (k : A → M B) σ :
  (m ≫= k) σ =
  match m σ with
  | (Ok a, σ1, t1) => let '(r, σ2, t2) := k a σ1 in (r, σ2, t1 ++ t2)
  | (Throw e, σ1, t1) => (Throw e, σ1, t1)
  end.
Proof. reflexivity. Qed.

Lemma state_of_bind {A B} (m : M A) (k : A → M B) σ :
  state_of ((m ≫= k) σ) =
  match result_of (m σ) with
  | Ok a => state_of (k a (state_of (m σ)))
  | Throw _ => state_of (m σ)
  end.
Proof.
  rewrite bind_run. destruct (m σ) as [[[a|e] σ1] t1]; [|done].
  cbn. by destruct (k a σ1) as [[r σ2] t2].
Qed.

Lemma trace_of_bind {A B} (m : M A) (k : A → M B) σ :
  trace_of ((m ≫= k) σ) =
  match result_of (m σ) with
  | Ok a => trace_of (m σ) ++ trace_of (k a (state_of (m σ)))
  | Throw _ => trace_of (m σ)
  end.
Proof.
  rewrite bind_run. destruct (m σ) as [[[a|e] σ1] t1]; [|done].
  cbn. by destruct (k a σ1) as [[r σ2] t2].
Qed.

(** *** Computations that leave the registry alone *)

Lemma killed_refl hp : killed hp hp.
Proof. apply Forall_Forall2_diag, Forall_forall. auto. Qed.

Lemma killed_trans hp1 hp2 hp3 : killed hp1 hp2 → killed hp2 hp3 → killed hp1 hp3.
Proof.
  unfold killed. intros H12 H23.
  eapply Forall2_trans; [|exact H12|exact H23].
  intros r1 r2 r3 [E1 A1] [E2 A2]. split; [congruence|auto].
Qed.

Lemma killed_cancel hp h r :
  hp !! h = Some r → killed hp (<[h := {| alive := false; xhr := xhr r |}]> hp).
Proof.
  intros Hh. apply Forall2_same_length_lookup. split; [by rewrite length_insert|].
  intros i r1 r2 H1 H2. destruct (decide (i = h)) as [->|Hne].
  - rewrite list_lookup_insert_eq in H2 by (by eapply lookup_lt_Some).
    simplify_eq. done.
  - rewrite list_lookup_insert_ne in H2 by done. simplify_eq. done.
Qed.

Lemma killed_lookup hp hp' h r' :
  killed hp hp' → hp' !! h = Some r' →
  ∃ r, hp !! h = Some r ∧ xhr r' = xhr r ∧ (alive r' = true → alive r = true).
Proof.
  intros Hk Hh. destruct (Forall2_lookup_r _ _ _ _ _ Hk Hh) as (r & ? & ? & ?). eauto.
Qed.

Lemma killed_lookup_l hp hp' h r :
  killed hp hp' → hp !! h = Some r →
  ∃ r', hp' !! h = Some r' ∧ xhr r' = xhr r ∧ (alive r' = true → alive r = true).
Proof.
  intros Hk Hh. destruct (Forall2_lookup_l _ _ _ _ _ Hk Hh) as (r' & ? & ? & ?). eauto.
Qed.

Lemma quiet_refl σ : quiet σ σ.
Proof. repeat split; [apply killed_refl|done]. Qed.

Lemma quiet_trans σ1 σ2 σ3 : quiet σ1 σ2 → quiet σ2 σ3 → quiet σ1 σ3.
Proof.
  intros (?&?&?&?&?&?) (?&?&?&?&?&?). repeat split; try congruence.
  - by eapply killed_trans.
  - by etrans.
Qed.

Lemma Quiet_ret {A} (a : A) : Quiet (ret a).
Proof. intros σ. apply quiet_refl. Qed.

Lemma Quiet_emit e : Quiet (emit e).
Proof. intros σ. apply quiet_refl. Qed.

Lemma Quiet_lift {A} (r : Res A) : Quiet (lift r).
Proof. intros σ. apply quiet_refl. Qed.

Lemma Quiet_throw {A} e : Quiet (@throw A e).
Proof. intros σ. apply quiet_refl. Qed.

Lemma Quiet_modify f : (∀ σ, quiet σ (f σ)) → Quiet (modify f).
Proof. intros Hf σ. apply Hf. Qed.

Lemma Quiet_bind {A B} (m : M A) (k : A → M B) :
  Quiet m → (∀ a, Quiet (k a)) → Quiet (m ≫= k).
Proof.
  intros Hm Hk σ. rewrite state_of_bind. destruct (result_of (m σ)); [|apply Hm].
  eapply quiet_trans; [apply Hm|apply Hk].
Qed.

(** A computation that first reads the state. *)
Lemma Quiet_read {B} (k : State → M B) :
  (∀ σ, quiet σ (state_of (k σ σ))) → Quiet (read ≫= k).
Proof. intros Hk σ. rewrite state_of_bind. apply Hk. Qed.

Lemma Quiet_try_catch {A} (m : M A) (h : val → M A) :
  Quiet m → (∀ e, Quiet (h e)) → Quiet (try_catch m h).
Proof.
  intros Hm Hh σ. unfold try_catch. specialize (Hm σ).
  destruct (m σ) as [[[a|e] σ1] t1]; [done|].
  specialize (Hh e σ1). destruct (h e σ1) as [[r σ2] t2].
  eapply quiet_trans; [exact Hm|exact Hh].
Qed.

Ltac unfold_m := unfold mbind, M_bind, bind, ret, emit, read, modify, lift, throw in *.

(** Closes [quiet σ σ'] when [σ'] differs from [σ] outside the registry, the
    heap, the calls and the id counter. *)
Ltac quiet_now :=
  repeat split; try done;
  first [apply killed_refl | by apply prefix_app_r | reflexivity].

Lemma Quiet_new_Error : Quiet new_Error.
Proof. intros σ. quiet_now. Qed.

Lemma Quiet_new_Promise : Quiet new_Promise.
Proof. intros σ. quiet_now. Qed.

Lemma Quiet_settle p o : Quiet (settle p o).
Proof.
  intros σ. unfold settle. unfold_m. cbn.
  destruct (promises σ !! p) as [[[?|] [?|]]|]; quiet_now.
Qed.

Lemma Quiet_then_catch p opts : Quiet (then_catch p opts).
Proof.
  intros σ. unfold then_catch. unfold_m. cbn.
  destruct (promises σ !! p) as [[[?|] ?]|]; quiet_now.
Qed.

Lemma Quiet_call_fn f args : Quiet (call_fn f args).
Proof.
  destruct f as [name|p all|p pe m path]; cbn.
  - apply Quiet_emit.
  - destruct all; apply Quiet_settle.
  - apply Quiet_settle.
Qed.

Create HintDb quiet.
#[local] Hint Resolve Quiet_ret Quiet_emit Quiet_lift Quiet_throw Quiet_new_Error
  Quiet_new_Promise Quiet_settle Quiet_then_catch Quiet_call_fn : quiet.

Lemma Quiet_hasProjectBeenRenamed response : Quiet (hasProjectBeenRenamed response).
Proof. intros σ. unfold hasProjectBeenRenamed. destruct (negb _); quiet_now. Qed.

Lemma Quiet_for_each {A} (l : list A) (body : A → M unit) :
  (∀ a, Quiet (body a)) → Quiet (for_each l body).
Proof.
  intros Hb. induction l as [|a l IH]; cbn; [apply Quiet_ret|].
  apply Quiet_bind; auto.
Qed.

Lemma Quiet_wrapCallback id func args : Quiet (wrapCallback id func false args).
Proof.
  unfold wrapCallback. apply Quiet_read. intros σ.
  apply Quiet_bind; [apply Quiet_ret|intros _].
  destruct (_ ≫= _) as [r|]; [|apply Quiet_ret].
  destruct (alive r); [|apply Quiet_ret].
  apply Quiet_bind; [apply Quiet_hasProjectBeenRenamed|].
  intros [|]; [apply Quiet_ret|].
  destruct func; [apply Quiet_call_fn|apply Quiet_ret].
Qed.

Lemma Quiet_openSudo m : Quiet (openSudo m).
Proof. intros σ. quiet_now. Qed.

Lemma Quiet_handleRequestError id path opts response args :
  Quiet (handleRequestError id path opts response args).
Proof.
  unfold handleRequestError.
  destruct (isSudoRequired response); [apply Quiet_openSudo|apply Quiet_wrapCallback].
Qed.

Lemma Quiet_onClose opts response : Quiet (onClose opts response).
Proof. unfold onClose. destruct (error opts); auto with quiet. Qed.

Lemma Quiet_run_job job : Quiet (run_job job).
Proof.
  destruct job as [opts [v|e]]; cbn.
  - destruct (success opts); auto with quiet.
  - destruct (error opts); auto with quiet.
Qed.

Lemma Quiet_ajax_success c d ts xv : Quiet (ajax_success c d ts xv).
Proof.
  unfold ajax_success. apply Quiet_bind; [apply Quiet_emit|intros _].
  destruct (success (c_options c)); [apply Quiet_wrapCallback|apply Quiet_ret].
Qed.

Lemma Quiet_ajax_error c r ts et : Quiet (ajax_error c r ts et).
Proof.
  unfold ajax_error. apply Quiet_bind; [apply Quiet_emit|intros _].
  apply Quiet_bind; [apply Quiet_emit|intros _].
  apply Quiet_handleRequestError.
Qed.

(** *** The shapes of [request] and [requestPromise] *)

Lemma request_throw_data path options σ e :
  request_data_ options = Throw e →
  request path options σ = (Throw e, σ, []).
Proof. intros Hd. unfold request. unfold_m. by rewrite Hd. Qed.

Lemma request_throw_query path options σ body err :
  request_data_ options = Ok body →
  request_query options = Throw err →
  request path options σ =
    (Throw err, σ,
     [EStartSpan {| request_data := body; op := "http";
                    description := method_name (request_method options) +:+ " " +:+ path |};
      ECaptureException err
        {| extras := [("path", VStr path); ("query", query options)];
           tags := []; level := None |}]).
Proof.
  intros Hd Hq. unfold request, try_catch. unfold_m. by rewrite Hd, Hq.
Qed.

Lemma issued_issues path options body q σ : issues σ (issued path options body q σ).
Proof. eexists. cbn. repeat split; reflexivity. Qed.

Lemma request_shape path options σ :
  quiet σ (state_of (request path options σ)) ∨
  issues σ (state_of (request path options σ)).
Proof.
  destruct (request_data_ options) as [body|e] eqn:Hd.
  - destruct (request_query options) as [q|e] eqn:Hq.
    + right. rewrite (request_ok _ _ _ _ _ Hd Hq). apply issued_issues.
    + left. rewrite (request_throw_query _ _ _ _ _ Hd Hq). apply quiet_refl.
  - left. rewrite (request_throw_data _ _ _ _ Hd). apply quiet_refl.
Qed.

Lemma new_Error_run σ :
  new_Error σ = (Ok {| stack := captured_stack (errors σ) |}, set_errors S σ, []).
Proof. reflexivity. Qed.

Lemma new_Promise_run σ :
  new_Promise σ =
    (Ok (length (promises σ)),
     set_promises (fun ps => ps ++ [{| outcome := None; reaction := None |}]) σ, []).
Proof. reflexivity. Qed.

Lemma requestPromise_run path popts σ :
  requestPromise path popts σ =
    let p := length (promises σ) in
    let options := promise_options path popts p {| stack := captured_stack (errors σ) |} in
    match request path options (promised σ) with
    | (Ok _, σ1, t1) => (Ok p, σ1, t1)
    | (Throw err, σ1, t1) =>
        let '(r, σ2, t2) := settle p (Rejected err) σ1 in
        (match r with Ok _ => Ok p | Throw e => Throw e end, σ2, t1 ++ t2)
    end.
Proof.
  unfold requestPromise. rewrite bind_run, new_Error_run. cbn zeta iota beta.
  rewrite bind_run, new_Promise_run. cbn zeta iota beta.
  change (set_promises _ (set_errors S σ)) with (promised σ).
  change (length (promises (set_errors S σ))) with (length (promises σ)).
  rewrite bind_run. unfold try_catch. rewrite bind_run.
  destruct (request _ _ _) as [[[h|err] σ1] t1]; cbn.
  - by rewrite !app_nil_r.
  - destruct (settle _ _ _) as [[[[]|e] σ2] t2]; cbn; by rewrite ?app_nil_r.
Qed.

Lemma requestPromise_ok path popts σ body q :
  request_data_ (options_rest popts) = Ok body →
  request_query (options_rest popts) = Ok q →
  let options := promise_options path popts (length (promises σ))
                   {| stack := captured_stack (errors σ) |} in
  requestPromise path popts σ =
    (Ok (length (promises σ)), issued path options body q (promised σ),
     [EStartSpan {| request_data := body; op := "http";
                    description := method_name (request_method options) +:+ " " +:+ path |};
      EMark ("api-request-start-" +:+ uniqueId (guids σ));
      EAjax (length (xhrs σ)) (fullUrl (baseUrl σ) path q) (request_method options) body]).
Proof.
  intros Hd Hq options.
  assert (Hd' : request_data_ options = Ok body) by exact Hd.
  assert (Hq' : request_query options = Ok q) by exact Hq.
  rewrite requestPromise_run. cbn zeta. fold options.
  by rewrite (request_ok _ _ _ _ _ Hd' Hq').
Qed.

Lemma requestPromise_shape path popts σ :
  quiet σ (state_of (requestPromise path popts σ)) ∨
  issues σ (state_of (requestPromise path popts σ)).
Proof.
  rewrite requestPromise_run. cbn zeta.
  set (options := promise_options _ _ _ _).
  assert (Hp : quiet σ (promised σ)) by quiet_now.
  destruct (request_data_ options) as [body|e] eqn:Hd.
  - destruct (request_query options) as [q|e] eqn:Hq.
    + right. rewrite (request_ok _ _ _ _ _ Hd Hq).
      eexists. cbn. repeat split; reflexivity.
    + left. rewrite (request_throw_query _ _ _ _ _ Hd Hq).
      pose proof (Quiet_settle (length (promises σ)) (Rejected e) (promised σ)) as Hs.
      destruct (settle _ _ _) as [[r σ2] t2]. eapply quiet_trans; [exact Hp|exact Hs].
  - left. rewrite (request_throw_data _ _ _ _ Hd).
    pose proof (Quiet_settle (length (promises σ)) (Rejected e) (promised σ)) as Hs.
    destruct (settle _ _ _) as [[r σ2] t2]. eapply quiet_trans; [exact Hp|exact Hs].
Qed.

(** *** What one event does to the registry, the heap and the calls *)

Lemma wrapCallback_cleanup_shape id func args σ :
  quiet (set_activeRequests (delete id) σ) (state_of (wrapCallback id func true args σ)).
Proof.
  unfold wrapCallback. rewrite state_of_bind. cbn [read result_of state_of fst snd].
  rewrite state_of_bind. cbn [modify result_of state_of fst snd].
  set (σd := set_activeRequests (delete id) σ).
  destruct (_ ≫= _) as [r|]; [|apply quiet_refl].
  destruct (alive r); [|apply quiet_refl].
  apply Quiet_bind; [apply Quiet_hasProjectBeenRenamed|].
  intros [|]; [apply Quiet_ret|].
  destruct func; [apply Quiet_call_fn|apply Quiet_ret].
Qed.

(** The callbacks never throw: a caller-supplied function is opaque, and the
    closures of [requestPromise] settle a promise. *)
Lemma settle_returns p o σ : result_of (settle p o σ) = Ok tt.
Proof.
  unfold settle. unfold_m. cbn.
  by destruct (promises σ !! p) as [[[?|] [?|]]|].
Qed.

Lemma call_fn_returns f args σ : result_of (call_fn f args σ) = Ok tt.
Proof.
  destruct f as [name|p all|p pe m path]; cbn; [done| |apply settle_returns].
  destruct all; apply settle_returns.
Qed.

Lemma wrapCallback_returns id func cleanup args σ :
  ∃ σw tw, wrapCallback id func cleanup args σ = (Ok tt, σw, tw).
Proof.
  unfold wrapCallback. rewrite bind_run. cbn [read]. rewrite bind_run.
  assert (Hc : ∃ σc, (if cleanup then modify (set_activeRequests (delete id)) else ret tt) σ
                     = (Ok tt, σc, [])) by (destruct cleanup; by eexists).
  destruct Hc as [σc ->].
  destruct (_ ≫= _) as [r|]; [|by eexists _, _].
  destruct (alive r); [|by eexists _, _].
  unfold hasProjectBeenRenamed. destruct (negb _); cbn.
  - destruct func as [f|]; [|by eexists _, _].
    pose proof (call_fn_returns f args σc) as Hr.
    destruct (call_fn f args σc) as [[res σw] tw]. cbn in Hr. subst res. by eexists _, _.
  - by eexists _, _.
Qed.

(** *** Computations that may take ids out of the registry *)

Lemma quiet_calm σ σ' : quiet σ σ' → calm σ σ'.
Proof. intros (? & E & ? & ? & ? & ?). repeat split; try done. by rewrite E. Qed.

Lemma calm_refl σ : calm σ σ.
Proof. apply quiet_calm, quiet_refl. Qed.

Lemma calm_trans σ1 σ2 σ3 : calm σ1 σ2 → calm σ2 σ3 → calm σ1 σ3.
Proof.
  intros (?&?&?&?&?&?) (?&?&?&?&?&?). repeat split; try congruence.
  - by etrans.
  - by eapply killed_trans.
  - by etrans.
Qed.

Lemma calm_delete id σ σ' : quiet (set_activeRequests (delete id) σ) σ' → calm σ σ'.
Proof.
  intros (? & E & ? & ? & ? & ?). repeat split; try done.
  rewrite E. cbn. apply delete_subseteq.
Qed.

Lemma Calm_quiet {A} (m : M A) : Quiet m → Calm m.
Proof. intros H σ. apply quiet_calm, H. Qed.

Lemma Calm_bind {A B} (m : M A) (k : A → M B) :
  Calm m → (∀ a, Calm (k a)) → Calm (m ≫= k).
Proof.
  intros Hm Hk σ. rewrite state_of_bind. destruct (result_of (m σ)); [|apply Hm].
  eapply calm_trans; [apply Hm|apply Hk].
Qed.

Lemma Calm_read {B} (k : State → M B) :
  (∀ σ, calm σ (state_of (k σ σ))) → Calm (read ≫= k).
Proof. intros Hk σ. rewrite state_of_bind. apply Hk. Qed.

Lemma Calm_for_each {A} (l : list A) (body : A → M unit) :
  (∀ a, Calm (body a)) → Calm (for_each l body).
Proof.
  intros Hb. induction l as [|a l IH]; cbn; [apply Calm_quiet, Quiet_ret|].
  apply Calm_bind; auto.
Qed.

Lemma Calm_ajax_complete c j ts : Calm (ajax_complete c j ts).
Proof.
  intros σ. unfold ajax_complete. rewrite state_of_bind.
  cbn [emit result_of state_of fst snd].
  eapply calm_delete, wrapCallback_cleanup_shape.
Qed.

Lemma Calm_abort x : Calm (abort x).
Proof.
  unfold abort. apply Calm_bind; [apply Calm_quiet, Quiet_emit|intros _].
  apply Calm_read. intros σ.
  destruct (xhrs σ !! x) as [c|]; [|apply calm_refl].
  destruct (underway c σ); [|apply calm_refl].
  apply Calm_bind; [apply Calm_quiet, Quiet_ajax_error|intros _].
  apply Calm_ajax_complete.
Qed.

Lemma Calm_cancel h : Calm (cancel h).
Proof.
  intros σ. unfold cancel. rewrite state_of_bind. cbn [read result_of state_of fst snd].
  destruct (heap σ !! h) as [r|] eqn:Hh; [|apply calm_refl].
  rewrite state_of_bind. cbn [modify result_of state_of fst snd].
  eapply (calm_trans _ (set_heap <[h := {| alive := false; xhr := xhr r |}]> σ)).
  { apply quiet_calm. repeat split; try done. by apply killed_cancel. }
  apply Calm_bind; [apply Calm_abort|intros _]. apply Calm_quiet, Quiet_emit.
Qed.

Lemma Calm_clear : Calm clear.
Proof.
  unfold clear. apply Calm_read. intros σ.
  apply Calm_for_each. intros id. apply Calm_read. intros σ'.
  destruct (activeRequests σ' !! id); [apply Calm_cancel|apply calm_refl].
Qed.

Lemma retryRequest_shape path opts σ :
  quiet σ (state_of (retryRequest path opts σ)) ∨
  issues σ (state_of (retryRequest path opts σ)).
Proof.
  unfold retryRequest. rewrite state_of_bind.
  destruct (result_of _) as [p|e]; [|apply requestPromise_shape].
  pose proof (Quiet_then_catch p opts (state_of (requestPromise path
    {| includeAllArgs := VUndef; options_rest := opts |} σ))) as (Hb & Hr & Hx & Hg & Hk & Hm).
  assert (Hh : heap (state_of (then_catch p opts (state_of (requestPromise path
    {| includeAllArgs := VUndef; options_rest := opts |} σ)))) =
    heap (state_of (requestPromise path {| includeAllArgs := VUndef; options_rest := opts |} σ))).
  { unfold then_catch. unfold_m. cbn.
    destruct (promises _ !! p) as [[[?|] ?]|]; reflexivity. }
  assert (Hm' : modals (state_of (then_catch p opts (state_of (requestPromise path
    {| includeAllArgs := VUndef; options_rest := opts |} σ)))) =
    modals (state_of (requestPromise path {| includeAllArgs := VUndef; options_rest := opts |} σ))).
  { unfold then_catch. unfold_m. cbn.
    destruct (promises _ !! p) as [[[?|] ?]|]; reflexivity. }
  destruct (requestPromise_shape path {| includeAllArgs := VUndef; options_rest := opts |} σ)
    as [Hq|(c & ? & ? & ? & ? & ? & ? & ?)].
  - left. eapply quiet_trans; [exact Hq|]. repeat split; done.
  - right. exists c. rewrite Hb, Hr, Hx, Hg, Hh, Hm'. done.
Qed.

Lemma step_shape ev σ :
  let σ' := state_of (step ev σ) in
  match ev with
  | XhrComplete x _ _ =>
      match xhrs σ !! x with
      | Some c => quiet (set_activeRequests (delete (c_id c)) σ) σ'
      | None => σ' = σ
      end
  | CallRequest _ _ | CallRequestPromise _ _ | SudoRetry _ => quiet σ σ' ∨ issues σ σ'
  | CallCancel _ | CallClear => calm σ σ'
  | _ => quiet σ σ'
  end.
Proof.
  destruct ev as [path options|path popts|h| |x d ts xv|x r ts et|x j ts|m|m|]; cbn zeta.
  - unfold step. rewrite state_of_bind.
    destruct (request_shape path options σ) as [H|H];
      destruct (result_of _); auto.
  - unfold step. rewrite state_of_bind.
    destruct (requestPromise_shape path popts σ) as [H|H];
      destruct (result_of _); auto.
  - apply Calm_cancel.
  - apply Calm_clear.
  - unfold step. rewrite state_of_bind. cbn [read result_of state_of fst snd].
    destruct (xhrs σ !! x); [apply Quiet_ajax_success|apply quiet_refl].
  - unfold step. rewrite state_of_bind. cbn [read result_of state_of fst snd].
    destruct (xhrs σ !! x); [apply Quiet_ajax_error|apply quiet_refl].
  - unfold step. rewrite state_of_bind. cbn [read result_of state_of fst snd].
    destruct (xhrs σ !! x) as [c|]; [|reflexivity].
    unfold ajax_complete. rewrite state_of_bind. cbn [emit result_of state_of fst snd].
    apply wrapCallback_cleanup_shape.
  - unfold step. rewrite state_of_bind. cbn [read result_of state_of fst snd].
    destruct (modals σ !! m); [apply retryRequest_shape|left; apply quiet_refl].
  - unfold step. rewrite state_of_bind. cbn [read result_of state_of fst snd].
    destruct (modals σ !! m); [apply Quiet_onClose|apply quiet_refl].
  - unfold step. rewrite state_of_bind. cbn [read result_of state_of fst snd].
    destruct (jobs σ) as [|job rest]; [apply quiet_refl|].
    rewrite state_of_bind. cbn [modify result_of state_of fst snd].
    eapply quiet_trans; [|apply Quiet_run_job]. quiet_now.
Qed.

(** Every event either issues one request or issues none. *)
Lemma step_calm ev σ :
  calm σ (state_of (step ev σ)) ∨ issues σ (state_of (step ev σ)).
Proof.
  pose proof (step_shape ev σ) as Hs. cbn zeta in Hs.
  destruct ev; try (left; by apply quiet_calm); try (by left);
    try (destruct Hs; [left; by apply quiet_calm|by right]).
  left. destruct (xhrs σ !! x) as [c|]; [by eapply calm_delete|].
  rewrite Hs. apply calm_refl.
Qed.

(** *** Invariants of a run *)

Lemma state_of_run_app evs1 evs2 σ :
  fst (run (evs1 ++ evs2) σ) = fst (run evs2 (fst (run evs1 σ))).
Proof.
  revert σ. induction evs1 as [|ev evs1 IH]; intros σ; [done|].
  cbn. specialize (IH (state_of (step ev σ))).
  destruct (run (evs1 ++ evs2) _), (run evs1 _). exact IH.
Qed.

Lemma run_cons ev evs σ :
  fst (run (ev :: evs) σ) = fst (run evs (state_of (step ev σ))).
Proof. cbn. by destruct (run evs _). Qed.

Lemma wf_new_client b : wf (new_client b).
Proof.
  repeat split; cbn; try done.
  all: intros ? ? H; by rewrite ?lookup_nil, ?lookup_empty in H.
Qed.

(** What the constructor returns is a client that has issued nothing. *)
Lemma Client_new options σ : Client options = Ok σ → ∃ b, σ = new_client b.
Proof.
  unfold Client. destruct (if isUndefined options then _ else _); intros [= <-]; eauto.
Qed.

Lemma wf_Client options σ : Client options = Ok σ → wf σ.
Proof. intros [b ->]%Client_new. apply wf_new_client. Qed.

Lemma wf_calm σ σ' : wf σ → calm σ σ' → wf σ'.
Proof.
  intros (Hg & Hl & Hx & Hh & Hr) (_ & Er & Ex & Eg & Hk & _).
  pose proof (Forall2_length _ _ _ Hk) as Hlen.
  repeat split.
  - congruence.
  - congruence.
  - rewrite Ex. exact Hx.
  - intros h r' Hr'. destruct (killed_lookup _ _ _ _ Hk Hr') as (r & Hlr & Exr & _).
    rewrite Exr. eauto.
  - eapply lookup_weaken in H; [|exact Er]. by apply Hr in H as [? _].
  - eapply lookup_weaken in H; [|exact Er]. apply Hr in H as [_ ?]. lia.
Qed.

Lemma wf_quiet σ σ' : wf σ → quiet σ σ' → wf σ'.
Proof. intros Hwf Hq. eapply wf_calm; [exact Hwf|by apply quiet_calm]. Qed.

Lemma wf_delete id σ : wf σ → wf (set_activeRequests (delete id) σ).
Proof.
  intros (Hg & Hl & Hx & Hh & Hr). repeat split; try done; cbn in *.
  all: apply lookup_delete_Some in H as [_ H]; by apply Hr in H as [? ?].
Qed.

Lemma wf_issues σ σ' : wf σ → issues σ σ' → wf σ'.
Proof.
  intros (Hg & Hl & Hx & Hh & Hr) (c & Ec & _ & Ex & Eh & Er & Eg & _).
  repeat split.
  - rewrite Eg, Ex, length_app. cbn. lia.
  - rewrite Eh, Ex, !length_app. cbn. lia.
  - intros x c' Hc'. rewrite Ex in Hc'.
    apply lookup_app_Some in Hc' as [Hc'|[Hge Hc']]; [eauto|].
    destruct (x - length (xhrs σ)) as [|k] eqn:Hk; [|by destruct k].
    cbn in Hc'. simplify_eq. rewrite Ec, Hg. f_equal. lia.
  - intros h r Hhr. rewrite Eh in Hhr.
    apply lookup_app_Some in Hhr as [Hhr|[Hge Hhr]]; [eauto|].
    destruct (h - length (heap σ)) as [|k] eqn:Hk; [|by destruct k].
    cbn in Hhr. simplify_eq. cbn. lia.
  - rewrite Er in H. apply lookup_insert_Some in H as [[<- <-]|[_ H]].
    + f_equal. lia.
    + by apply Hr in H as [? _].
  - rewrite Er in H. rewrite Eh, length_app. cbn.
    apply lookup_insert_Some in H as [[_ <-]|[_ H]]; [lia|].
    apply Hr in H as [_ ?]. lia.
Qed.

Lemma wf_step ev σ : wf σ → wf (state_of (step ev σ)).
Proof.
  intros Hwf. destruct (step_calm ev σ); [by eapply wf_calm|by eapply wf_issues].
Qed.

Lemma wf_run evs σ : wf σ → wf (fst (run evs σ)).
Proof.
  revert σ. induction evs as [|ev evs IH]; intros σ Hwf; [done|].
  rewrite run_cons. by apply IH, wf_step.
Qed.

(** Calls are never forgotten. *)
Lemma xhrs_step ev σ x c :
  xhrs σ !! x = Some c → xhrs (state_of (step ev σ)) !! x = Some c.
Proof.
  intros Hx. destruct (step_calm ev σ) as [(_ & _ & E & _)|(c' & _ & _ & E & _)]; rewrite E.
  - done.
  - by apply lookup_app_l_Some.
Qed.

Lemma xhrs_run evs σ x c :
  xhrs σ !! x = Some c → xhrs (fst (run evs σ)) !! x = Some c.
Proof.
  revert σ. induction evs as [|ev evs IH]; intros σ Hx; [done|].
  rewrite run_cons. by apply IH, xhrs_step.
Qed.

(** A cancelled handle stays cancelled. *)
Lemma dead_calm h σ σ' : dead h σ → calm σ σ' → dead h σ'.
Proof.
  intros (r & Hr & Ha) (_ & _ & _ & _ & Hk & _).
  destruct (killed_lookup_l _ _ _ _ Hk Hr) as (r' & Hr' & _ & Hal).
  exists r'. split; [done|]. destruct (alive r'); [|done].
  rewrite Hal in Ha; done.
Qed.

Lemma dead_quiet h σ σ' : dead h σ → quiet σ σ' → dead h σ'.
Proof. intros Hd Hq. eapply dead_calm; [exact Hd|by apply quiet_calm]. Qed.

Lemma dead_step ev h σ : dead h σ → dead h (state_of (step ev σ)).
Proof.
  intros Hd. destruct (step_calm ev σ) as [Hc|(c' & _ & _ & _ & E & _)].
  - by eapply dead_calm.
  - destruct Hd as (r & Hr & Ha).
    exists r. rewrite E. split; [by apply lookup_app_l_Some|done].
Qed.

Lemma dead_run evs h σ : dead h σ → dead h (fst (run evs σ)).
Proof.
  revert σ. induction evs as [|ev evs IH]; intros σ Hd; [done|].
  rewrite run_cons. by apply IH, dead_step.
Qed.

(** An open modal stays open. *)
Lemma modals_step ev σ m md :
  modals σ !! m = Some md → modals (state_of (step ev σ)) !! m = Some md.
Proof.
  intros Hm.
  destruct (step_calm ev σ) as [(_ & _ & _ & _ & _ & Hp)|(c' & _ & _ & _ & _ & _ & _ & E)].
  - by eapply prefix_lookup_Some.
  - by rewrite E.
Qed.

Lemma modals_run evs σ m md :
  modals σ !! m = Some md → modals (fst (run evs σ)) !! m = Some md.
Proof.
  revert σ. induction evs as [|ev evs IH]; intros σ Hm; [done|].
  rewrite run_cons. by apply IH, modals_step.
Qed.

(** *** [paramsToQueryArgs] *)

Lemma paramsToQueryArgs_filters params :
  paramsToQueryArgs params =
  if truthy (prop params "query")
  then foldl (copy_date params) (filters params) date_props
  else filters params.
Proof. reflexivity. Qed.

Ltac split_ifs :=
  repeat match goal with
         | |- context [if ?b then _ else _] => destruct b eqn:?
         end.

Lemma filters_lookup params k :
  k ≠ "id" → k ≠ "query" → k ≠ "environment" → k ≠ "project" →
  filters params !! k = None.
Proof.
  intros. unfold filters. split_ifs; cbn; by simplify_map_eq.
Qed.

Lemma filters_id params :
  filters params !! "id" =
  if truthy (prop params "itemIds") then Some (prop params "itemIds") else None.
Proof. unfold filters. split_ifs; cbn; by simplify_map_eq. Qed.

Lemma filters_query params :
  filters params !! "query" =
  if truthy (prop params "itemIds") then None
  else if truthy (prop params "query") then Some (prop params "query") else None.
Proof. unfold filters. split_ifs; cbn; by simplify_map_eq. Qed.

(** What the loop over the date properties leaves under a key. *)
Lemma copy_dates_lookup params p k :
  foldl (copy_date params) p date_props !! k =
  if String.eqb k "start" then
    if isNil (prop params "start") then p !! k else Some (prop params "start")
  else if String.eqb k "end" then
    if isNil (prop params "end") then p !! k else Some (prop params "end")
  else if String.eqb k "statsPeriod" then
    if isNil (prop params "period") then p !! k else Some (prop params "period")
  else if String.eqb k "utc" then
    if isNil (prop params "utc") then p !! k else Some (prop params "utc")
  else p !! k.
Proof.
  cbn. unfold copy_date. cbn.
  destruct (String.eqb_spec k "start") as [->|];
  [|destruct (String.eqb_spec k "end") as [->|];
  [|destruct (String.eqb_spec k "statsPeriod") as [->|];
  [|destruct (String.eqb_spec k "utc") as [->|]]]];
  destruct (isNil (prop params "start")), (isNil (prop params "end")),
    (isNil (prop params "period")), (isNil (prop params "utc")); cbn;
  by simplify_map_eq.
Qed.

(** The date properties of the bag and the keys they are copied to. *)
Lemma date_key_lookup params k k' :
  (k, k') ∈ [("start", "start"); ("end", "end"); ("period", "statsPeriod"); ("utc", "utc")] →
  truthy (prop params "query") = true →
  paramsToQueryArgs params !! k' =
  if isNil (prop params k) then None else Some (prop params k).
Proof.
  intros Hk Hq. rewrite paramsToQueryArgs_filters, Hq, copy_dates_lookup.
  repeat (apply elem_of_cons in Hk as [Hk|Hk]; [simplify_eq; cbn;
    by rewrite filters_lookup by done|]).
  by apply elem_of_nil in Hk.
Qed.

Lemma date_key_absent params k' :
  k' ∈ ["start"; "end"; "statsPeriod"; "utc"] →
  truthy (prop params "query") = false →
  paramsToQueryArgs params !! k' = None.
Proof.
  intros Hk Hq. rewrite paramsToQueryArgs_filters, Hq.
  repeat (apply elem_of_cons in Hk as [Hk|Hk]; [simplify_eq; by apply filters_lookup|]).
  by apply elem_of_nil in Hk.
Qed.

Lemma id_key_lookup params :
  paramsToQueryArgs params !! "id" =
  if truthy (prop params "itemIds") then Some (prop params "itemIds") else None.
Proof.
  rewrite paramsToQueryArgs_filters.
  destruct (truthy (prop params "query")); [rewrite copy_dates_lookup; cbn|];
    apply filters_id.
Qed.

Lemma query_key_lookup params :
  paramsToQueryArgs params !! "query" =
  if truthy (prop params "itemIds") then None
  else if truthy (prop params "query") then Some (prop params "query") else None.
Proof.
  rewrite paramsToQueryArgs_filters.
  destruct (truthy (prop params "query")) eqn:Hq; [rewrite copy_dates_lookup; cbn|];
    rewrite filters_query, ?Hq; done.
Qed.

(** C1 (as amended): for a bag whose [itemIds] is a non-empty list, the result
    carries exactly that list under [id]; it has none of the date fields
    [start], [end], [statsPeriod], [utc] when the bag has no non-empty
    [query]; when the bag also has a non-empty [query], each date field is
    copied exactly when its input ([period] for [statsPeriod]) is neither
    null nor undefined. *)
Theorem paramsToQueryArgs_itemIds params ids :
  params !! "itemIds" = Some (VArr ids) →
  ids ≠ [] →
  let r := paramsToQueryArgs params in
  r !! "id" = Some (VArr ids) ∧
  (truthy (prop params "query") = false →
     ∀ k', k' ∈ ["start"; "end"; "statsPeriod"; "utc"] → r !! k' = None) ∧
  (truthy (prop params "query") = true →
     ∀ k k', (k, k') ∈ [("start", "start"); ("end", "end");
                        ("period", "statsPeriod"); ("utc", "utc")] →
       r !! k' = if isNil (prop params k) then None else Some (prop params k)).
Proof.
  intros Hids _ r. subst r. split; [|split].
  - rewrite id_key_lookup. unfold prop. by rewrite Hids.
  - intros Hq k' Hk'. by apply date_key_absent.
  - intros Hq k k' Hk. by apply date_key_lookup.
Qed.

(** C7: for a bag with a non-empty [query] and no [itemIds], the result holds
    that string under [query], and holds [start], [end], [statsPeriod] (from
    the input [period]) and [utc] exactly when the input field is neither null
    nor undefined, with the value of the input. *)
Theorem paramsToQueryArgs_query params q :
  params !! "itemIds" = None →
  params !! "query" = Some (VStr q) →
  q ≠ EmptyString →
  let r := paramsToQueryArgs params in
  r !! "query" = Some (VStr q) ∧
  r !! "period" = None ∧
  ∀ k k', (k, k') ∈ [("start", "start"); ("end", "end");
                     ("period", "statsPeriod"); ("utc", "utc")] →
    (is_Some (r !! k') ↔ isNil (prop params k) = false) ∧
    (∀ v, r !! k' = Some v → v = prop params k).
Proof.
  intros Hids Hq Hne r. subst r.
  assert (Ht : truthy (prop params "query") = true).
  { unfold prop. rewrite Hq. cbn. by destruct q. }
  split; [|split].
  - rewrite query_key_lookup, Ht. unfold prop. by rewrite Hids, Hq.
  - rewrite paramsToQueryArgs_filters, Ht, copy_dates_lookup. cbn.
    by apply filters_lookup.
  - intros k k' Hk. rewrite (date_key_lookup _ _ _ Hk Ht).
    destruct (isNil (prop params k)); split.
    + split; [intros [? ?]; done|done].
    + done.
    + split; [done|by eexists].
    + by intros v [= <-].
Qed.

(** *** [request] *)

(** C5: when serializing [options.query] throws, [request] throws that same
    exception to its caller; before that it reports the exception with the
    path and the query as extra context; no id is generated and the registry
    (indeed the whole state) is as before the call. *)
Theorem request_query_throws path options σ body err :
  request_data_ options = Ok body →
  request_query options = Throw err →
  let r := request path options σ in
  result_of r = Throw err ∧
  last (trace_of r) =
    Some (ECaptureException err
            {| extras := [("path", VStr path); ("query", query options)];
               tags := []; level := None |}) ∧
  activeRequests (state_of r) = activeRequests σ ∧
  guids (state_of r) = guids σ ∧
  state_of r = σ.
Proof.
  intros Hd Hq r. subst r. rewrite (request_throw_query _ _ _ _ _ Hd Hq). done.
Qed.

(** C8: a request that goes out uses [options.method], and without one POST
    when [options.data] is truthy and GET otherwise; under a method other than
    GET a payload that is not undefined is sent as [JSON.stringify] of it;
    otherwise the payload is sent as it is. *)
Theorem request_method_and_body path options σ h σ' t :
  request path options σ = (Ok h, σ', t) →
  ∃ m url_ body,
    EAjax (length (xhrs σ)) url_ m body ∈ t ∧
    (method options = None → m = if truthy (data options) then POST else GET) ∧
    (∀ m', method options = Some m' → m = m') ∧
    (m ≠ GET → data options ≠ VUndef → JSON_stringify (data options) = Ok body) ∧
    (m = GET ∨ data options = VUndef → body = data options).
Proof.
  intros Hr.
  destruct (request_data_ options) as [body|e] eqn:Hd;
    [|by rewrite (request_throw_data _ _ _ _ Hd) in Hr].
  destruct (request_query options) as [q|e] eqn:Hq;
    [|by rewrite (request_throw_query _ _ _ _ _ Hd Hq) in Hr].
  rewrite (request_ok _ _ _ _ _ Hd Hq) in Hr. simplify_eq.
  exists (request_method options), (fullUrl (baseUrl σ) path q), body.
  split; [rewrite !elem_of_cons; auto|]. repeat split.
  - unfold request_method. by intros ->.
  - unfold request_method. by intros m' ->.
  - intros Hm Hu. unfold request_data_ in Hd.
    assert (is_GET (request_method options) = false) as Hg
      by by destruct (request_method _).
    assert (isUndefined (data options) = false) as Hi by by destruct (data options).
    by rewrite Hg, Hi in Hd.
  - unfold request_data_ in Hd. intros [Hm|Hu].
    + rewrite Hm in Hd. rewrite andb_false_r in Hd. congruence.
    + rewrite Hu in Hd. cbn in Hd. congruence.
Qed.

(** *** The completion wrapper *)

(** C10: the wrapper made with [cleanup] deletes the id from the registry
    whatever the state, the callback and the arguments, before and apart from
    the alive check; so for a cancelled handle the callback is not run and
    the id is deleted all the same. *)
Theorem cleanup_is_unconditional id func args σ h r :
  activeRequests σ !! id = Some h →
  heap σ !! h = Some r →
  alive r = false →
  wrapCallback id func true args σ = (Ok tt, set_activeRequests (delete id) σ, []) ∧
  (∀ func' args' σ',
     activeRequests (state_of (wrapCallback id func' true args' σ')) =
     delete id (activeRequests σ')) ∧
  (∀ c j ts σ',
     activeRequests (state_of (ajax_complete c j ts σ')) =
     delete (c_id c) (activeRequests σ')).
Proof.
  intros Hid Hh Ha. split; [|split].
  - unfold wrapCallback. unfold_m. cbn. rewrite Hid. cbn. rewrite Hh, Ha. done.
  - intros func' args' σ'.
    by destruct (wrapCallback_cleanup_shape id func' args' σ') as (_ & -> & _).
  - intros c j ts σ'. unfold ajax_complete. rewrite state_of_bind.
    cbn [emit result_of state_of fst snd].
    by destruct (wrapCallback_cleanup_shape (c_id c) (complete (c_options c)) [j; ts] σ')
      as (_ & -> & _).
Qed.

(** *** The re-authentication branch *)

(** A wrapped callback does nothing when the id is not registered or the
    handle is cancelled. *)
Lemma wrapCallback_silent id func cleanup args σ :
  (activeRequests σ !! id = None ∨
   ∃ h, activeRequests σ !! id = Some h ∧ (heap σ !! h = None ∨ dead h σ)) →
  wrapCallback id func cleanup args σ =
    (Ok tt, if cleanup then set_activeRequests (delete id) σ else σ, []).
Proof.
  intros H. unfold wrapCallback. unfold_m. cbn.
  destruct H as [->|(h & -> & [Hh|(r & Hh & Ha)])]; cbn.
  - by destruct cleanup.
  - rewrite Hh. by destruct cleanup.
  - rewrite Hh, Ha. by destruct cleanup.
Qed.

Lemma handleRequestError_sudo id path opts response args σ :
  isSudoRequired response = true →
  handleRequestError id path opts response args σ =
    (Ok tt,
     set_modals (fun ms => ms ++ [
       {| superuser := strict_eq_str (get response ["responseJSON"; "detail"; "code"])
                         SUPERUSER_REQUIRED;
          sudo := strict_eq_str (get response ["responseJSON"; "detail"; "code"])
                    SUDO_REQUIRED;
          m_path := path; m_requestOptions := opts; m_response := response |}]) σ,
     [EOpenSudo (length (modals σ))
        (strict_eq_str (get response ["responseJSON"; "detail"; "code"]) SUPERUSER_REQUIRED)
        (strict_eq_str (get response ["responseJSON"; "detail"; "code"]) SUDO_REQUIRED)]).
Proof. intros Hs. unfold handleRequestError. by rewrite Hs. Qed.

(** C9: in the re-authentication branch the caller's functions are called
    directly.  Take a request whose id is no longer registered, or whose handle
    is cancelled, and an error response with an elevated-privilege code: a
    wrapped callback would stay silent, yet closing the modal calls the error
    callback with the response, and the jobs of a confirmed retry call the
    success and error callbacks with its outcome, in every state. *)
Theorem reauth_callbacks_are_unguarded id path opts response args σ s e :
  isSudoRequired response = true →
  (activeRequests σ !! id = None ∨ ∃ h, activeRequests σ !! id = Some h ∧ dead h σ) →
  success opts = Some (Caller s) →
  error opts = Some (Caller e) →
  let σ1 := state_of (handleRequestError id path opts response args σ) in
  trace_of (wrapCallback id (error opts) false (response :: args) σ1) = [] ∧
  step (SudoClose (length (modals σ))) σ1 = (Ok tt, σ1, [ECall e [response]]) ∧
  (∀ σ', onClose opts response σ' = (Ok tt, σ', [ECall e [response]])) ∧
  (∀ σ' v, run_job (opts, Fulfilled v) σ' = (Ok tt, σ', [ECall s [v]])) ∧
  (∀ σ' v, run_job (opts, Rejected v) σ' = (Ok tt, σ', [ECall e [v]])).
Proof.
  intros Hs Hreg Hsucc Herr σ1. subst σ1.
  rewrite (handleRequestError_sudo _ _ _ _ _ _ Hs). cbn [state_of fst snd].
  split; [|split; [|split; [|split]]].
  - rewrite wrapCallback_silent; [done|].
    destruct Hreg as [?|(h & ? & ?)]; [by left|right; exists h; split; [done|by right]].
  - unfold step. unfold_m. cbn. rewrite lookup_app_r by done.
    rewrite Nat.sub_diag. cbn. unfold onClose. rewrite Herr. done.
  - intros σ'. unfold onClose. by rewrite Herr.
  - intros σ' v. cbn. by rewrite Hsucc.
  - intros σ' v. cbn. by rewrite Herr.
Qed.

(** *** Deliveries to a live request *)

Lemma wrapCallback_live id f args σ h r :
  activeRequests σ !! id = Some h →
  heap σ !! h = Some r →
  alive r = true →
  isProjectMoved (hd VUndef args) = false →
  wrapCallback id (Some f) false args σ = call_fn f args σ.
Proof.
  intros Hid Hh Ha Hm. unfold wrapCallback. unfold_m. cbn.
  rewrite Hid. cbn. rewrite Hh, Ha. unfold hasProjectBeenRenamed. rewrite Hm. cbn.
  by destruct (call_fn f args σ) as [[? ?] ?].
Qed.

Lemma success_delivery_live σ x c h r d ts xv f :
  xhrs σ !! x = Some c →
  activeRequests σ !! c_id c = Some h →
  heap σ !! h = Some r →
  alive r = true →
  isProjectMoved d = false →
  success (c_options c) = Some f →
  step (XhrSuccess x d ts xv) σ =
    let '(res, σ', t) := call_fn f [d; ts; xv] σ in
    (res, σ',
     EMeasure "app.api.request-success" ("api-request-start-" +:+ c_id c)
       (js_and xv (member xv "status")) :: t).
Proof.
  intros Hx Hid Hh Ha Hm Hf. unfold step. rewrite bind_run. cbn [read].
  rewrite Hx. unfold ajax_success. rewrite bind_run. cbn [emit]. rewrite Hf.
  rewrite (wrapCallback_live _ _ _ _ _ _ Hid Hh Ha) by done.
  by destruct (call_fn f [d; ts; xv] σ) as [[? ?] ?].
Qed.

Lemma error_delivery_live σ x c h r resp ts et f :
  xhrs σ !! x = Some c →
  activeRequests σ !! c_id c = Some h →
  heap σ !! h = Some r →
  alive r = true →
  isSudoRequired resp = false →
  isProjectMoved resp = false →
  error (c_options c) = Some f →
  ∃ report,
    step (XhrError x resp ts et) σ =
      (let '(res, σ', t) := call_fn f [resp; ts; et] σ in
       (res, σ',
        EMeasure "app.api.request-error" ("api-request-start-" +:+ c_id c)
          (js_and resp (member resp "status")) :: report :: t)) ∧
    is_call report = false.
Proof.
  intros Hx Hid Hh Ha Hs Hm Hf. eexists. split.
  - unfold step. rewrite bind_run. cbn [read].
    rewrite Hx. unfold ajax_error. rewrite bind_run. cbn [emit].
    unfold withScope. rewrite bind_run. cbn [emit].
    unfold handleRequestError. rewrite Hs, Hf.
    rewrite (wrapCallback_live _ _ _ _ _ _ Hid Hh Ha) by done.
    destruct (call_fn f [resp; ts; et] σ) as [[? ?] ?]. reflexivity.
  - done.
Qed.

Lemma settle_pending p o σ pr :
  promises σ !! p = Some pr →
  outcome pr = None →
  settle p o σ =
    (Ok tt,
     match reaction pr with
     | Some opts => set_jobs (fun q => q ++ [(opts, o)])
     | None => fun σ => σ
     end (set_promises <[p := {| outcome := Some o; reaction := reaction pr |}]> σ),
     []).
Proof.
  intros Hp Ho. unfold settle. unfold_m. cbn. rewrite Hp, Ho.
  by destruct (reaction pr).
Qed.

Lemma baseUrl_step ev σ : baseUrl (state_of (step ev σ)) = baseUrl σ.
Proof.
  by destruct (step_calm ev σ) as [(E & _)|(c' & _ & E & _)].
Qed.

Lemma baseUrl_run evs σ : baseUrl (fst (run evs σ)) = baseUrl σ.
Proof.
  revert σ. induction evs as [|ev evs IH]; intros σ; [done|].
  by rewrite run_cons, IH, baseUrl_step.
Qed.

Lemma trace_of_run_cons ev evs σ :
  snd (run (ev :: evs) σ) = trace_of (step ev σ) ++ snd (run evs (state_of (step ev σ))).
Proof. cbn. by destruct (run evs _). Qed.

Lemma calls_app t1 t2 : calls (t1 ++ t2) = calls t1 ++ calls t2.
Proof. apply List.filter_app. Qed.

(** *** [requestPromise] *)

(** What a promise of [requestPromise] is settled with: it is returned
    pending; when the underlying call fails, it is rejected with the error
    object constructed from the response, the stack captured on entry, the
    [method] option as passed and the path; when it succeeds, it is resolved
    with the payload itself, or with the array of all the arguments if
    [includeAllArgs] is set.  (An elevated-privilege error goes to the
    re-authentication flow and a response saying the project has moved to
    the redirect; they are set aside.) *)
Lemma requestPromise_outcome path popts σ body q :
  request_data_ (options_rest popts) = Ok body →
  request_query (options_rest popts) = Ok q →
  let p := length (promises σ) in
  let x := length (xhrs σ) in
  let σ1 := state_of (requestPromise path popts σ) in
  result_of (requestPromise path popts σ) = Ok p ∧
  outcome <$> promises σ1 !! p = Some None ∧
  (∀ resp ts et,
     isSudoRequired resp = false → isProjectMoved resp = false →
     outcome <$> promises (state_of (step (XhrError x resp ts et) σ1)) !! p =
     Some (Some (Rejected
       (VRequestError resp (captured_stack (errors σ))
          (method_val (method (options_rest popts))) path 2)))) ∧
  (∀ d ts xv,
     isProjectMoved d = false →
     outcome <$> promises (state_of (step (XhrSuccess x d ts xv) σ1)) !! p =
     Some (Some (Fulfilled
       (if truthy (includeAllArgs popts) then VArr [d; ts; xv] else d)))) ∧
  (∃ c onSuccess onError,
     xhrs σ1 !! x = Some c ∧
     success (c_options c) = Some onSuccess ∧
     error (c_options c) = Some onError ∧
     ∀ σ' pr, promises σ' !! p = Some pr → outcome pr = None →
       (∀ resp rest,
          outcome <$> promises (state_of (call_fn onError (resp :: rest) σ')) !! p =
          Some (Some (Rejected
            (VRequestError resp (captured_stack (errors σ))
               (method_val (method (options_rest popts))) path 2)))) ∧
       (∀ d rest,
          outcome <$> promises (state_of (call_fn onSuccess (d :: rest) σ')) !! p =
          Some (Some (Fulfilled
            (if truthy (includeAllArgs popts) then VArr (d :: rest) else d))))).
Proof.
  intros Hd Hq p x σ1. subst σ1.
  rewrite (requestPromise_ok _ _ _ _ _ Hd Hq). cbn [result_of state_of fst snd].
  set (options := promise_options _ _ _ _).
  set (σ1 := issued path options body q (promised σ)).
  assert (Hx : xhrs σ1 !! x = Some
    {| url := fullUrl (baseUrl σ) path q; ajax_method := request_method options;
       ajax_data := body; c_id := uniqueId (guids σ); c_path := path;
       c_options := options;
       c_errorObject := {| stack := captured_stack (S (errors σ)) |};
       c_requestSpan :=
         {| request_data := body; op := "http";
            description := method_name (request_method options) +:+ " " +:+ path |} |}).
  { cbn. rewrite lookup_app_r by done. by rewrite Nat.sub_diag. }
  assert (Hid : activeRequests σ1 !! uniqueId (guids σ) = Some (length (heap σ)))
    by apply lookup_insert_eq.
  assert (Hh : heap σ1 !! length (heap σ) = Some {| alive := true; xhr := x |}).
  { cbn. rewrite lookup_app_r by done. by rewrite Nat.sub_diag. }
  assert (Hp : promises σ1 !! p = Some {| outcome := None; reaction := None |}).
  { cbn. rewrite lookup_app_r by done. by rewrite Nat.sub_diag. }
  split; [done|]. split; [by rewrite Hp|]. split; [|split].
  - intros resp ts et Hs Hm.
    destruct (error_delivery_live σ1 x _ _ _ resp ts et _ Hx Hid Hh eq_refl Hs Hm eq_refl)
      as (report & -> & _).
    cbn [call_fn hd]. rewrite (settle_pending _ _ _ _ Hp eq_refl). cbn.
    rewrite list_lookup_insert_eq; [done|].
    rewrite length_app. cbn. lia.
  - intros d ts xv Hm.
    rewrite (success_delivery_live σ1 x _ _ _ d ts xv _ Hx Hid Hh eq_refl Hm eq_refl).
    cbn [call_fn hd tl].
    destruct (truthy (includeAllArgs popts));
      rewrite (settle_pending _ _ _ _ Hp eq_refl); cbn;
      (rewrite list_lookup_insert_eq; [done|]); rewrite length_app; cbn; lia.
  - eexists _, _, _. split; [exact Hx|]. split; [reflexivity|]. split; [reflexivity|].
    intros σ' pr Hpr Ho. split.
    + intros resp rest. cbn [call_fn hd].
      rewrite (settle_pending _ _ _ _ Hpr Ho).
      destruct (reaction pr); cbn;
        (rewrite list_lookup_insert_eq; [done|]); by eapply lookup_lt_Some.
    + intros d rest. cbn [call_fn hd tl].
      destruct (truthy (includeAllArgs popts));
        rewrite (settle_pending _ _ _ _ Hpr Ho);
        destruct (reaction pr); cbn;
        (rewrite list_lookup_insert_eq; [done|]); by eapply lookup_lt_Some.
Qed.

(** C6 (a defect of the code): the error object with which a promise of
    [requestPromise] is rejected is made with [options.method], the option as
    the caller passed it, where [request] makes its own with the method that
    the call goes out with.  So without that option the call goes out as POST
    or GET, the error object that [request] reports for the failure says so,
    and the error object of the rejection, made from the same response, stack
    and path, has no method. *)
Theorem requestPromise_rejection_method path popts σ body q resp ts et :
  request_data_ (options_rest popts) = Ok body →
  request_query (options_rest popts) = Ok q →
  method (options_rest popts) = None →
  isSudoRequired resp = false →
  isProjectMoved resp = false →
  let p := length (promises σ) in
  let x := length (xhrs σ) in
  let m := if truthy (data (options_rest popts)) then POST else GET in
  let r := requestPromise path popts σ in
  let r' := step (XhrError x resp ts et) (state_of r) in
  EAjax x (fullUrl (baseUrl σ) path q) m body ∈ trace_of r ∧
  trace_of r' !! 1 =
    Some (ECaptureException
            (VRequestError resp (captured_stack (errors σ)) (VStr (method_name m)) path 2)
            {| extras := []; tags := [("http.statusCode", String_ (member resp "status"))];
               level := Some "warning" |}) ∧
  outcome <$> promises (state_of r') !! p =
    Some (Some (Rejected (VRequestError resp (captured_stack (errors σ)) VUndef path 2))).
Proof.
  intros Hd Hq Hmeth Hs Hmv p x m r r'. subst r' r.
  rewrite (requestPromise_ok _ _ _ _ _ Hd Hq). cbn [result_of state_of trace_of fst snd].
  set (options := promise_options _ _ _ _).
  assert (Hrm : request_method options = m).
  { unfold request_method, options. cbn. by rewrite Hmeth. }
  rewrite Hrm.
  set (σ1 := issued path options body q (promised σ)).
  set (c := {| url := fullUrl (baseUrl σ) path q; ajax_method := request_method options;
       ajax_data := body; c_id := uniqueId (guids σ); c_path := path;
       c_options := options;
       c_errorObject := {| stack := captured_stack (S (errors σ)) |};
       c_requestSpan :=
         {| request_data := body; op := "http";
            description := method_name (request_method options) +:+ " " +:+ path |} |}).
  assert (Hx : xhrs σ1 !! x = Some c).
  { cbn. rewrite lookup_app_r by done. by rewrite Nat.sub_diag. }
  assert (Hid : activeRequests σ1 !! c_id c = Some (length (heap σ)))
    by apply lookup_insert_eq.
  assert (Hh : heap σ1 !! length (heap σ) = Some {| alive := true; xhr := x |}).
  { cbn. rewrite lookup_app_r by done. by rewrite Nat.sub_diag. }
  assert (Hp : promises σ1 !! p = Some {| outcome := None; reaction := None |}).
  { cbn. rewrite lookup_app_r by done. by rewrite Nat.sub_diag. }
  split; [rewrite !elem_of_cons; auto|].
  assert (Hstep : step (XhrError x resp ts et) σ1 =
    (Ok tt, set_promises <[p := {| outcome := Some (Rejected
              (VRequestError resp (captured_stack (errors σ)) VUndef path 2));
              reaction := None |}]> σ1,
     [EMeasure "app.api.request-error" ("api-request-start-" +:+ c_id c)
        (js_and resp (member resp "status"));
      ECaptureException
        (VRequestError resp (captured_stack (errors σ)) (VStr (method_name m)) path 2)
        {| extras := []; tags := [("http.statusCode", String_ (member resp "status"))];
           level := Some "warning" |}])).
  { unfold step. rewrite bind_run. cbn [read]. rewrite Hx.
    unfold ajax_error. rewrite bind_run. cbn [emit]. rewrite bind_run.
    unfold withScope. cbn [emit]. unfold handleRequestError. rewrite Hs.
    rewrite (wrapCallback_live (c_id c) (PromiseError p {| stack := captured_stack (errors σ) |}
               (method (options_rest popts)) path) _ σ1 _ _ Hid Hh eq_refl) by done.
    cbn [call_fn hd]. rewrite (settle_pending _ _ _ _ Hp eq_refl).
    cbn. rewrite Hmeth, <-Hrm. reflexivity. }
  rewrite Hstep. cbn [trace_of state_of fst snd]. split; [done|].
  cbn. rewrite list_lookup_insert_eq; [done|]. rewrite length_app. cbn. lia.
Qed.

(** *** The re-authentication flow *)

Lemma retryRequest_ok path opts σ body q :
  request_data_ opts = Ok body →
  request_query opts = Ok q →
  retryRequest path opts σ =
    (Ok tt, retried path opts body q σ,
     [EStartSpan {| request_data := body; op := "http";
                    description := method_name (request_method opts) +:+ " " +:+ path |};
      EMark ("api-request-start-" +:+ uniqueId (guids σ));
      EAjax (length (xhrs σ)) (fullUrl (baseUrl σ) path q) (request_method opts) body]).
Proof.
  intros Hd Hq. unfold retryRequest. rewrite bind_run.
  rewrite (requestPromise_ok path {| includeAllArgs := VUndef; options_rest := opts |}
             σ body q Hd Hq).
  cbn zeta iota beta. unfold then_catch. rewrite bind_run. cbn [read].
  replace (promises (issued _ _ _ _ (promised σ)) !! length (promises σ))
    with (Some {| outcome := None; reaction := None |}).
  - reflexivity.
  - cbn. rewrite lookup_app_r by done. by rewrite Nat.sub_diag.
Qed.

Lemma retried_lookups path opts body q σ :
  let σr := retried path opts body q σ in
  let options :=
    promise_options path {| includeAllArgs := VUndef; options_rest := opts |}
      (length (promises σ)) {| stack := captured_stack (errors σ) |} in
  (∃ c, xhrs σr !! length (xhrs σ) = Some c ∧ c_id c = uniqueId (guids σ) ∧
        c_options c = options) ∧
  activeRequests σr !! uniqueId (guids σ) = Some (length (heap σ)) ∧
  heap σr !! length (heap σ) = Some {| alive := true; xhr := length (xhrs σ) |} ∧
  promises σr !! length (promises σ) = Some {| outcome := None; reaction := Some opts |} ∧
  jobs σr = jobs σ.
Proof.
  cbn. repeat split.
  - eexists. split.
    { rewrite lookup_app_r by done. by rewrite Nat.sub_diag. }
    split; reflexivity.
  - apply lookup_insert_eq.
  - rewrite lookup_app_r by done. by rewrite Nat.sub_diag.
  - apply list_lookup_insert_eq. rewrite length_app. cbn. lia.
Qed.

(** C2: an error response with the sudo-required or superuser-required code
    opens the re-authentication modal and calls nothing else.  Later, however
    the client has moved on: closing the modal calls the error callback with
    that response; confirming it issues through [requestPromise] a call with
    the url, method and body that [request] gives for the same path and
    options, and once that call succeeds or fails, the job of the promise
    calls the success callback with the payload, or the error callback with
    the error object of the retry. *)
Theorem sudo_required_reauthenticates id path opts response args σ body q s e :
  isSudoRequired response = true →
  request_data_ opts = Ok body →
  request_query opts = Ok q →
  success opts = Some (Caller s) →
  error opts = Some (Caller e) →
  let code := get response ["responseJSON"; "detail"; "code"] in
  let r := handleRequestError id path opts response args σ in
  let m := length (modals σ) in
  trace_of r =
    [EOpenSudo m (strict_eq_str code SUPERUSER_REQUIRED) (strict_eq_str code SUDO_REQUIRED)] ∧
  ∀ evs,
    let σ2 := fst (run evs (state_of r)) in
    let x := length (xhrs σ2) in
    step (SudoClose m) σ2 = (Ok tt, σ2, [ECall e [response]]) ∧
    trace_of (step (SudoRetry m) σ2) =
      [EStartSpan {| request_data := body; op := "http";
                     description := method_name (request_method opts) +:+ " " +:+ path |};
       EMark ("api-request-start-" +:+ uniqueId (guids σ2));
       EAjax x (fullUrl (baseUrl σ) path q) (request_method opts) body] ∧
    (∀ σ0, baseUrl σ0 = baseUrl σ →
       EAjax (length (xhrs σ0)) (fullUrl (baseUrl σ) path q) (request_method opts) body
         ∈ trace_of (request path opts σ0)) ∧
    (∀ d ts xv,
       jobs σ2 = [] → isProjectMoved d = false →
       calls (snd (run [SudoRetry m; XhrSuccess x d ts xv; Microtask] σ2)) = [ECall s [d]]) ∧
    (∀ resp ts et,
       jobs σ2 = [] → isSudoRequired resp = false → isProjectMoved resp = false →
       calls (snd (run [SudoRetry m; XhrError x resp ts et; Microtask] σ2)) =
       [ECall e [VRequestError resp (captured_stack (errors σ2))
                   (method_val (method opts)) path 2]]).
Proof.
  intros Hs Hd Hq Hsucc Herr code r m. subst r.
  rewrite (handleRequestError_sudo _ _ _ _ _ _ Hs). cbn [trace_of state_of fst snd].
  split; [done|]. intros evs.
  set (md := {| superuser := _; sudo := _; m_path := path; m_requestOptions := opts;
                m_response := response |}).
  set (σ2 := fst (run evs _)). set (x := length (xhrs σ2)).
  assert (Hm : modals σ2 !! m = Some md).
  { subst σ2. apply modals_run. cbn. rewrite lookup_app_r by done.
    by rewrite Nat.sub_diag. }
  assert (Hb : baseUrl σ2 = baseUrl σ) by (subst σ2; by rewrite baseUrl_run).
  assert (Hretry : step (SudoRetry m) σ2 =
    (Ok tt, retried path opts body q σ2,
     [EStartSpan {| request_data := body; op := "http";
                    description := method_name (request_method opts) +:+ " " +:+ path |};
      EMark ("api-request-start-" +:+ uniqueId (guids σ2));
      EAjax x (fullUrl (baseUrl σ) path q) (request_method opts) body])).
  { unfold step. rewrite bind_run. cbn [read]. rewrite Hm. cbn [m_path m_requestOptions md].
    rewrite (retryRequest_ok _ _ _ _ _ Hd Hq), Hb. done. }
  destruct (retried_lookups path opts body q σ2)
    as ((c & Hx & Hcid & Hco) & Hid & Hh & Hp & Hj). rewrite <-Hcid in Hid.
  split; [|split; [|split; [|split]]].
  - unfold step. rewrite bind_run. cbn [read]. rewrite Hm.
    unfold onClose. cbn [m_requestOptions m_response md]. by rewrite Herr.
  - by rewrite Hretry.
  - intros σ0 Hb0. rewrite (request_ok _ _ _ _ _ Hd Hq), Hb0. cbn.
    rewrite !elem_of_cons. auto.
  - intros d ts xv Hjobs Hmoved.
    rewrite trace_of_run_cons, Hretry. cbn [trace_of state_of fst snd].
    rewrite trace_of_run_cons.
    rewrite (success_delivery_live _ x c _ _ d ts xv (PromiseSuccess (length (promises σ2)) false)
               Hx Hid Hh eq_refl Hmoved) by (by rewrite Hco).
    cbn [call_fn hd]. rewrite (settle_pending _ _ _ _ Hp eq_refl).
    cbn [reaction trace_of state_of fst snd].
    rewrite trace_of_run_cons. unfold step at 1. rewrite bind_run. cbn [read].
    cbn [jobs set_jobs set_promises]. rewrite Hj, Hjobs. cbn [app].
    rewrite bind_run. cbn [modify run_job]. rewrite Hsucc. cbn. done.
  - intros resp ts et Hjobs Hsudo Hmoved.
    rewrite trace_of_run_cons, Hretry. cbn [trace_of state_of fst snd].
    rewrite trace_of_run_cons.
    destruct (error_delivery_live _ x c _ _ resp ts et
                (PromiseError (length (promises σ2)) {| stack := captured_stack (errors σ2) |}
                   (method opts) path)
                Hx Hid Hh eq_refl Hsudo Hmoved) as (report & -> & Hrep);
      [by rewrite Hco|].
    cbn [call_fn hd]. rewrite (settle_pending _ _ _ _ Hp eq_refl).
    cbn [reaction trace_of state_of fst snd].
    rewrite trace_of_run_cons. unfold step at 1. rewrite bind_run. cbn [read].
    cbn [jobs set_jobs set_promises]. rewrite Hj, Hjobs. cbn [app].
    rewrite bind_run. cbn [modify run_job]. rewrite Herr.
    cbn. rewrite Hrep. done.
Qed.

(** *** More on [paramsToQueryArgs] *)

Lemma filters_project params :
  filters params !! "project" =
  if truthy (prop params "project") && truthy (member (prop params "project") "length")
  then Some (prop params "project") else None.
Proof. unfold filters. split_ifs; cbn; by simplify_map_eq. Qed.

Lemma filters_environment params :
  filters params !! "environment" =
  if truthy (prop params "query") && negb (isNil (prop params "environment"))
  then Some (prop params "environment") else None.
Proof. unfold filters. split_ifs; cbn; by simplify_map_eq. Qed.

Lemma environment_key_lookup params :
  paramsToQueryArgs params !! "environment" =
  if truthy (prop params "query") && negb (isNil (prop params "environment"))
  then Some (prop params "environment") else None.
Proof.
  rewrite paramsToQueryArgs_filters.
  destruct (truthy (prop params "query")) eqn:Hq;
    [rewrite copy_dates_lookup; cbn|]; by rewrite filters_environment, Hq.
Qed.

Lemma project_key_lookup params :
  paramsToQueryArgs params !! "project" =
  if truthy (prop params "project") && truthy (member (prop params "project") "length")
  then Some (prop params "project") else None.
Proof.
  rewrite paramsToQueryArgs_filters.
  destruct (truthy (prop params "query")); [rewrite copy_dates_lookup; cbn|];
    apply filters_project.
Qed.

(** X1: the result never holds both an [id] and a [query] filter, and
    [itemIds] wins: when it is given (truthy), [id] is that value and the
    query text is dropped; only without it does a given [query] pass, and
    then there is no [id]. *)
Theorem id_and_query_exclusive params :
  let r := paramsToQueryArgs params in
  (r !! "id" = None ∨ r !! "query" = None) ∧
  r !! "id" =
    (if truthy (prop params "itemIds") then Some (prop params "itemIds") else None) ∧
  r !! "query" =
    (if truthy (prop params "itemIds") then None
     else if truthy (prop params "query") then Some (prop params "query") else None).
Proof.
  cbn. rewrite id_key_lookup, query_key_lookup.
  destruct (truthy (prop params "itemIds")); auto.
Qed.

(** X2: an empty [itemIds] array still selects the id filter, arrays being
    truthy: the result has [id: []] and no [query], whatever the query. *)
Theorem empty_itemIds_selects_id params :
  params !! "itemIds" = Some (VArr []) →
  let r := paramsToQueryArgs params in
  r !! "id" = Some (VArr []) ∧ r !! "query" = None.
Proof.
  intros H. cbn. rewrite id_key_lookup, query_key_lookup. unfold prop. by rewrite H.
Qed.

(** X3: a [project] array is copied as it is when it has an element and left
    out when it is empty, whichever filter is chosen. *)
Theorem project_included_iff_nonempty params l :
  params !! "project" = Some (VArr l) →
  paramsToQueryArgs params !! "project" =
  match l with [] => None | _ :: _ => Some (VArr l) end.
Proof.
  intros H. rewrite project_key_lookup. unfold prop. rewrite H. cbn.
  by destruct l.
Qed.

(** X4: a [project] that is absent, undefined or null is left out. *)
Theorem project_omitted_when_nil params :
  isNil (prop params "project") = true →
  paramsToQueryArgs params !! "project" = None.
Proof.
  intros H. rewrite project_key_lookup. by destruct (prop params "project").
Qed.

(** X5: [environment] is copied exactly when the bag has a non-empty [query]
    and an [environment] that is neither null nor undefined (the empty string
    included); with [itemIds] alone it is dropped. *)
Theorem environment_needs_query params :
  paramsToQueryArgs params !! "environment" =
  if truthy (prop params "query") && negb (isNil (prop params "environment"))
  then Some (prop params "environment") else None.
Proof. apply environment_key_lookup. Qed.

(** X6: the result only has keys among [id], [query], [environment],
    [project], [start], [end], [statsPeriod] and [utc] (other properties of the
    bag, and [period] under its own name, never pass), and none of its values
    is null or undefined. *)
Theorem result_keys_and_values params k v :
  paramsToQueryArgs params !! k = Some v →
  k ∈ query_keys ∧ isNil v = false.
Proof.
  unfold query_keys. rewrite !elem_of_cons.
  destruct (decide (k = "id")) as [->|Hid].
  { rewrite id_key_lookup. destruct (truthy (prop params "itemIds")) eqn:Ht; [|done].
    intros [= <-]. split; [auto|]. by destruct (prop params "itemIds"). }
  destruct (decide (k = "query")) as [->|Hq].
  { rewrite query_key_lookup.
    destruct (truthy (prop params "itemIds")); [done|].
    destruct (truthy (prop params "query")) eqn:Ht; [|done].
    intros [= <-]. split; [auto|]. by destruct (prop params "query"). }
  destruct (decide (k = "environment")) as [->|He].
  { rewrite environment_key_lookup.
    destruct (truthy (prop params "query")); [|done]. cbn.
    destruct (isNil (prop params "environment")) eqn:Hn; [done|].
    intros [= <-]. auto 10. }
  destruct (decide (k = "project")) as [->|Hp].
  { rewrite project_key_lookup.
    destruct (truthy (prop params "project")) eqn:Ht; [|done]. cbn.
    destruct (truthy (member _ _)); [|done].
    intros [= <-]. split; [auto 10|]. by destruct (prop params "project"). }
  rewrite paramsToQueryArgs_filters.
  destruct (truthy (prop params "query")); [|by rewrite filters_lookup].
  rewrite copy_dates_lookup, filters_lookup by done.
  destruct (String.eqb_spec k "start") as [->|];
    [destruct (isNil (prop params "start")) eqn:Hn; [done|]; intros [= <-]; auto 10|].
  destruct (String.eqb_spec k "end") as [->|];
    [destruct (isNil (prop params "end")) eqn:Hn; [done|]; intros [= <-]; auto 10|].
  destruct (String.eqb_spec k "statsPeriod") as [->|];
    [destruct (isNil (prop params "period")) eqn:Hn; [done|]; intros [= <-]; auto 12|].
  destruct (String.eqb_spec k "utc") as [->|];
    [destruct (isNil (prop params "utc")) eqn:Hn; [done|]; intros [= <-]; auto 12|].
  done.
Qed.

(** X7: without [itemIds] and without a non-empty [query] the result selects
    all items: it is empty, but for a non-empty [project]. *)
Theorem no_filter_selects_all params :
  truthy (prop params "itemIds") = false →
  truthy (prop params "query") = false →
  paramsToQueryArgs params =
  if truthy (prop params "project") && truthy (member (prop params "project") "length")
  then {["project" := prop params "project"]} else ∅.
Proof.
  intros Hi Hq. unfold paramsToQueryArgs. rewrite Hi, Hq. cbn.
  destruct (_ && _); [apply insert_empty|done].
Qed.

(** *** More on [Request.cancel] and [clear] *)

Lemma aborted_not_sudo : isSudoRequired aborted_xhr = false.
Proof. reflexivity. Qed.

(** [abort()] on a call whose id is not registered, or is registered to a
    handle that is cancelled: the callbacks run and call nothing. *)
Lemma abort_silent σ x c :
  xhrs σ !! x = Some c →
  (∀ h, activeRequests σ !! c_id c = Some h → heap σ !! h = None ∨ dead h σ) →
  abort x σ =
    (Ok tt,
     if underway c σ then set_activeRequests (delete (c_id c)) σ else σ,
     EAbort x :: if underway c σ then abort_report c else []).
Proof.
  intros Hx Hd. unfold abort. rewrite bind_run. cbn [emit].
  rewrite bind_run. cbn [read]. rewrite Hx.
  assert (Hsil : ∀ func cleanup args,
            wrapCallback (c_id c) func cleanup args σ =
            (Ok tt, if cleanup then set_activeRequests (delete (c_id c)) σ else σ, [])).
  { intros func cleanup args. apply wrapCallback_silent.
    destruct (activeRequests σ !! c_id c) as [h|] eqn:Hid; [right|by left].
    exists h. split; [done|]. by apply Hd. }
  destruct (underway c σ); [|done].
  rewrite bind_run. unfold ajax_error. rewrite bind_run. cbn [emit].
  rewrite bind_run. unfold withScope. cbn [emit].
  unfold handleRequestError. rewrite aborted_not_sudo, Hsil.
  unfold ajax_complete. rewrite bind_run. cbn [emit]. rewrite Hsil. reflexivity.
Qed.

(** [cancel()] on the handle of a call underway. *)
Lemma cancel_underway h σ r c :
  heap σ !! h = Some r →
  xhrs σ !! xhr r = Some c →
  activeRequests σ !! c_id c = Some h →
  cancel h σ =
    (Ok tt,
     set_activeRequests (delete (c_id c))
       (set_heap <[h := {| alive := false; xhr := xhr r |}]> σ),
     EAbort (xhr r) :: abort_report c ++ [EMetric "app.api.request-abort" 1]).
Proof.
  intros Hr Hx Hid. assert (Hlt : h < length (heap σ)) by by eapply lookup_lt_Some.
  unfold cancel. rewrite bind_run. cbn [read]. rewrite Hr.
  rewrite bind_run. cbn [modify]. rewrite bind_run.
  set (σm := set_heap <[h := {| alive := false; xhr := xhr r |}]> σ).
  rewrite (abort_silent σm (xhr r) c Hx).
  - unfold underway. cbn [activeRequests σm set_heap]. rewrite Hid. reflexivity.
  - intros h' Hh'. cbn in Hh'. rewrite Hid in Hh'. simplify_eq. right.
    exists {| alive := false; xhr := xhr r |}. split; [|done].
    by apply list_lookup_insert_eq.
Qed.

(** [cancel()] on the handle of a call that has completed. *)
Lemma cancel_completed h σ r c :
  heap σ !! h = Some r →
  xhrs σ !! xhr r = Some c →
  activeRequests σ !! c_id c = None →
  cancel h σ =
    (Ok tt, set_heap <[h := {| alive := false; xhr := xhr r |}]> σ,
     [EAbort (xhr r); EMetric "app.api.request-abort" 1]).
Proof.
  intros Hr Hx Hid.
  unfold cancel. rewrite bind_run. cbn [read]. rewrite Hr.
  rewrite bind_run. cbn [modify]. rewrite bind_run.
  set (σm := set_heap <[h := {| alive := false; xhr := xhr r |}]> σ).
  rewrite (abort_silent σm (xhr r) c Hx).
  - unfold underway. cbn [activeRequests σm set_heap]. rewrite Hid. reflexivity.
  - intros h' Hh'. cbn in Hh'. by rewrite Hid in Hh'.
Qed.


(** In a well-formed state the handle, the call and the id of a registered
    request go together. *)
Lemma wf_registered σ id h :
  wf σ → activeRequests σ !! id = Some h →
  ∃ r c, heap σ !! h = Some r ∧ xhr r = h ∧ xhrs σ !! h = Some c ∧ c_id c = id.
Proof.
  intros (_ & Hl & Hx & Hh & Hr) Hid. destruct (Hr _ _ Hid) as [-> Hlt].
  destruct (lookup_lt_is_Some_2 _ _ Hlt) as [r Hhr].
  rewrite Hl in Hlt. destruct (lookup_lt_is_Some_2 _ _ Hlt) as [c Hc].
  exists r, c. split; [done|]. split; [by apply (Hh _ _ Hhr)|]. split; [done|].
  by apply Hx.
Qed.

Lemma cancel_registered σ id h :
  wf σ → activeRequests σ !! id = Some h →
  ∃ c, xhrs σ !! h = Some c ∧ c_id c = id ∧
       cancel h σ =
         (Ok tt,
          set_activeRequests (delete id)
            (set_heap <[h := {| alive := false; xhr := h |}]> σ),
          EAbort h :: abort_report c ++ [EMetric "app.api.request-abort" 1]).
Proof.
  intros Hwf Hid. destruct (wf_registered _ _ _ Hwf Hid) as (r & c & Hh & Hxr & Hx & Hc).
  exists c. split; [done|]. split; [done|]. subst id.
  rewrite (cancel_underway h σ r c Hh); [by rewrite Hxr|by rewrite Hxr|done].
Qed.

(** The loop of [clear], over any list of registered ids. *)
Lemma for_each_cancel_all (l : list string) σ :
  wf σ → NoDup l →
  (∀ id, id ∈ l → is_Some (activeRequests σ !! id)) →
  let r := for_each l (fun id =>
             σ' ← read;
             match activeRequests σ' !! id with
             | Some h => cancel h
             | None => ret tt
             end) σ in
  result_of r = Ok tt ∧
  (∀ id, activeRequests (state_of r) !! id =
         if decide (id ∈ l) then None else activeRequests σ !! id) ∧
  length (List.filter is_abort (trace_of r)) = length l ∧
  calls (trace_of r) = [] ∧
  calm σ (state_of r) ∧
  same_callbacks σ (state_of r) ∧
  (∀ id h, id ∈ l → activeRequests σ !! id = Some h → dead h (state_of r)).
Proof.
  revert σ. induction l as [|id l IH]; intros σ Hwf Hnd Hl.
  { cbn. repeat split; try done; [apply killed_refl|].
    intros ? ? Hin. by apply elem_of_nil in Hin. }
  apply NoDup_cons in Hnd as [Hnin Hnd].
  destruct (Hl id) as [h Hid]; [by apply elem_of_cons; left|].
  destruct (cancel_registered _ _ _ Hwf Hid) as (c & Hx & Hc & Hcancel).
  cbn [for_each]. cbn zeta. rewrite bind_run.
  set (body := (read ≫= _) : M unit).
  set (σ1 := set_activeRequests (delete id)
               (set_heap <[h := {| alive := false; xhr := h |}]> σ)) in *.
  assert (Hbody : body σ =
            (Ok tt, σ1, EAbort h :: abort_report c ++ [EMetric "app.api.request-abort" 1])).
  { subst body. rewrite bind_run. cbn [read]. by rewrite Hid, Hcancel. }
  rewrite Hbody. clear Hbody body.
  assert (Hc1 : calm σ σ1).
  { pose proof (Calm_cancel h σ) as H. by rewrite Hcancel in H. }
  assert (Hd : dead h σ1).
  { exists {| alive := false; xhr := h |}. split; [|done]. cbn.
    apply list_lookup_insert_eq. destruct Hwf as (_ & _ & _ & _ & Hr).
    by destruct (Hr _ _ Hid). }
  destruct (IH σ1) as (Hres & Hreg & Hlen & Hcalls & Hc2 & Hsame & Hdead).
  { by eapply wf_calm. }
  { done. }
  { intros id' Hin. cbn. rewrite lookup_delete_ne by (by intros ->).
    apply Hl, elem_of_cons. by right. }
  cbn zeta in Hres, Hreg, Hlen, Hcalls, Hc2, Hsame, Hdead.
  destruct (for_each l _ σ1) as [[res σ2] t2].
  cbn [result_of state_of trace_of fst snd] in Hres, Hreg, Hlen, Hcalls, Hc2, Hsame, Hdead |- *.
  subst res. split; [done|]. split; [|split; [|split; [|split; [|split]]]].
  - intros id'. rewrite Hreg. cbn.
    destruct (decide (id' ∈ l)) as [Hin|Hin], (decide (id' ∈ id :: l)) as [Hin'|Hin'];
      try done.
    + destruct Hin'. apply elem_of_cons. by right.
    + apply elem_of_cons in Hin' as [->|?]; [apply lookup_delete_eq|done].
    + apply lookup_delete_ne. intros <-. apply Hin', elem_of_cons. by left.
  - cbn. by rewrite Hlen.
  - cbn. exact Hcalls.
  - by eapply calm_trans.
  - destruct Hsame as (? & ? & ? & ?). by repeat split.
  - intros id' h' Hin Hid'. apply elem_of_cons in Hin as [->|Hin].
    + simplify_eq. by eapply dead_calm.
    + eapply Hdead; [exact Hin|]. cbn. rewrite lookup_delete_ne; [done|].
      intros <-. done.
Qed.

(** [clear] leaves alone a handle that the registry does not hold. *)
Lemma for_each_cancel (l : list string) σ x :
  wf σ → NoDup l →
  (∀ id, id ∈ l → is_Some (activeRequests σ !! id)) →
  (∀ id, id ∈ l → activeRequests σ !! id ≠ Some x) →
  let r := for_each l (fun id =>
             σ' ← read;
             match activeRequests σ' !! id with
             | Some h => cancel h
             | None => ret tt
             end) σ in
  List.filter (is_abort_of x) (trace_of r) = [] ∧
  heap (state_of r) !! x = heap σ !! x.
Proof.
  revert σ. induction l as [|id l IH]; intros σ Hwf Hnd Hl Hx; [done|].
  apply NoDup_cons in Hnd as [Hnin Hnd].
  destruct (Hl id) as [h Hid]; [by apply elem_of_cons; left|].
  assert (Hne : h ≠ x).
  { intros ->. eapply Hx; [|exact Hid]. apply elem_of_cons. by left. }
  destruct (cancel_registered _ _ _ Hwf Hid) as (c & Hxc & Hc & Hcancel).
  cbn [for_each]. cbn zeta. rewrite bind_run.
  set (body := (read ≫= _) : M unit).
  set (σ1 := set_activeRequests (delete id)
               (set_heap <[h := {| alive := false; xhr := h |}]> σ)) in *.
  assert (Hbody : body σ =
            (Ok tt, σ1, EAbort h :: abort_report c ++ [EMetric "app.api.request-abort" 1])).
  { subst body. rewrite bind_run. cbn [read]. by rewrite Hid, Hcancel. }
  rewrite Hbody. clear Hbody body.
  assert (Hc1 : calm σ σ1).
  { pose proof (Calm_cancel h σ) as H. by rewrite Hcancel in H. }
  destruct (IH σ1) as (Ht & Hh).
  { by eapply wf_calm. }
  { done. }
  { intros id' Hin. cbn. rewrite lookup_delete_ne by (by intros ->).
    apply Hl, elem_of_cons. by right. }
  { intros id' Hin. cbn. rewrite lookup_delete_ne by (by intros ->).
    apply Hx, elem_of_cons. by right. }
  cbn zeta in Ht, Hh.
  destruct (for_each l _ σ1) as [[res σ2] t2].
  cbn [result_of state_of trace_of fst snd] in Ht, Hh |- *.
  split.
  - cbn. destruct (Nat.eqb_spec x h) as [->|_]; [done|]. exact Ht.
  - rewrite Hh. cbn. by apply list_lookup_insert_ne.
Qed.

Lemma clear_run σ :
  wf σ →
  let r := clear σ in
  result_of r = Ok tt ∧
  activeRequests (state_of r) = ∅ ∧
  length (List.filter is_abort (trace_of r)) = size (activeRequests σ) ∧
  calls (trace_of r) = [] ∧
  same_callbacks σ (state_of r) ∧
  (∀ id h, activeRequests σ !! id = Some h → dead h (state_of r)).
Proof.
  intros Hwf. cbn zeta. unfold clear. rewrite bind_run. cbn [read].
  destruct (for_each_cancel_all (map_to_list (activeRequests σ)).*1 σ Hwf)
    as (Hres & Hreg & Hlen & Hcalls & _ & Hsame & Hdead).
  { apply NoDup_fst_map_to_list. }
  { intros id Hin. apply list_elem_of_fmap in Hin as ([id' h] & -> & Hin).
    apply elem_of_map_to_list in Hin. by exists h. }
  cbn zeta in *.
  destruct (for_each _ _ σ) as [[res σ2] t2] eqn:Hrun.
  cbn [result_of state_of trace_of fst snd] in Hres, Hreg, Hlen, Hcalls, Hsame, Hdead |- *.
  subst res. rewrite app_nil_l.
  split; [done|]. split; [|split; [|split; [done|split; [done|]]]].
  - apply map_empty. intros id. rewrite Hreg.
    destruct (decide (id ∈ _)) as [|Hnin]; [done|].
    destruct (activeRequests σ !! id) as [h|] eqn:Hid; [|done].
    destruct Hnin. apply list_elem_of_fmap. exists (id, h). split; [done|].
    by apply elem_of_map_to_list.
  - by rewrite Hlen, length_fmap, length_map_to_list.
  - intros id h Hid. eapply Hdead; [|exact Hid].
    apply list_elem_of_fmap. exists (id, h). split; [done|].
    by apply elem_of_map_to_list.
Qed.


(** *** More on the client as a whole *)

(** X10: the constructor throws on [null] and on nothing else.  Otherwise
    the base url is chosen once, by the constructor, and no run changes it:
    it is the [baseUrl] option when that is a non-empty string, and
    ["/api/0"] when the option is falsy or absent (also when no options are
    given); for options whose [baseUrl] is a string or falsy it is never
    empty. *)
Theorem baseUrl_is_fixed options :
  (options = VNull → ∃ e, Client options = Throw e) ∧
  (options ≠ VNull →
   ∃ σ0, Client options = Ok σ0 ∧
     (∀ evs, baseUrl (fst (run evs σ0)) = baseUrl σ0) ∧
     (∀ s, member options "baseUrl" = VStr s → s ≠ EmptyString → baseUrl σ0 = s) ∧
     (truthy (member options "baseUrl") = false → baseUrl σ0 = "/api/0") ∧
     ((∃ s, member options "baseUrl" = VStr s) ∨ truthy (member options "baseUrl") = false →
      baseUrl σ0 ≠ EmptyString)).
Proof.
  split; [intros ->; by eexists|]. intros Hnull.
  assert (Hm : member (if isUndefined options then VObj [] else options) "baseUrl" =
               member options "baseUrl") by (by destruct options).
  assert (HC : Client options =
               Ok (new_client (if truthy (member options "baseUrl")
                               then match member options "baseUrl" with
                                    | VStr s => s
                                    | _ => String_ (member options "baseUrl")
                                    end
                               else "/api/0"))).
  { unfold Client. cbn zeta. rewrite Hm. by destruct options. }
  eexists. split; [exact HC|]. split; [intros evs; apply baseUrl_run|]. cbn.
  split; [|split].
  - intros s -> Hs. by destruct s.
  - by intros ->.
  - intros [[s Hs]|Hf]; [rewrite Hs; by destruct s|by rewrite Hf].
Qed.

(** X11: in every state that a new client can reach, whatever its base url,
    an id of the registry maps to an allocated [Request] object, whose [xhr]
    is a call that was issued under that very id. *)
Theorem registry_is_sound b evs id h :
  let σ := fst (run evs (new_client b)) in
  activeRequests σ !! id = Some h →
  ∃ r c, heap σ !! h = Some r ∧ xhrs σ !! xhr r = Some c ∧ c_id c = id.
Proof.
  cbn zeta. intros Hid.
  destruct (wf_run evs (new_client b) (wf_new_client b)) as (_ & Hl & Hx & Hh & Hr).
  destruct (Hr _ _ Hid) as [-> Hlt].
  destruct (lookup_lt_is_Some_2 _ _ Hlt) as [r Hhr].
  rewrite Hl in Hlt. destruct (lookup_lt_is_Some_2 _ _ Hlt) as [c Hc].
  exists r, c. rewrite (Hh _ _ Hhr). split; [done|]. split; [done|]. by apply Hx.
Qed.

(** *** More on the deliveries of the transport *)

Lemma wrapCallback_moved id func cleanup args σ h r :
  activeRequests σ !! id = Some h →
  heap σ !! h = Some r →
  alive r = true →
  isProjectMoved (hd VUndef args) = true →
  wrapCallback id func cleanup args σ =
    (Ok tt, if cleanup then set_activeRequests (delete id) σ else σ,
     [ERedirectToProject (get (hd VUndef args) ["responseJSON"; "detail"; "extra"; "slug"])]).
Proof.
  intros Hid Hh Ha Hm. unfold wrapCallback. unfold_m. cbn.
  rewrite Hid. cbn. rewrite Hh, Ha. unfold hasProjectBeenRenamed. rewrite Hm.
  by destruct cleanup.
Qed.

(** X13: when the payload of a successful response says that the project
    has moved, a live request redirects to the new slug and its success
    callback is not called. *)
Theorem moved_success_redirects σ x c h r d ts xv f :
  xhrs σ !! x = Some c →
  activeRequests σ !! c_id c = Some h →
  heap σ !! h = Some r →
  alive r = true →
  success (c_options c) = Some f →
  isProjectMoved d = true →
  step (XhrSuccess x d ts xv) σ =
    (Ok tt, σ,
     [EMeasure "app.api.request-success" ("api-request-start-" +:+ c_id c)
        (js_and xv (member xv "status"));
      ERedirectToProject (get d ["responseJSON"; "detail"; "extra"; "slug"])]).
Proof.
  intros Hx Hid Hh Ha Hf Hm. unfold step. rewrite bind_run. cbn [read].
  rewrite Hx. unfold ajax_success. rewrite bind_run. cbn [emit]. rewrite Hf.
  by rewrite (wrapCallback_moved _ _ false [d; ts; xv] _ _ _ Hid Hh Ha Hm).
Qed.

(** X14: a request issued without a success callback does nothing on
    success but measure: the moved-project check is part of the wrapper, and
    no wrapper is made. *)
Theorem success_without_callback σ x c d ts xv :
  xhrs σ !! x = Some c →
  success (c_options c) = None →
  step (XhrSuccess x d ts xv) σ =
    (Ok tt, σ,
     [EMeasure "app.api.request-success" ("api-request-start-" +:+ c_id c)
        (js_and xv (member xv "status"))]).
Proof.
  intros Hx Hf. unfold step. rewrite bind_run. cbn [read].
  rewrite Hx. unfold ajax_success. rewrite bind_run. cbn [emit]. by rewrite Hf.
Qed.

(** X15: an error response saying that the project has moved (and asking
    for no privilege) redirects once in the error wrapper and once more in
    the completion wrapper, with or without callbacks in the options; no
    callback is called, and the completion takes the id out of the
    registry. *)
Theorem moved_error_redirects_twice σ x c h r resp ts et ts' :
  xhrs σ !! x = Some c →
  activeRequests σ !! c_id c = Some h →
  heap σ !! h = Some r →
  alive r = true →
  isSudoRequired resp = false →
  isProjectMoved resp = true →
  let slug := get resp ["responseJSON"; "detail"; "extra"; "slug"] in
  let res := run [XhrError x resp ts et; XhrComplete x resp ts'] σ in
  List.filter is_redirect (snd res) = [ERedirectToProject slug; ERedirectToProject slug] ∧
  calls (snd res) = [] ∧
  fst res = set_activeRequests (delete (c_id c)) σ.
Proof.
  intros Hx Hid Hh Ha Hs Hm slug res. subst res slug.
  assert (He : step (XhrError x resp ts et) σ =
    (Ok tt, σ,
     [EMeasure "app.api.request-error" ("api-request-start-" +:+ c_id c)
        (js_and resp (member resp "status"));
      ECaptureException
        (removeFrames 2
           (createRequestError resp
              (stack (default (c_errorObject c) (preservedError (c_options c))))
              (VStr (method_name (ajax_method c))) (c_path c)))
        {| extras := []; tags := [("http.statusCode", String_ (member resp "status"))];
           level := Some "warning" |};
      ERedirectToProject (get resp ["responseJSON"; "detail"; "extra"; "slug"])])).
  { unfold step. rewrite bind_run. cbn [read]. rewrite Hx.
    unfold ajax_error. rewrite bind_run. cbn [emit].
    unfold withScope. rewrite bind_run. cbn [emit].
    unfold handleRequestError. rewrite Hs.
    by rewrite (wrapCallback_moved _ _ false (resp :: [ts; et]) _ _ _ Hid Hh Ha Hm). }
  assert (Hc : step (XhrComplete x resp ts') σ =
    (Ok tt, set_activeRequests (delete (c_id c)) σ,
     [EFinishSpan (c_requestSpan c);
      ERedirectToProject (get resp ["responseJSON"; "detail"; "extra"; "slug"])])).
  { unfold step. rewrite bind_run. cbn [read]. rewrite Hx.
    unfold ajax_complete. rewrite bind_run. cbn [emit].
    by rewrite (wrapCallback_moved _ _ true [resp; ts'] _ _ _ Hid Hh Ha Hm). }
  rewrite trace_of_run_cons, run_cons, He. cbn [trace_of state_of fst snd].
  rewrite trace_of_run_cons, run_cons, Hc. cbn. done.
Qed.

(** X16: every error response of an issued call is reported, whatever has
    happened to the request since (cancelled, completed, no error callback):
    the report is a warning tagged with the status, and its error object
    carries the response, the effective method, the path, and the stack of
    [options.preservedError] if there is one, else the stack captured when
    the request was issued. *)
Theorem every_error_is_reported path options σ0 h σ1 t evs resp ts et :
  request path options σ0 = (Ok h, σ1, t) →
  let x := length (xhrs σ0) in
  let σ := fst (run evs σ1) in
  ∃ rest,
    trace_of (step (XhrError x resp ts et) σ) =
    EMeasure "app.api.request-error" ("api-request-start-" +:+ uniqueId (guids σ0))
      (js_and resp (member resp "status"))
    :: ECaptureException
         (VRequestError resp
            (match preservedError options with
             | Some e => stack e
             | None => captured_stack (errors σ0)
             end)
            (VStr (method_name (request_method options))) path 2)
         {| extras := []; tags := [("http.statusCode", String_ (member resp "status"))];
            level := Some "warning" |}
    :: rest.
Proof.
  intros Hreq x σ.
  destruct (request_data_ options) as [body|e] eqn:Hd;
    [|by rewrite (request_throw_data _ _ _ _ Hd) in Hreq].
  destruct (request_query options) as [q|e] eqn:Hq;
    [|by rewrite (request_throw_query _ _ _ _ _ Hd Hq) in Hreq].
  rewrite (request_ok _ _ _ _ _ Hd Hq) in Hreq. simplify_eq.
  set (σ1 := issued path options body q σ0) in *.
  assert (Hx : xhrs σ !! x = Some
    {| url := fullUrl (baseUrl σ0) path q; ajax_method := request_method options;
       ajax_data := body; c_id := uniqueId (guids σ0); c_path := path;
       c_options := options;
       c_errorObject := {| stack := captured_stack (errors σ0) |};
       c_requestSpan :=
         {| request_data := body; op := "http";
            description := method_name (request_method options) +:+ " " +:+ path |} |}).
  { subst σ. apply xhrs_run. cbn. rewrite lookup_app_r by done. by rewrite Nat.sub_diag. }
  unfold step. rewrite bind_run. cbn [read]. rewrite Hx.
  unfold ajax_error. rewrite bind_run. cbn [emit].
  unfold withScope. rewrite bind_run. cbn [emit].
  destruct (handleRequestError _ _ _ _ _ _) as [[res σ'] rest].
  exists rest. cbn. by destruct (preservedError options).
Qed.

(** X17: the completion of an issued call always finishes the span that the
    request started, and its success is measured from the mark set when it
    was issued, whatever has happened to the request since. *)
Theorem completion_finishes_the_span path options σ0 h σ1 t evs :
  request path options σ0 = (Ok h, σ1, t) →
  let x := length (xhrs σ0) in
  let σ := fst (run evs σ1) in
  ∃ span mark,
    t !! 0 = Some (EStartSpan span) ∧
    t !! 1 = Some (EMark mark) ∧
    (∀ j ts, trace_of (step (XhrComplete x j ts) σ) !! 0 = Some (EFinishSpan span)) ∧
    (∀ d ts xv,
       trace_of (step (XhrSuccess x d ts xv) σ) !! 0 =
       Some (EMeasure "app.api.request-success" mark (js_and xv (member xv "status")))).
Proof.
  intros Hreq x σ.
  destruct (request_data_ options) as [body|e] eqn:Hd;
    [|by rewrite (request_throw_data _ _ _ _ Hd) in Hreq].
  destruct (request_query options) as [q|e] eqn:Hq;
    [|by rewrite (request_throw_query _ _ _ _ _ Hd Hq) in Hreq].
  rewrite (request_ok _ _ _ _ _ Hd Hq) in Hreq. simplify_eq.
  set (σ1 := issued path options body q σ0) in *.
  assert (Hx : xhrs σ !! x = Some
    {| url := fullUrl (baseUrl σ0) path q; ajax_method := request_method options;
       ajax_data := body; c_id := uniqueId (guids σ0); c_path := path;
       c_options := options;
       c_errorObject := {| stack := captured_stack (errors σ0) |};
       c_requestSpan :=
         {| request_data := body; op := "http";
            description := method_name (request_method options) +:+ " " +:+ path |} |}).
  { subst σ. apply xhrs_run. cbn. rewrite lookup_app_r by done. by rewrite Nat.sub_diag. }
  eexists _, _. split; [reflexivity|]. split; [reflexivity|]. split.
  - intros j ts. unfold step. rewrite bind_run. cbn [read]. rewrite Hx.
    unfold ajax_complete. rewrite bind_run. cbn [emit].
    by destruct (wrapCallback _ _ _ _ _) as [[? ?] ?].
  - intros d ts xv. unfold step. rewrite bind_run. cbn [read]. rewrite Hx.
    unfold ajax_success. rewrite bind_run. cbn [emit].
    cbn [c_options]. destruct (success options); [|reflexivity].
    by destruct (wrapCallback _ _ _ _ _) as [[? ?] ?].
Qed.

(** *** More on [request] and [requestPromise] *)

(** X18: when [JSON.stringify] of the payload throws, [request] throws the
    same exception at once: no span, no report, no id, nothing issued.  Under
    GET, or without a payload, [JSON.stringify] is not consulted at all. *)
Theorem payload_failure_is_silent path options σ e :
  isUndefined (data options) = false →
  is_GET (request_method options) = false →
  JSON_stringify (data options) = Throw e →
  request path options σ = (Throw e, σ, []) ∧
  (∀ options',
     isUndefined (data options') = true ∨ is_GET (request_method options') = true →
     request_data_ options' = Ok (data options')).
Proof.
  intros Hu Hg He. split.
  - apply request_throw_data. unfold request_data_. by rewrite Hu, Hg.
  - intros options' [H|H]; unfold request_data_; rewrite H; [done|].
    by rewrite andb_false_r.
Qed.

(** X19: [requestPromise] itself never throws: it returns the new promise;
    when [request] throws (either serialization), the promise is returned
    already rejected with the exception, and nothing is issued or
    registered. *)
Theorem requestPromise_never_throws path popts σ :
  let r := requestPromise path popts σ in
  let p := length (promises σ) in
  result_of r = Ok p ∧
  (∀ err,
     request_data_ (options_rest popts) = Throw err ∨
     (∃ body, request_data_ (options_rest popts) = Ok body ∧
              request_query (options_rest popts) = Throw err) →
     promises (state_of r) !! p =
       Some {| outcome := Some (Rejected err); reaction := None |} ∧
     activeRequests (state_of r) = activeRequests σ ∧
     xhrs (state_of r) = xhrs σ ∧
     List.filter (fun e => match e with EAjax _ _ _ _ => true | _ => false end)
       (trace_of r) = []).
Proof.
  cbn zeta. rewrite requestPromise_run. cbn zeta.
  set (options := promise_options _ _ _ _).
  assert (Hp : promises (promised σ) !! length (promises σ) =
               Some {| outcome := None; reaction := None |}).
  { cbn. rewrite lookup_app_r by done. by rewrite Nat.sub_diag. }
  assert (Hlen : length (promises σ) < length (promises (promised σ))).
  { cbn. rewrite length_app. cbn. lia. }
  split.
  - destruct (request path options (promised σ)) as [[[?|err] σ1] t1]; [done|].
    pose proof (Quiet_settle (length (promises σ)) (Rejected err) σ1) as _.
    unfold settle. unfold_m. cbn.
    destruct (promises σ1 !! length (promises σ)) as [[[?|] [?|]]|]; done.
  - intros err [Hd|(body & Hd & Hq)].
    + rewrite (request_throw_data _ options _ err) by exact Hd.
      rewrite (settle_pending _ _ _ _ Hp eq_refl). cbn.
      rewrite list_lookup_insert_eq by (rewrite length_app; cbn; lia). done.
    + rewrite (request_throw_query _ options _ body err) by done.
      rewrite (settle_pending _ _ _ _ Hp eq_refl). cbn.
      rewrite list_lookup_insert_eq by (rewrite length_app; cbn; lia). done.
Qed.

(** X20: the two elevated-privilege codes being different, the modal is
    opened with exactly one of its flags set: [sudo] for the sudo-required
    code, [superuser] for the other. *)
Theorem sudo_flags_exclusive id path opts response args σ :
  SUDO_REQUIRED ≠ SUPERUSER_REQUIRED →
  isSudoRequired response = true →
  ∃ sudo_ superuser_,
    trace_of (handleRequestError id path opts response args σ) =
      [EOpenSudo (length (modals σ)) superuser_ sudo_] ∧
    superuser_ = negb sudo_ ∧
    sudo_ = strict_eq_str (get response ["responseJSON"; "detail"; "code"]) SUDO_REQUIRED.
Proof.
  intros Hne Hs. rewrite (handleRequestError_sudo _ _ _ _ _ _ Hs). cbn [trace_of snd].
  eexists _, _. split; [reflexivity|]. split; [|reflexivity].
  unfold isSudoRequired in Hs. cbn zeta in Hs.
  destruct (get response ["responseJSON"; "detail"; "code"])
    as [| |?|?|s|?|?|? ? ? ? ?]; cbn in *; try done.
  destruct (String.eqb_spec s SUDO_REQUIRED) as [E1|E1];
    destruct (String.eqb_spec s SUPERUSER_REQUIRED) as [E2|E2]; cbn in *;
    first [done | by rewrite <-E1, <-E2 in Hne].
Qed.

(** *** More on the url *)

Lemma prefix_append base s : String.prefix base (base +:+ s) = true.
Proof.
  apply String.prefix_correct. induction base as [|a base IH].
  - by destruct s.
  - change (String a base +:+ s) with (String a (base +:+ s)).
    cbn. f_equal. exact IH.
Qed.

Lemma index_occurs base p s : is_Some (String.index 0 base (p +:+ base +:+ s)).
Proof.
  induction p as [|a p IH].
  - change (EmptyString +:+ base +:+ s) with (base +:+ s).
    destruct (base +:+ s) as [|b rest] eqn:E.
    + destruct base; [by eexists|done].
    + cbn [String.index]. rewrite <-E, prefix_append. by eexists.
  - change (String a p +:+ base +:+ s) with (String a (p +:+ base +:+ s)).
    cbn [String.index].
    destruct (String.prefix base _); [by eexists|].
    destruct IH as [n ->]. by eexists.
Qed.

(** X21: the base url is never put twice: a path that already holds the
    base url (at its start, but also anywhere inside it) is used as it is,
    so the url made for a path is left alone when passed again. *)
Theorem fullUrl_prefixes_once base path :
  fullUrl base (fullUrl base path EmptyString) EmptyString = fullUrl base path EmptyString ∧
  (∀ p s, fullUrl base (p +:+ base +:+ s) EmptyString = p +:+ base +:+ s).
Proof.
  assert (Hin : ∀ p s, fullUrl base (p +:+ base +:+ s) EmptyString = p +:+ base +:+ s).
  { intros p s. unfold fullUrl. cbn. by destruct (index_occurs base p s) as [n ->]. }
  split; [|exact Hin].
  unfold fullUrl at 2. cbn.
  destruct (String.index 0 base path) as [n|] eqn:E.
  - unfold fullUrl. cbn. by rewrite E.
  - apply (Hin EmptyString path).
Qed.

(** *** [_chain] *)

(** X22: a chain calls the functions it was given, in their order and with
    the arguments it receives, and skips the undefined ones; it changes
    nothing by itself. *)
Theorem chain_calls_in_order (fs : list (option string)) args σ :
  _chain ((fun f : option string => Caller <$> f) <$> fs) args σ =
  (Ok tt, σ, (fun f : string => ECall f args) <$> omap (fun f : option string => f) fs).
Proof.
  unfold _chain. induction fs as [|[f|] fs IH]; cbn; [done| |exact IH].
  rewrite bind_run. cbn. cbn in IH. by rewrite IH.
Qed.

Lemma for_each_app {A} (l1 l2 : list A) (body : A → M unit) σ :
  for_each (l1 ++ l2) body σ = (for_each l1 body;; for_each l2 body) σ.
Proof.
  revert σ. induction l1 as [|a l1 IH]; intros σ; cbn [for_each app].
  - rewrite bind_run. cbn. by destruct (for_each l2 body σ) as [[? ?] ?].
  - rewrite !bind_run. destruct (body a σ) as [[[[]|e] σ1] t1]; [|done].
    rewrite IH, !bind_run.
    destruct (for_each l1 body σ1) as [[[[]|e] σ2] t2]; [|done].
    destruct (for_each l2 body σ2) as [[r σ3] t3]. by rewrite app_assoc.
Qed.

(** X23: chaining is sequencing: the chain of two lists of functions does
    what the chain of the first and then the chain of the second do. *)
Theorem chain_app fs gs args σ :
  _chain (fs ++ gs) args σ = (_chain fs args;; _chain gs args) σ.
Proof. unfold _chain. cbn zeta. rewrite omap_app. apply for_each_app. Qed.

(** *** More on the re-authentication flow *)

Lemma wrapCallback_live_cleanup id f args σ h r :
  activeRequests σ !! id = Some h →
  heap σ !! h = Some r →
  alive r = true →
  isProjectMoved (hd VUndef args) = false →
  wrapCallback id (Some f) true args σ =
    call_fn f args (set_activeRequests (delete id) σ).
Proof.
  intros Hid Hh Ha Hm. unfold wrapCallback. unfold_m. cbn.
  rewrite Hid. cbn. rewrite Hh, Ha. unfold hasProjectBeenRenamed. rewrite Hm. cbn.
  by destruct (call_fn f args _) as [[? ?] ?].
Qed.

(** X24: a promise of [requestPromise] whose call fails with an
    elevated-privilege code stays pending while the modal is open, and is
    rejected when the modal is closed, with the error object made from that
    response; no caller-supplied function runs on the way. *)
Theorem closing_modal_rejects_promise path popts σ body q resp ts et :
  request_data_ (options_rest popts) = Ok body →
  request_query (options_rest popts) = Ok q →
  isSudoRequired resp = true →
  let p := length (promises σ) in
  let x := length (xhrs σ) in
  let m := length (modals σ) in
  let opened := run [CallRequestPromise path popts; XhrError x resp ts et] σ in
  let closed := run [SudoClose m] (fst opened) in
  outcome <$> promises (fst opened) !! p = Some None ∧
  outcome <$> promises (fst closed) !! p =
    Some (Some (Rejected
      (VRequestError resp (captured_stack (errors σ))
         (method_val (method (options_rest popts))) path 2))) ∧
  calls (snd opened ++ snd closed) = [].
Proof.
  intros Hd Hq Hs p x m opened closed. subst opened closed.
  set (options := promise_options path popts p {| stack := captured_stack (errors σ) |}).
  set (σ1 := issued path options body q (promised σ)).
  assert (H1 : step (CallRequestPromise path popts) σ =
    (Ok tt, σ1,
     [EStartSpan {| request_data := body; op := "http";
                    description := method_name (request_method options) +:+ " " +:+ path |};
      EMark ("api-request-start-" +:+ uniqueId (guids σ));
      EAjax x (fullUrl (baseUrl σ) path q) (request_method options) body])).
  { unfold step. rewrite bind_run, (requestPromise_ok _ _ _ _ _ Hd Hq). done. }
  set (md := {| superuser := strict_eq_str (get resp ["responseJSON"; "detail"; "code"])
                               SUPERUSER_REQUIRED;
                sudo := strict_eq_str (get resp ["responseJSON"; "detail"; "code"])
                          SUDO_REQUIRED;
                m_path := path; m_requestOptions := options; m_response := resp |}).
  set (σ2 := set_modals (fun ms => ms ++ [md]) σ1).
  assert (H2 : ∃ report,
    step (XhrError x resp ts et) σ1 =
      (Ok tt, σ2,
       [EMeasure "app.api.request-error" ("api-request-start-" +:+ uniqueId (guids σ))
          (js_and resp (member resp "status"));
        report;
        EOpenSudo m (superuser md) (sudo md)]) ∧ is_call report = false).
  { eexists. split; [|shelve].
    unfold step. rewrite bind_run. cbn [read].
    replace (xhrs σ1 !! x) with (Some
      {| url := fullUrl (baseUrl σ) path q; ajax_method := request_method options;
         ajax_data := body; c_id := uniqueId (guids σ); c_path := path;
         c_options := options;
         c_errorObject := {| stack := captured_stack (S (errors σ)) |};
         c_requestSpan :=
           {| request_data := body; op := "http";
              description := method_name (request_method options) +:+ " " +:+ path |} |}).
    2:{ cbn. rewrite lookup_app_r by done. by rewrite Nat.sub_diag. }
    unfold ajax_error. rewrite bind_run. cbn [emit].
    unfold withScope. rewrite bind_run. cbn [emit].
    cbn [c_id c_path c_options].
    rewrite (handleRequestError_sudo _ _ _ _ _ _ Hs). reflexivity.
    Unshelve. done. }
  destruct H2 as (report & H2 & Hrep).
  assert (Hp : promises σ2 !! p = Some {| outcome := None; reaction := None |}).
  { cbn. rewrite lookup_app_r by done. by rewrite Nat.sub_diag. }
  assert (H3 : step (SudoClose m) σ2 =
    settle p (Rejected (VRequestError resp (captured_stack (errors σ))
                          (method_val (method (options_rest popts))) path 2)) σ2).
  { unfold step. rewrite bind_run. cbn [read].
    replace (modals σ2 !! m) with (Some md).
    2:{ cbn. rewrite lookup_app_r by done. by rewrite Nat.sub_diag. }
    unfold onClose. cbn.
    by destruct (settle _ _ σ2) as [[? ?] ?]. }
  rewrite (settle_pending _ _ _ _ Hp eq_refl) in H3. cbn [reaction] in H3.
  rewrite !trace_of_run_cons, !run_cons, H1. cbn [trace_of state_of fst snd].
  rewrite H2. cbn [trace_of state_of fst snd run].
  rewrite H3. cbn [trace_of state_of fst snd].
  split; [by rewrite Hp|]. split.
  - cbn. rewrite list_lookup_insert_eq; [done|]. rewrite length_app. cbn. lia.
  - cbn. by rewrite Hrep.
Qed.

(** X25: in a confirmed retry the caller's callbacks come in the reverse of
    the usual order: the completion of the retried call runs the complete
    callback of the original options at once, and the success callback only
    runs afterwards, in the job of the promise. *)
Theorem retry_completes_before_success σ m md body q s c d ts xv j ts' :
  modals σ !! m = Some md →
  jobs σ = [] →
  request_data_ (m_requestOptions md) = Ok body →
  request_query (m_requestOptions md) = Ok q →
  success (m_requestOptions md) = Some (Caller s) →
  complete (m_requestOptions md) = Some (Caller c) →
  isProjectMoved d = false →
  isProjectMoved j = false →
  let x := length (xhrs σ) in
  calls (snd (run [SudoRetry m; XhrSuccess x d ts xv; XhrComplete x j ts'; Microtask] σ)) =
  [ECall c [j; ts']; ECall s [d]].
Proof.
  intros Hm Hjobs Hd Hq Hsucc Hcomp Hmd Hmj x. subst x.
  set (path := m_path md). set (opts := m_requestOptions md) in *.
  assert (Hretry : step (SudoRetry m) σ =
    (Ok tt, retried path opts body q σ,
     [EStartSpan {| request_data := body; op := "http";
                    description := method_name (request_method opts) +:+ " " +:+ path |};
      EMark ("api-request-start-" +:+ uniqueId (guids σ));
      EAjax (length (xhrs σ)) (fullUrl (baseUrl σ) path q) (request_method opts) body])).
  { unfold step. rewrite bind_run. cbn [read]. rewrite Hm.
    by rewrite (retryRequest_ok _ _ _ _ _ Hd Hq). }
  destruct (retried_lookups path opts body q σ)
    as ((cl & Hx & Hcid & Hco) & Hid & Hh & Hp & Hj). rewrite <-Hcid in Hid.
  rewrite trace_of_run_cons, Hretry. cbn [trace_of state_of fst snd].
  rewrite trace_of_run_cons.
  rewrite (success_delivery_live _ (length (xhrs σ)) cl _ _ d ts xv (PromiseSuccess (length (promises σ)) false)
             Hx Hid Hh eq_refl Hmd) by (by rewrite Hco).
  cbn [call_fn hd]. rewrite (settle_pending _ _ _ _ Hp eq_refl).
  cbn [reaction trace_of state_of fst snd].
  set (σs := set_jobs _ (set_promises _ _)).
  assert (Hcomplete : step (XhrComplete (length (xhrs σ)) j ts') σs =
    (Ok tt, set_activeRequests (delete (c_id cl)) σs,
     [EFinishSpan (c_requestSpan cl); ECall c [j; ts']])).
  { unfold step. rewrite bind_run. cbn [read].
    change (xhrs σs) with (xhrs (retried path opts body q σ)). rewrite Hx.
    unfold ajax_complete. rewrite bind_run. cbn [emit].
    assert (Hcc : complete (c_options cl) = Some (Caller c))
      by (rewrite Hco; exact Hcomp).
    rewrite Hcc.
    by rewrite (wrapCallback_live_cleanup (c_id cl) (Caller c) [j; ts'] σs _ _
                  Hid Hh eq_refl Hmj). }
  rewrite trace_of_run_cons, Hcomplete. cbn [trace_of state_of fst snd].
  rewrite trace_of_run_cons. unfold step at 1. rewrite bind_run. cbn [read].
  cbn [jobs set_jobs set_promises set_activeRequests σs]. rewrite Hj, Hjobs. cbn [app].
  rewrite bind_run. cbn [modify run_job]. rewrite Hsucc. cbn. done.
Qed.

(** *** Cancellation and completion, ids being unique *)

Hypothesis uniqueId_inj : ∀ m n, uniqueId m = uniqueId n → m = n.

(** What [cancel()] does to the registry: the id of the call of the handle
    is taken out (if it has not been already). *)
Lemma cancel_registry h σ :
  activeRequests (state_of (cancel h σ)) =
  match heap σ !! h ≫= (fun r => xhrs σ !! xhr r) with
  | Some c => delete (c_id c) (activeRequests σ)
  | None => activeRequests σ
  end.
Proof.
  unfold cancel. rewrite state_of_bind. cbn [read result_of state_of fst snd].
  destruct (heap σ !! h) as [r|]; [|done]. cbn [mbind option_bind].
  rewrite state_of_bind. cbn [modify result_of state_of fst snd].
  set (σm := set_heap _ σ).
  assert (He : ∀ σ', activeRequests (state_of (emit (EMetric "app.api.request-abort" 1) σ')) =
                     activeRequests σ') by done.
  rewrite state_of_bind.
  assert (Ha : result_of (abort (xhr r) σm) = Ok tt ∧
               activeRequests (state_of (abort (xhr r) σm)) =
               match xhrs σ !! xhr r with
               | Some c => delete (c_id c) (activeRequests σ)
               | None => activeRequests σ
               end).
  { unfold abort. rewrite bind_run. cbn [emit]. rewrite bind_run. cbn [read].
    change (xhrs σm) with (xhrs σ).
    destruct (xhrs σ !! xhr r) as [c|]; [|done].
    unfold underway. change (activeRequests σm) with (activeRequests σ).
    destruct (activeRequests σ !! c_id c) as [h'|] eqn:Hid.
    - rewrite bind_run.
      pose proof (Quiet_ajax_error c aborted_xhr (VStr "abort") (VStr "abort") σm)
        as (_ & Er & _).
      assert (Hok : result_of (ajax_error c aborted_xhr (VStr "abort") (VStr "abort") σm)
                    = Ok tt).
      { unfold ajax_error. rewrite bind_run. cbn [emit]. rewrite bind_run.
        unfold withScope. cbn [emit]. unfold handleRequestError.
        rewrite aborted_not_sudo.
        destruct (wrapCallback_returns (c_id c) (error (c_options c)) false
                    [aborted_xhr; VStr "abort"; VStr "abort"] σm) as (σw & tw & ->).
        done. }
      destruct (ajax_error _ _ _ _ σm) as [[res σe] te]. cbn in Er, Hok. subst res.
      pose proof (wrapCallback_cleanup_shape (c_id c) (complete (c_options c))
                    [aborted_xhr; VStr "abort"] σe) as (_ & Ed & _).
      unfold ajax_complete. rewrite bind_run. cbn [emit].
      destruct (wrapCallback_returns (c_id c) (complete (c_options c)) true
                  [aborted_xhr; VStr "abort"] σe) as (σw & tw & Hw).
      rewrite Hw in Ed |- *. cbn in Ed |- *. by rewrite Ed, Er.
    - cbn. split; [done|]. by rewrite delete_id. }
  destruct Ha as [Hres Hreg]. rewrite Hres. by rewrite He, Hreg.
Qed.

(** Only the completion of call [x] takes its id out of the registry, and
    nothing puts it back. *)
Lemma registered_step ev σ x :
  wf σ → x < length (xhrs σ) →
  registered (uniqueId x) (state_of (step ev σ)) =
  if is_complete_of x ev then false else registered (uniqueId x) σ.
Proof using uniqueId_inj.
  intros Hwf Hx. pose proof (step_shape ev σ) as Hs. cbn zeta in Hs.
  assert (Hq : ∀ σ', quiet σ σ' → registered (uniqueId x) σ' = registered (uniqueId x) σ).
  { intros σ' (_ & E & _). unfold registered. by rewrite E. }
  assert (Hi : ∀ σ', issues σ σ' → registered (uniqueId x) σ' = registered (uniqueId x) σ).
  { intros σ' (c' & _ & _ & _ & _ & E & _). unfold registered. rewrite E.
    rewrite lookup_insert_ne; [done|].
    intros Heq%uniqueId_inj. destruct Hwf as (Hg & _). lia. }
  destruct ev; cbn [is_complete_of]; try (by apply Hq);
    try (by destruct Hs; [apply Hq|apply Hi]).
  - (* cancel *)
    unfold registered. cbn [step]. rewrite cancel_registry.
    destruct Hwf as (_ & Hl & Hid & Hh & _).
    destruct (heap σ !! h) as [r|] eqn:Hr; cbn [mbind option_bind].
    + rewrite (Hh _ _ Hr).
      assert (Hlt : h < length (xhrs σ)) by (rewrite <-Hl; by eapply lookup_lt_Some).
      destruct (lookup_lt_is_Some_2 _ _ Hlt) as [c Hc]. rewrite Hc, (Hid _ _ Hc).
      destruct (Nat.eqb_spec x h) as [->|Hne].
      * by rewrite lookup_delete_eq.
      * rewrite lookup_delete_ne; [done|]. by intros ?%uniqueId_inj.
    + apply lookup_ge_None in Hr.
      destruct (Nat.eqb_spec x h) as [->|Hne]; [lia|done].
  - (* clear *)
    unfold registered. cbn [step].
    destruct (clear_run σ Hwf) as (_ & -> & _). by rewrite lookup_empty.
  - destruct (xhrs σ !! x0) as [c0|] eqn:Hx0.
    + destruct Hs as (_ & E & _). unfold registered. rewrite E. cbn.
      destruct Hwf as (_ & _ & Hid & _). rewrite (Hid _ _ Hx0).
      destruct (Nat.eqb_spec x x0) as [->|Hne].
      * by rewrite lookup_delete_eq.
      * rewrite lookup_delete_ne; [done|]. by intros ?%uniqueId_inj.
    + rewrite Hs. apply lookup_ge_None in Hx0.
      destruct (Nat.eqb_spec x x0) as [->|Hne]; [lia|done].
Qed.

Lemma xhrs_length_step ev σ x :
  x < length (xhrs σ) → x < length (xhrs (state_of (step ev σ))).
Proof.
  intros Hx. destruct (lookup_lt_is_Some_2 _ _ Hx) as [c Hc].
  eapply lookup_lt_Some, xhrs_step, Hc.
Qed.

Lemma removals_app id evs1 evs2 σ :
  removals id (evs1 ++ evs2) σ =
  removals id evs1 σ + removals id evs2 (fst (run evs1 σ)).
Proof.
  revert σ. induction evs1 as [|ev evs1 IH]; intros σ; [done|].
  cbn [removals app]. rewrite IH, run_cons. lia.
Qed.

Lemma removals_before_completion evs σ x :
  wf σ → x < length (xhrs σ) →
  (∀ ev, ev ∈ evs → is_complete_of x ev = false) →
  removals (uniqueId x) evs σ = 0 ∧
  registered (uniqueId x) (fst (run evs σ)) = registered (uniqueId x) σ.
Proof using uniqueId_inj.
  revert σ. induction evs as [|ev evs IH]; intros σ Hwf Hx Hev; [done|].
  cbn [removals]. rewrite run_cons.
  assert (Hc : is_complete_of x ev = false) by (apply Hev, elem_of_cons; by left).
  pose proof (registered_step ev σ x Hwf Hx) as Hr. rewrite Hc in Hr.
  destruct (IH (state_of (step ev σ))) as [-> ->].
  - by apply wf_step.
  - by apply xhrs_length_step.
  - intros ev' ?. apply Hev, elem_of_cons. by right.
  - rewrite Hr. split; [|done]. by destruct (registered _ σ).
Qed.

Lemma removals_after_completion evs σ x :
  wf σ → x < length (xhrs σ) →
  registered (uniqueId x) σ = false →
  removals (uniqueId x) evs σ = 0 ∧
  registered (uniqueId x) (fst (run evs σ)) = false.
Proof using uniqueId_inj.
  revert σ. induction evs as [|ev evs IH]; intros σ Hwf Hx Hreg; [done|].
  cbn [removals]. rewrite run_cons, Hreg. cbn.
  apply IH; [by apply wf_step|by apply xhrs_length_step|].
  rewrite (registered_step ev σ x Hwf Hx), Hreg. by destruct (is_complete_of x ev).
Qed.

Lemma clear_spares x σ :
  wf σ → x < length (xhrs σ) → registered (uniqueId x) σ = false →
  List.filter (is_abort_of x) (trace_of (clear σ)) = [] ∧
  heap (state_of (clear σ)) !! x = heap σ !! x.
Proof.
  intros Hwf Hx Hreg. unfold clear.
  rewrite state_of_bind, trace_of_bind. cbn [read result_of state_of trace_of fst snd app].
  unfold registered in Hreg.
  apply for_each_cancel.
  - done.
  - apply NoDup_fst_map_to_list.
  - intros id Hin. apply list_elem_of_fmap in Hin as ([id' h] & -> & Hin).
    apply elem_of_map_to_list in Hin. by exists h.
  - intros id Hin Hid. destruct Hwf as (_ & _ & _ & _ & Hr).
    destruct (Hr _ _ Hid) as [-> _]. by rewrite Hid in Hreg.
Qed.

(** A [Request] object is never freed. *)
Lemma alloc_step ev h σ :
  is_Some (heap σ !! h) → is_Some (heap (state_of (step ev σ)) !! h).
Proof.
  intros [r Hr].
  destruct (step_calm ev σ) as [(_ & _ & _ & _ & Hk & _)|(c' & _ & _ & _ & E & _)].
  - destruct (killed_lookup_l _ _ _ _ Hk Hr) as (r' & ? & _). by exists r'.
  - exists r. rewrite E. by apply lookup_app_l_Some.
Qed.

Lemma alloc_run evs h σ :
  is_Some (heap σ !! h) → is_Some (heap (fst (run evs σ)) !! h).
Proof.
  revert σ. induction evs as [|ev evs IH]; intros σ Hh; [done|].
  rewrite run_cons. by apply IH, alloc_step.
Qed.

Lemma cancel_dead h σ : is_Some (heap σ !! h) → dead h (state_of (cancel h σ)).
Proof.
  intros [r Hr]. unfold cancel. rewrite state_of_bind.
  cbn [read result_of state_of fst snd]. rewrite Hr.
  rewrite state_of_bind. cbn [modify result_of state_of fst snd].
  eapply (dead_calm _ (set_heap <[h := {| alive := false; xhr := xhr r |}]> σ)).
  - exists {| alive := false; xhr := xhr r |}. split; [|reflexivity].
    apply list_lookup_insert_eq. by eapply lookup_lt_Some.
  - apply Calm_bind; [apply Calm_abort|intros _]. apply Calm_quiet, Quiet_emit.
Qed.

(** *** Whose functions a run calls *)

Lemma nocall_nil f : nocall f [].
Proof. done. Qed.

Lemma nocall_app f t1 t2 : nocall f t1 → nocall f t2 → nocall f (t1 ++ t2).
Proof. unfold nocall. intros H1 H2. by rewrite List.filter_app, H1, H2. Qed.

Lemma nocall_calls f t : calls t = [] → nocall f t.
Proof.
  unfold calls, nocall. induction t as [|e t IH]; [done|]. cbn.
  destruct e; cbn; done.
Qed.

Lemma is_caller_call f g args :
  is_caller f (Some (Caller g)) = false → nocall f [ECall g args].
Proof. unfold nocall. cbn. by intros ->. Qed.

Lemma supplies_false f o :
  supplies f o = false →
  is_caller f (success o) = false ∧ is_caller f (error o) = false ∧
  is_caller f (complete o) = false.
Proof.
  unfold supplies. intros H. apply orb_false_iff in H as [H ?].
  apply orb_false_iff in H as [? ?]. done.
Qed.

Lemma own_same f x σ σ' : same_callbacks σ σ' → own f x σ → own f x σ'.
Proof.
  intros (Ex & Em & Ep & Ej) (? & ? & ? & ? & ?). unfold own.
  rewrite Ex, Em, Ep, Ej. done.
Qed.

Lemma Hush_ret {A} f x (a : A) : Hush f x (ret a).
Proof. by intros σ Ho. Qed.

Lemma Hush_lift {A} f x (r : Res A) : Hush f x (lift r).
Proof. by intros σ Ho. Qed.

Lemma Hush_throw {A} f x e : Hush f x (@throw A e).
Proof. by intros σ Ho. Qed.

Lemma Hush_emit f x e : is_call_of f e = false → Hush f x (emit e).
Proof. intros He σ Ho. split; [|done]. unfold nocall. cbn. by rewrite He. Qed.

Lemma Hush_modify f x g : (∀ σ, own f x σ → own f x (g σ)) → Hush f x (modify g).
Proof. intros Hg σ Ho. split; [done|]. by apply Hg. Qed.

Lemma Hush_bind {A B} f x (m : M A) (k : A → M B) :
  Hush f x m → (∀ a, Hush f x (k a)) → Hush f x (m ≫= k).
Proof.
  intros Hm Hk σ Ho. rewrite state_of_bind, trace_of_bind.
  destruct (Hm σ Ho) as [Ht Hs]. destruct (result_of (m σ)) as [a|e]; [|done].
  destruct (Hk a _ Hs) as [Ht' Hs']. split; [by apply nocall_app|done].
Qed.

Lemma Hush_read {B} f x (k : State → M B) :
  (∀ σ, own f x σ → nocall f (trace_of (k σ σ)) ∧ own f x (state_of (k σ σ))) →
  Hush f x (read ≫= k).
Proof.
  intros Hk σ Ho. rewrite state_of_bind, trace_of_bind.
  cbn [read result_of state_of trace_of fst snd app]. by apply Hk.
Qed.

Lemma Hush_try_catch {A} f x (m : M A) (h : val → M A) :
  Hush f x m → (∀ e, Hush f x (h e)) → Hush f x (try_catch m h).
Proof.
  intros Hm Hh σ Ho. unfold try_catch. destruct (Hm σ Ho) as [Ht Hs].
  destruct (m σ) as [[[a|e] σ1] t1]; [done|]. cbn in Ht, Hs.
  destruct (Hh e σ1 Hs) as [Ht' Hs']. destruct (h e σ1) as [[r σ2] t2].
  split; [by apply nocall_app|done].
Qed.

Lemma Hush_new_Error f x : Hush f x new_Error.
Proof. intros σ Ho. split; [done|]. by eapply own_same. Qed.

Lemma Hush_new_Promise f x : Hush f x new_Promise.
Proof.
  intros σ (? & ? & ? & Hp & ?). split; [done|]. repeat split; try done. cbn.
  apply Forall_app. split; [done|]. by apply Forall_singleton.
Qed.

Lemma Hush_settle f x p o : Hush f x (settle p o).
Proof.
  intros σ Ho. pose proof Ho as (Hx & Hxs & Hm & Hp & Hj).
  unfold settle. rewrite state_of_bind, trace_of_bind.
  cbn [read result_of state_of trace_of fst snd app].
  destruct (promises σ !! p) as [pr|] eqn:Hpr; [|done].
  destruct (outcome pr); [done|].
  assert (Hr : ∀ o', reaction pr = Some o' → supplies f o' = false).
  { by eapply (Forall_lookup_1 _ _ _ _ Hp). }
  assert (Ho1 : own f x (set_promises <[p := {| outcome := Some o; reaction := reaction pr |}]> σ)).
  { repeat split; try done. cbn. by apply Forall_insert. }
  rewrite state_of_bind, trace_of_bind. cbn [modify result_of state_of trace_of fst snd app].
  destruct (reaction pr) as [opts|]; [|done].
  split; [done|]. destruct Ho1 as (? & ? & ? & ? & ?). repeat split; try done. cbn.
  apply Forall_app. split; [done|]. apply Forall_singleton. cbn. by apply Hr.
Qed.

Lemma Hush_then_catch f x p opts : supplies f opts = false → Hush f x (then_catch p opts).
Proof.
  intros Hs σ Ho. pose proof Ho as (Hx & Hxs & Hm & Hp & Hj).
  unfold then_catch. rewrite state_of_bind, trace_of_bind.
  cbn [read result_of state_of trace_of fst snd app].
  destruct (promises σ !! p) as [pr|] eqn:Hpr; [|done].
  destruct (outcome pr); (split; [done|]); repeat split; try done; cbn.
  - apply Forall_app. split; [done|]. by apply Forall_singleton.
  - apply Forall_insert; [done|]. cbn. by intros ? [= <-].
Qed.

Lemma Hush_call_fn f x cb args :
  is_caller f (Some cb) = false → Hush f x (call_fn cb args).
Proof.
  intros Hc. destruct cb as [g|p all|p pe m path]; cbn [call_fn].
  - intros σ Ho. split; [by apply is_caller_call|done].
  - destruct all; apply Hush_settle.
  - apply Hush_settle.
Qed.

Lemma Hush_callback f x (cb : option callback) args :
  is_caller f cb = false →
  Hush f x (match cb with None => ret tt | Some g => call_fn g args end).
Proof. intros Hc. destruct cb; [by apply Hush_call_fn|apply Hush_ret]. Qed.

Lemma Hush_hasProjectBeenRenamed f x response : Hush f x (hasProjectBeenRenamed response).
Proof.
  unfold hasProjectBeenRenamed. destruct (negb _); [apply Hush_ret|].
  apply Hush_bind; [by apply Hush_emit|intros _; apply Hush_ret].
Qed.

Lemma own_delete f x id σ : own f x σ → own f x (set_activeRequests (delete id) σ).
Proof. by apply own_same. Qed.

Lemma Hush_wrapCallback f x id func cleanup args :
  is_caller f func = false → Hush f x (wrapCallback id func cleanup args).
Proof.
  intros Hc. unfold wrapCallback. apply Hush_read. intros σ Ho.
  eapply Hush_bind; [| |exact Ho].
  { destruct cleanup; [|apply Hush_ret]. apply Hush_modify. intros ?. apply own_delete. }
  intros _. destruct (_ ≫= _) as [r|]; [|apply Hush_ret].
  destruct (alive r); [|apply Hush_ret].
  apply Hush_bind; [apply Hush_hasProjectBeenRenamed|].
  intros [|]; [apply Hush_ret|]. by apply Hush_callback.
Qed.

Lemma Hush_openSudo f x md :
  supplies f (m_requestOptions md) = false → Hush f x (openSudo md).
Proof.
  intros Hs σ (? & ? & ? & ? & ?). split; [done|]. repeat split; try done. cbn.
  apply Forall_app. split; [done|]. by apply Forall_singleton.
Qed.

Lemma Hush_handleRequestError f x id path opts response args :
  supplies f opts = false → Hush f x (handleRequestError id path opts response args).
Proof.
  intros Hs. unfold handleRequestError.
  destruct (isSudoRequired response); [by apply Hush_openSudo|].
  apply Hush_wrapCallback. by apply supplies_false in Hs as (_ & ? & _).
Qed.

Lemma Hush_ajax_success f x c d ts xv :
  supplies f (c_options c) = false → Hush f x (ajax_success c d ts xv).
Proof.
  intros Hs. unfold ajax_success. apply Hush_bind; [by apply Hush_emit|intros _].
  destruct (success (c_options c)) eqn:E; [|apply Hush_ret]. rewrite <-E.
  apply Hush_wrapCallback. by apply supplies_false in Hs as (? & _).
Qed.

Lemma Hush_ajax_error f x c r ts et :
  supplies f (c_options c) = false → Hush f x (ajax_error c r ts et).
Proof.
  intros Hs. unfold ajax_error. apply Hush_bind; [by apply Hush_emit|intros _].
  apply Hush_bind; [by apply Hush_emit|intros _]. by apply Hush_handleRequestError.
Qed.

Lemma Hush_ajax_complete f x c j ts :
  supplies f (c_options c) = false → Hush f x (ajax_complete c j ts).
Proof.
  intros Hs. unfold ajax_complete. apply Hush_bind; [by apply Hush_emit|intros _].
  apply Hush_wrapCallback. by apply supplies_false in Hs as (_ & _ & ?).
Qed.

Lemma Hush_request f x path options :
  supplies f options = false → Hush f x (request path options).
Proof.
  intros Hs σ Ho. pose proof Ho as (Hx & Hxs & Hm & Hp & Hj).
  destruct (request_data_ options) as [body|e] eqn:Hd;
    [|by rewrite (request_throw_data _ _ _ _ Hd)].
  destruct (request_query options) as [q|e] eqn:Hq;
    [|by rewrite (request_throw_query _ _ _ _ _ Hd Hq)].
  rewrite (request_ok _ _ _ _ _ Hd Hq). split; [done|].
  repeat split; try done; cbn.
  - rewrite length_app. lia.
  - intros y c Hc Hne. apply lookup_app_Some in Hc as [Hc|[Hge Hc]]; [eauto|].
    destruct (y - length (xhrs σ)) as [|k'] eqn:Hk; [|by destruct k'].
    cbn in Hc. by simplify_eq.
Qed.

Lemma Hush_requestPromise f x path popts :
  is_caller f (complete (options_rest popts)) = false →
  Hush f x (requestPromise path popts).
Proof.
  intros Hc. unfold requestPromise.
  apply Hush_bind; [apply Hush_new_Error|intros pe].
  apply Hush_bind; [apply Hush_new_Promise|intros p].
  apply Hush_bind; [|intros _; apply Hush_ret].
  apply Hush_try_catch; [|intros e; apply Hush_settle].
  apply Hush_bind; [|intros _; apply Hush_ret].
  apply Hush_request. unfold supplies. cbn. by rewrite Hc.
Qed.

Lemma Hush_retryRequest f x path opts :
  supplies f opts = false → Hush f x (retryRequest path opts).
Proof.
  intros Hs. unfold retryRequest. apply Hush_bind.
  - apply Hush_requestPromise. cbn. by apply supplies_false in Hs as (_ & _ & ?).
  - intros p. by apply Hush_then_catch.
Qed.

Lemma Hush_onClose f x opts response :
  supplies f opts = false → Hush f x (onClose opts response).
Proof.
  intros Hs. unfold onClose. apply Hush_callback.
  by apply supplies_false in Hs as (_ & ? & _).
Qed.

Lemma Hush_run_job f x opts o :
  supplies f opts = false → Hush f x (run_job (opts, o)).
Proof.
  intros Hs. apply supplies_false in Hs as (? & ? & _).
  destruct o; cbn [run_job]; by apply Hush_callback.
Qed.

(** [cancel()] in a well-formed state calls nothing, whatever the handle. *)
Lemma cancel_wf h σ :
  wf σ →
  calls (trace_of (cancel h σ)) = [] ∧ same_callbacks σ (state_of (cancel h σ)).
Proof using uniqueId_inj.
  intros Hwf. destruct (heap σ !! h) as [r|] eqn:Hr.
  - pose proof Hwf as (_ & Hl & Hid & Hh & Hreg).
    assert (Hlt : h < length (xhrs σ)) by (rewrite <-Hl; by eapply lookup_lt_Some).
    destruct (lookup_lt_is_Some_2 _ _ Hlt) as [c Hc].
    pose proof (Hh _ _ Hr) as Hxr.
    destruct (activeRequests σ !! c_id c) as [h'|] eqn:Hc'.
    + assert (h' = h) as ->.
      { destruct (Hreg _ _ Hc') as [E _]. rewrite (Hid _ _ Hc) in E.
        by apply uniqueId_inj in E. }
      rewrite (cancel_underway h σ r c); [done|done|by rewrite Hxr|done].
    + rewrite (cancel_completed h σ r c); [done|done|by rewrite Hxr|done].
  - unfold cancel. rewrite bind_run. cbn [read]. by rewrite Hr.
Qed.

(** One event that does not mention [f], and is not for call [x] unless the
    call has completed and the event is no elevated-privilege error. *)
Lemma step_own f x ev σ :
  wf σ → own f x σ → mentions f ev = false →
  delivery_of x ev = false ∨
    (registered (uniqueId x) σ = false ∧ sudo_error_of x ev = false) →
  nocall f (trace_of (step ev σ)) ∧ own f x (state_of (step ev σ)).
Proof using uniqueId_inj.
  intros Hwf Ho Hm Hev. pose proof Ho as (Hx & Hxs & Hmd & Hp & Hj).
  assert (Hsil : ∀ c func cleanup args,
            xhrs σ !! x = Some c → registered (uniqueId x) σ = false →
            wrapCallback (c_id c) func cleanup args σ =
            (Ok tt, if cleanup then set_activeRequests (delete (c_id c)) σ else σ, [])).
  { intros c func cleanup args Hc Hreg. apply wrapCallback_silent. left.
    destruct Hwf as (_ & _ & Hid & _). rewrite (Hid _ _ Hc).
    unfold registered in Hreg. by destruct (activeRequests σ !! uniqueId x). }
  destruct ev as [path options|path popts|h| |y d ts xv|y r ts et|y j ts|m|m|];
    cbn [mentions delivery_of sudo_error_of] in Hm, Hev; cbn [step].
  - apply Hush_bind; [|intros _; apply Hush_ret|done].
    by apply Hush_request.
  - apply Hush_bind; [|intros _; apply Hush_ret|done].
    apply Hush_requestPromise. by apply supplies_false in Hm as (_ & _ & ?).
  - destruct (cancel_wf h σ Hwf) as [Hc Hs].
    split; [by apply nocall_calls|by eapply own_same].
  - destruct (clear_run σ Hwf) as (_ & _ & _ & Hc & Hs & _).
    split; [by apply nocall_calls|by eapply own_same].
  - rewrite state_of_bind, trace_of_bind. cbn [read result_of state_of trace_of fst snd app].
    destruct (xhrs σ !! y) as [c|] eqn:Hc; [|done].
    destruct (Nat.eqb_spec x y) as [<-|Hne].
    + destruct Hev as [?|[Hreg _]]; [done|].
      unfold ajax_success. rewrite state_of_bind, trace_of_bind.
      cbn [emit result_of state_of trace_of fst snd].
      destruct (success (c_options c)); [|done]. by rewrite (Hsil c).
    + apply Hush_ajax_success; [|done]. eapply Hxs; [exact Hc|done].
  - rewrite state_of_bind, trace_of_bind. cbn [read result_of state_of trace_of fst snd app].
    destruct (xhrs σ !! y) as [c|] eqn:Hc; [|done].
    destruct (Nat.eqb_spec x y) as [<-|Hne].
    + destruct Hev as [?|[Hreg Hs]]; [done|]. cbn in Hs.
      unfold ajax_error. rewrite state_of_bind, trace_of_bind.
      cbn [emit result_of state_of trace_of fst snd].
      rewrite state_of_bind, trace_of_bind. unfold withScope.
      cbn [emit result_of state_of trace_of fst snd].
      unfold handleRequestError. rewrite Hs. by rewrite (Hsil c).
    + apply Hush_ajax_error; [|done]. eapply Hxs; [exact Hc|done].
  - rewrite state_of_bind, trace_of_bind. cbn [read result_of state_of trace_of fst snd app].
    destruct (xhrs σ !! y) as [c|] eqn:Hc; [|done].
    destruct (Nat.eqb_spec x y) as [<-|Hne].
    + destruct Hev as [?|[Hreg _]]; [done|].
      unfold ajax_complete. rewrite state_of_bind, trace_of_bind.
      cbn [emit result_of state_of trace_of fst snd].
      rewrite (Hsil c) by done. split; [done|]. by apply own_delete.
    + apply Hush_ajax_complete; [|done]. eapply Hxs; [exact Hc|done].
  - rewrite state_of_bind, trace_of_bind. cbn [read result_of state_of trace_of fst snd app].
    destruct (modals σ !! m) as [md|] eqn:Hmm; [|done].
    apply Hush_retryRequest; [|done]. by eapply (Forall_lookup_1 _ _ _ _ Hmd).
  - rewrite state_of_bind, trace_of_bind. cbn [read result_of state_of trace_of fst snd app].
    destruct (modals σ !! m) as [md|] eqn:Hmm; [|done].
    apply Hush_onClose; [|done]. by eapply (Forall_lookup_1 _ _ _ _ Hmd).
  - rewrite state_of_bind, trace_of_bind. cbn [read result_of state_of trace_of fst snd app].
    destruct (jobs σ) as [|[opts o] rest] eqn:Hjobs; [done|].
    apply Forall_cons in Hj as [Hjob Hrest].
    eapply Hush_bind; [| |exact Ho].
    + apply Hush_modify. intros σ' (? & ? & ? & ? & ?). repeat split; try done.
    + intros _. by apply Hush_run_job.
Qed.

Lemma trace_of_run_app evs1 evs2 σ :
  snd (run (evs1 ++ evs2) σ) = snd (run evs1 σ) ++ snd (run evs2 (fst (run evs1 σ))).
Proof.
  revert σ. induction evs1 as [|ev evs1 IH]; intros σ; [done|].
  rewrite <-app_comm_cons, !trace_of_run_cons, run_cons, IH. by rewrite app_assoc.
Qed.

(** A run in which nothing is delivered for call [x]. *)
Lemma run_own_before f x evs σ :
  wf σ → own f x σ →
  (∀ ev, ev ∈ evs → mentions f ev = false) →
  (∀ ev, ev ∈ evs → delivery_of x ev = false) →
  nocall f (snd (run evs σ)) ∧ own f x (fst (run evs σ)).
Proof using uniqueId_inj.
  revert σ. induction evs as [|ev evs IH]; intros σ Hwf Ho Hm Hd; [done|].
  rewrite trace_of_run_cons, run_cons.
  destruct (step_own f x ev σ Hwf Ho) as [Ht Hs].
  { apply Hm, elem_of_cons. by left. }
  { left. apply Hd, elem_of_cons. by left. }
  destruct (IH (state_of (step ev σ))) as [Ht' Hs']; try done.
  - by apply wf_step.
  - intros ev' ?. apply Hm, elem_of_cons. by right.
  - intros ev' ?. apply Hd, elem_of_cons. by right.
  - split; [by apply nocall_app|done].
Qed.

(** A run after call [x] has completed, without an elevated-privilege error
    for it. *)
Lemma run_own_after f x evs σ :
  wf σ → own f x σ → registered (uniqueId x) σ = false →
  (∀ ev, ev ∈ evs → mentions f ev = false) →
  (∀ ev, ev ∈ evs → sudo_error_of x ev = false) →
  nocall f (snd (run evs σ)) ∧ own f x (fst (run evs σ)).
Proof using uniqueId_inj.
  revert σ. induction evs as [|ev evs IH]; intros σ Hwf Ho Hreg Hm Hd; [done|].
  rewrite trace_of_run_cons, run_cons. pose proof Ho as (Hx & _).
  destruct (step_own f x ev σ Hwf Ho) as [Ht Hs].
  { apply Hm, elem_of_cons. by left. }
  { right. split; [done|]. apply Hd, elem_of_cons. by left. }
  destruct (IH (state_of (step ev σ))) as [Ht' Hs']; try done.
  - by apply wf_step.
  - rewrite (registered_step ev σ x Hwf Hx), Hreg. by destruct (is_complete_of x ev).
  - intros ev' ?. apply Hm, elem_of_cons. by right.
  - intros ev' ?. apply Hd, elem_of_cons. by right.
  - split; [by apply nocall_app|done].
Qed.

Lemma existsb_false_lookup {A} (g : A → bool) (l : list A) i a :
  existsb g l = false → l !! i = Some a → g a = false.
Proof.
  revert i. induction l as [|b l IH]; intros i; [done|]. cbn.
  intros [? ?]%orb_false_iff. destruct i as [|i]; cbn; [by intros [= <-]|eauto].
Qed.

Lemma existsb_false_Forall {A} (g : A → bool) (l : list A) :
  existsb g l = false → Forall (fun a => g a = false) l.
Proof.
  induction l as [|b l IH]; [done|]. cbn.
  intros [? ?]%orb_false_iff. constructor; auto.
Qed.

(** A function that the state does not know is supplied to the new call at
    most. *)
Lemma known_own f path options body q σ :
  known f σ = false → own f (length (xhrs σ)) (issued path options body q σ).
Proof.
  unfold known. intros H. apply orb_false_iff in H as [H Hj].
  apply orb_false_iff in H as [H Hp]. apply orb_false_iff in H as [Hx Hm].
  repeat split; cbn.
  - rewrite length_app. cbn. lia.
  - intros y c Hc Hne. apply lookup_app_Some in Hc as [Hc|[Hge Hc]].
    + by eapply (existsb_false_lookup _ _ _ _ Hx).
    + destruct (y - length (xhrs σ)) as [|k'] eqn:Hk; [lia|by destruct k'].
  - by apply existsb_false_Forall in Hm.
  - apply existsb_false_Forall in Hp. eapply Forall_impl; [exact Hp|].
    intros pr Hpr o Ho. cbn in Hpr. by rewrite Ho in Hpr.
  - by apply existsb_false_Forall in Hj.
Qed.

(** C3: a request is issued and, before the transport has delivered anything
    for it, [cancel()] is called on its handle.  Then no function supplied to
    that request (and to no other) is ever called: not by [cancel()], during
    which the transport runs the error and the complete callback, and not
    afterwards, whatever else the client is used for before and after.  The
    handle stays not alive and the id stays out of the registry.  Of the
    transport it is asked that it run no error callback with an
    elevated-privilege code for the call once it is aborted; jQuery runs no
    callback at all for it then. *)
Theorem cancelled_request_is_silent path options σ0 h σ1 t evs1 evs2 f :
  wf σ0 →
  request path options σ0 = (Ok h, σ1, t) →
  let x := length (xhrs σ0) in
  known f σ0 = false →
  (∀ ev, ev ∈ evs1 ++ evs2 → mentions f ev = false) →
  (∀ ev, ev ∈ evs1 → delivery_of x ev = false) →
  (∀ ev, ev ∈ evs2 → sudo_error_of x ev = false) →
  let res := run (evs1 ++ CallCancel h :: evs2) σ1 in
  List.filter (is_call_of f) (snd res) = [] ∧
  dead h (fst res) ∧
  activeRequests (fst res) !! uniqueId (guids σ0) = None.
Proof using uniqueId_inj.
  intros Hwf Hreq x Hk Hm Hd1 Hd2 res.
  destruct (request_data_ options) as [body|e] eqn:Hd;
    [|by rewrite (request_throw_data _ _ _ _ Hd) in Hreq].
  destruct (request_query options) as [q|e] eqn:Hq;
    [|by rewrite (request_throw_query _ _ _ _ _ Hd Hq) in Hreq].
  rewrite (request_ok _ _ _ _ _ Hd Hq) in Hreq. simplify_eq.
  assert (Hhx : length (heap σ0) = x) by (by destruct Hwf as (_ & -> & _)).
  assert (Hid : uniqueId (guids σ0) = uniqueId x) by (by destruct Hwf as (-> & _)).
  set (σ1 := issued path options body q σ0) in *.
  assert (Hwf1 : wf σ1) by (eapply wf_issues; [exact Hwf|apply issued_issues]).
  assert (Ho1 : own f x σ1) by by apply known_own.
  (* before the cancellation *)
  destruct (run_own_before f x evs1 σ1 Hwf1 Ho1) as [Ht2 Ho2]; [|done|].
  { intros ev ?. apply Hm, elem_of_app. by left. }
  set (σ2 := fst (run evs1 σ1)) in *.
  assert (Hwf2 : wf σ2) by by apply wf_run.
  pose proof Ho2 as (Hx2 & _).
  (* the cancellation *)
  destruct (step_own f x (CallCancel (length (heap σ0))) σ2 Hwf2 Ho2 eq_refl) as [Ht3 Ho3];
    [by left|].
  set (σ3 := state_of (step (CallCancel (length (heap σ0))) σ2)) in *.
  assert (Hwf3 : wf σ3) by by apply wf_step.
  assert (Hreg3 : registered (uniqueId x) σ3 = false).
  { subst σ3. rewrite registered_step by done. cbn. by rewrite Hhx, Nat.eqb_refl. }
  assert (Hdead3 : dead (length (heap σ0)) σ3).
  { apply cancel_dead, alloc_run. cbn. rewrite lookup_app_r by done.
    rewrite Nat.sub_diag. by eexists. }
  (* afterwards *)
  destruct (run_own_after f x evs2 σ3 Hwf3 Ho3 Hreg3) as [Ht4 Ho4]; [|done|].
  { intros ev ?. apply Hm, elem_of_app. by right. }
  pose proof Ho3 as (Hx3 & _).
  destruct (removals_after_completion evs2 σ3 x Hwf3 Hx3 Hreg3) as [_ Hreg4].
  assert (Hσ : fst res = fst (run evs2 σ3)).
  { subst res. by rewrite state_of_run_app, run_cons. }
  split; [|split].
  - subst res. rewrite trace_of_run_app, trace_of_run_cons.
    apply nocall_app; [done|]. by apply nocall_app.
  - rewrite Hσ. by apply dead_run.
  - rewrite Hσ, Hid. unfold registered in Hreg4.
    by destruct (activeRequests (fst (run evs2 σ3)) !! uniqueId x).
Qed.

(** C4: a request that completes successfully is taken out of the registry
    exactly once, by the completion wrapper.  It is registered to its handle
    when issued and stays so at every point until its completion arrives, the
    delivery of its success included; the completion takes out its id and
    nothing else; in the whole run the id leaves the registry once and is
    never back; and a later [clear()] neither aborts its call nor touches
    its handle. *)
Theorem completed_request_removed_once path options σ0 h σ1 t evs1 evs2 evs3 d ts xv j ts' :
  wf σ0 →
  request path options σ0 = (Ok h, σ1, t) →
  let x := length (xhrs σ0) in
  let id := uniqueId (guids σ0) in
  (∀ ev, ev ∈ evs1 ++ evs2 → is_complete_of x ev = false) →
  let before := evs1 ++ XhrSuccess x d ts xv :: evs2 in
  let evs := evs1 ++ XhrSuccess x d ts xv :: evs2 ++ XhrComplete x j ts' :: evs3 in
  let σb := fst (run before σ1) in
  let σ := fst (run evs σ1) in
  (∀ pre suf, before = pre ++ suf → activeRequests (fst (run pre σ1)) !! id = Some h) ∧
  activeRequests (state_of (step (XhrComplete x j ts') σb)) = delete id (activeRequests σb) ∧
  removals id evs σ1 = 1 ∧
  activeRequests σ !! id = None ∧
  List.filter (is_abort_of x) (trace_of (clear σ)) = [] ∧
  heap (state_of (clear σ)) !! h = heap σ !! h.
Proof using uniqueId_inj.
  intros Hwf Hreq x id Hev before evs σb σ.
  destruct (request_data_ options) as [body|e] eqn:Hd;
    [|by rewrite (request_throw_data _ _ _ _ Hd) in Hreq].
  destruct (request_query options) as [q|e] eqn:Hq;
    [|by rewrite (request_throw_query _ _ _ _ _ Hd Hq) in Hreq].
  rewrite (request_ok _ _ _ _ _ Hd Hq) in Hreq. simplify_eq.
  assert (Hhx : length (heap σ0) = x) by (by destruct Hwf as (_ & -> & _)).
  assert (Hid : id = uniqueId x) by (subst id; by destruct Hwf as (-> & _)).
  set (σ1 := issued path options body q σ0) in *.
  assert (Hwf1 : wf σ1) by (eapply wf_issues; [exact Hwf|apply issued_issues]).
  assert (Hx1 : x < length (xhrs σ1)) by (cbn; rewrite length_app; cbn; lia).
  assert (Hreg1 : registered (uniqueId x) σ1 = true).
  { unfold registered. rewrite <-Hid. cbn. by rewrite lookup_insert_eq. }
  (* the run up to the completion *)
  assert (Hbefore : ∀ ev, ev ∈ before → is_complete_of x ev = false).
  { intros ev Hin. subst before. apply elem_of_app in Hin as [?|Hin].
    - apply Hev, elem_of_app. by left.
    - apply elem_of_cons in Hin as [->|?]; [done|]. apply Hev, elem_of_app. by right. }
  assert (Hpre : ∀ pre suf, before = pre ++ suf →
            activeRequests (fst (run pre σ1)) !! id = Some (length (heap σ0))).
  { intros pre suf E.
    destruct (removals_before_completion pre σ1 x Hwf1 Hx1) as [_ Hr].
    { intros ev ?. apply Hbefore. rewrite E. apply elem_of_app. by left. }
    rewrite Hreg1 in Hr. unfold registered in Hr. rewrite Hid.
    destruct (activeRequests (fst (run pre σ1)) !! uniqueId x) as [h'|] eqn:Hh'; [|done].
    destruct (wf_run pre σ1 Hwf1) as (_ & _ & _ & _ & Hreg).
    destruct (Hreg _ _ Hh') as [E' _]. apply uniqueId_inj in E'. by rewrite Hhx, <-E'. }
  destruct (removals_before_completion before σ1 x Hwf1 Hx1 Hbefore) as [Hrem2 Hreg2].
  fold σb in Hreg2.
  assert (Hwf2 : wf σb) by by apply wf_run.
  assert (Hx2 : x < length (xhrs σb)).
  { destruct (lookup_lt_is_Some_2 _ _ Hx1) as [c Hc].
    eapply lookup_lt_Some, xhrs_run, Hc. }
  (* the completion *)
  set (σ3 := state_of (step (XhrComplete x j ts') σb)).
  assert (Hdel : activeRequests σ3 = delete id (activeRequests σb)).
  { destruct (lookup_lt_is_Some_2 _ _ Hx2) as [c Hc].
    subst σ3. unfold step. rewrite state_of_bind. cbn [read result_of state_of fst snd].
    rewrite Hc. unfold ajax_complete. rewrite state_of_bind.
    cbn [emit result_of state_of fst snd].
    destruct (wrapCallback_cleanup_shape (c_id c) (complete (c_options c)) [j; ts'] σb)
      as (_ & -> & _). cbn.
    destruct Hwf2 as (_ & _ & Hcid & _). by rewrite (Hcid _ _ Hc), Hid. }
  assert (Hreg3 : registered (uniqueId x) σ3 = false).
  { subst σ3. rewrite registered_step by done. cbn. by rewrite Nat.eqb_refl. }
  assert (Hwf3 : wf σ3) by by apply wf_step.
  assert (Hx3 : x < length (xhrs σ3)) by by apply xhrs_length_step.
  destruct (removals_after_completion evs3 σ3 x Hwf3 Hx3 Hreg3) as [Hrem4 Hreg4].
  assert (Hevs : evs = before ++ XhrComplete x j ts' :: evs3).
  { subst evs before. by rewrite <-app_assoc. }
  assert (Hσ : σ = fst (run evs3 σ3)).
  { subst σ. by rewrite Hevs, state_of_run_app, run_cons. }
  split; [done|]. split; [done|]. split; [|split].
  - rewrite Hevs, removals_app, Hid, Hrem2. cbn [removals]. fold σb σ3.
    rewrite Hrem4, Hreg3, Hreg2, Hreg1. done.
  - rewrite Hσ, Hid. unfold registered in Hreg4.
    by destruct (activeRequests (fst (run evs3 σ3)) !! uniqueId x).
  - rewrite Hhx. apply clear_spares.
    + subst σ. by apply wf_run.
    + rewrite Hσ. destruct (lookup_lt_is_Some_2 _ _ Hx3) as [c Hc].
      eapply lookup_lt_Some, xhrs_run, Hc.
    + by rewrite Hσ.
Qed.

(** *** More on cancellation and completion *)

(** X12: cancellation is permanent: after [cancel()] on a handle, no later
    event (a new request, a retry, a delivery) makes it alive again. *)
Theorem cancel_is_permanent h σ evs :
  is_Some (heap σ !! h) →
  dead h (fst (run (CallCancel h :: evs) σ)).
Proof.
  intros Hh. rewrite run_cons. apply dead_run. cbn. by apply cancel_dead.
Qed.

(** What a request that goes out does to the registry and the heap. *)
Lemma request_fresh path options σ h σ' t :
  wf σ →
  request path options σ = (Ok h, σ', t) →
  let id := uniqueId (guids σ) in
  activeRequests σ !! id = None ∧
  heap σ !! h = None ∧
  activeRequests σ' = <[id := h]> (activeRequests σ) ∧
  heap σ' !! h = Some {| alive := true; xhr := length (xhrs σ) |} ∧
  size (activeRequests σ') = S (size (activeRequests σ)) ∧
  wf σ'.
Proof using uniqueId_inj.
  intros Hwf Hreq id.
  destruct (request_data_ options) as [body|e] eqn:Hd;
    [|by rewrite (request_throw_data _ _ _ _ Hd) in Hreq].
  destruct (request_query options) as [q|e] eqn:Hq;
    [|by rewrite (request_throw_query _ _ _ _ _ Hd Hq) in Hreq].
  rewrite (request_ok _ _ _ _ _ Hd Hq) in Hreq. simplify_eq.
  assert (Hfresh : activeRequests σ !! id = None).
  { destruct (activeRequests σ !! id) as [h'|] eqn:E; [|done].
    destruct Hwf as (Hg & Hl & _ & _ & Hr).
    destruct (Hr _ _ E) as [Heq%uniqueId_inj Hlt]. lia. }
  split; [done|]. split; [by apply lookup_ge_None|]. split; [done|]. split.
  { cbn. rewrite lookup_app_r by done. by rewrite Nat.sub_diag. }
  split; [by apply map_size_insert_None|].
  eapply wf_issues; [exact Hwf|apply issued_issues].
Qed.

(** X26: a request that goes out takes a fresh id: the id was not in the
    registry, the registry gains exactly that entry, pointing to a new
    [Request] object that is alive, and the state stays well formed. *)
Theorem request_registers_fresh path options σ h σ' t :
  wf σ →
  request path options σ = (Ok h, σ', t) →
  let id := uniqueId (guids σ) in
  activeRequests σ !! id = None ∧
  heap σ !! h = None ∧
  activeRequests σ' = <[id := h]> (activeRequests σ) ∧
  heap σ' !! h = Some {| alive := true; xhr := length (xhrs σ) |} ∧
  size (activeRequests σ') = S (size (activeRequests σ)) ∧
  wf σ'.
Proof using uniqueId_inj. apply request_fresh. Qed.

(** X27: the life of a request that nobody cancels: the transport delivers
    its outcome and then its completion; the success callback (resp. the
    error callback, for an error asking for no privilege) is called with the
    three arguments of the transport, then the complete callback with its
    two, and the registry is back to what it was before the request. *)
Theorem request_lifecycle path options σ0 h σ1 t s e c d resp ts et xv j ts' :
  wf σ0 →
  request path options σ0 = (Ok h, σ1, t) →
  success options = Some (Caller s) →
  error options = Some (Caller e) →
  complete options = Some (Caller c) →
  isProjectMoved d = false →
  isProjectMoved resp = false →
  isSudoRequired resp = false →
  isProjectMoved j = false →
  let x := length (xhrs σ0) in
  let ok := run [XhrSuccess x d ts xv; XhrComplete x j ts'] σ1 in
  let ko := run [XhrError x resp ts et; XhrComplete x j ts'] σ1 in
  calls (snd ok) = [ECall s [d; ts; xv]; ECall c [j; ts']] ∧
  calls (snd ko) = [ECall e [resp; ts; et]; ECall c [j; ts']] ∧
  activeRequests (fst ok) = activeRequests σ0 ∧
  activeRequests (fst ko) = activeRequests σ0.
Proof using uniqueId_inj.
  intros Hwf Hreq Hs He Hc Hmd Hmr Hsr Hmj x ok ko. subst ok ko x.
  destruct (request_fresh _ _ _ _ _ _ Hwf Hreq) as (Hfresh & _ & Hreg & Hheap & _).
  destruct (request_data_ options) as [body|e'] eqn:Hd;
    [|by rewrite (request_throw_data _ _ _ _ Hd) in Hreq].
  destruct (request_query options) as [q|e'] eqn:Hq;
    [|by rewrite (request_throw_query _ _ _ _ _ Hd Hq) in Hreq].
  rewrite (request_ok _ _ _ _ _ Hd Hq) in Hreq. simplify_eq.
  set (σ1 := issued path options body q σ0) in *.
  set (cl := {| url := fullUrl (baseUrl σ0) path q; ajax_method := request_method options;
       ajax_data := body; c_id := uniqueId (guids σ0); c_path := path;
       c_options := options;
       c_errorObject := {| stack := captured_stack (errors σ0) |};
       c_requestSpan :=
         {| request_data := body; op := "http";
            description := method_name (request_method options) +:+ " " +:+ path |} |}).
  assert (Hx : xhrs σ1 !! length (xhrs σ0) = Some cl).
  { cbn. rewrite lookup_app_r by done. by rewrite Nat.sub_diag. }
  assert (Hid : activeRequests σ1 !! c_id cl = Some (length (heap σ0)))
    by (rewrite Hreg; apply lookup_insert_eq).
  assert (Hcomplete : step (XhrComplete (length (xhrs σ0)) j ts') σ1 =
    (Ok tt, set_activeRequests (delete (c_id cl)) σ1,
     [EFinishSpan (c_requestSpan cl); ECall c [j; ts']])).
  { unfold step. rewrite bind_run. cbn [read]. rewrite Hx.
    unfold ajax_complete. rewrite bind_run. cbn [emit].
    assert (Hcc : complete (c_options cl) = Some (Caller c)) by exact Hc.
    rewrite Hcc.
    by rewrite (wrapCallback_live_cleanup (c_id cl) (Caller c) [j; ts'] σ1 _ _
                  Hid Hheap eq_refl Hmj). }
  assert (Hback : activeRequests (set_activeRequests (delete (c_id cl)) σ1) =
                  activeRequests σ0).
  { cbn. rewrite delete_insert_eq. by apply delete_id. }
  assert (Hok : step (XhrSuccess (length (xhrs σ0)) d ts xv) σ1 =
    (Ok tt, σ1,
     [EMeasure "app.api.request-success" ("api-request-start-" +:+ c_id cl)
        (js_and xv (member xv "status")); ECall s [d; ts; xv]])).
  { by rewrite (success_delivery_live σ1 _ cl _ _ d ts xv (Caller s) Hx Hid Hheap eq_refl Hmd Hs). }
  destruct (error_delivery_live σ1 _ cl _ _ resp ts et (Caller e) Hx Hid Hheap eq_refl Hsr Hmr He)
    as (report & Hko & Hrep).
  cbn [call_fn] in Hko. unfold emit in Hko.
  clearbody σ1 cl.
  repeat split.
  - rewrite trace_of_run_cons, Hok. cbn [trace_of state_of fst snd].
    rewrite trace_of_run_cons, Hcomplete. done.
  - rewrite trace_of_run_cons, Hko. cbn [emit trace_of state_of fst snd].
    rewrite trace_of_run_cons, Hcomplete. cbn. by rewrite Hrep.
  - rewrite run_cons, Hok. cbn [trace_of state_of fst snd].
    by rewrite run_cons, Hcomplete.
  - rewrite run_cons, Hko. cbn [emit trace_of state_of fst snd].
    by rewrite run_cons, Hcomplete.
Qed.

Lemma plain_delivery_unregistered ev x σ :
  wf σ → x < length (xhrs σ) → registered (uniqueId x) σ = false →
  plain_delivery x ev = true →
  calls (trace_of (step ev σ)) = [].
Proof using uniqueId_inj.
  intros Hwf Hlt Hreg Hev.
  assert (Hsil : ∀ c func cleanup args, xhrs σ !! x = Some c →
            wrapCallback (c_id c) func cleanup args σ =
            (Ok tt, if cleanup then set_activeRequests (delete (c_id c)) σ else σ, [])).
  { intros c func cleanup args Hc. apply wrapCallback_silent. left.
    destruct Hwf as (_ & _ & Hid & _). rewrite (Hid _ _ Hc).
    unfold registered in Hreg. by destruct (activeRequests σ !! uniqueId x). }
  destruct ev as [| | | |y d ts xv|y r ts et|y j ts| | |]; try done; cbn in Hev.
  - apply Nat.eqb_eq in Hev as <-. unfold step. unfold_m. cbn.
    destruct (xhrs σ !! x) as [c|] eqn:Hc; [|done].
    unfold ajax_success. unfold_m. cbn.
    destruct (success (c_options c)); [|done]. by rewrite (Hsil c).
  - apply andb_true_iff in Hev as [<-%Nat.eqb_eq Hs%negb_true_iff].
    unfold step. unfold_m. cbn.
    destruct (xhrs σ !! x) as [c|] eqn:Hc; [|done].
    unfold ajax_error, handleRequestError, withScope. unfold_m. cbn.
    rewrite Hs. by rewrite (Hsil c).
  - apply Nat.eqb_eq in Hev as <-. unfold step. unfold_m. cbn.
    destruct (xhrs σ !! x) as [c|] eqn:Hc; [|done].
    unfold ajax_complete. unfold_m. cbn. by rewrite (Hsil c).
Qed.

(** X28: after its completion a request is finished for the caller: if the
    transport delivers again for that call (a success, a completion, an
    error asking for no privilege), however late, no caller-supplied function
    runs. *)
Theorem completed_request_is_silent path options σ0 h σ1 t evs1 evs2 j ts ev :
  wf σ0 →
  request path options σ0 = (Ok h, σ1, t) →
  let x := length (xhrs σ0) in
  let σ := fst (run (evs1 ++ XhrComplete x j ts :: evs2) σ1) in
  plain_delivery x ev = true →
  activeRequests σ !! uniqueId (guids σ0) = None ∧
  calls (trace_of (step ev σ)) = [].
Proof using uniqueId_inj.
  intros Hwf Hreq x σ Hev.
  destruct (request_fresh _ _ _ _ _ _ Hwf Hreq) as (_ & _ & _ & _ & _ & Hwf1).
  assert (Hid : uniqueId (guids σ0) = uniqueId x) by by destruct Hwf as (-> & _).
  assert (Hx1 : x < length (xhrs σ1)).
  { destruct (request_shape path options σ0) as [Hq|(c & _ & _ & E & _)];
      rewrite Hreq in *; cbn in *.
    - destruct (request_data_ options) as [body|e] eqn:Hd;
        [|by rewrite (request_throw_data _ _ _ _ Hd) in Hreq].
      destruct (request_query options) as [q|e] eqn:Hqu;
        [|by rewrite (request_throw_query _ _ _ _ _ Hd Hqu) in Hreq].
      rewrite (request_ok _ _ _ _ _ Hd Hqu) in Hreq. simplify_eq.
      cbn. rewrite length_app. cbn. lia.
    - rewrite E, length_app. cbn. lia. }
  set (σ2 := fst (run evs1 σ1)).
  assert (Hwf2 : wf σ2) by by apply wf_run.
  assert (Hx2 : x < length (xhrs σ2)).
  { destruct (lookup_lt_is_Some_2 _ _ Hx1) as [c Hc].
    eapply lookup_lt_Some, xhrs_run, Hc. }
  set (σ3 := state_of (step (XhrComplete x j ts) σ2)).
  assert (Hreg3 : registered (uniqueId x) σ3 = false).
  { subst σ3. rewrite registered_step by done. cbn. by rewrite Nat.eqb_refl. }
  assert (Hwf3 : wf σ3) by by apply wf_step.
  assert (Hx3 : x < length (xhrs σ3)) by by apply xhrs_length_step.
  destruct (removals_after_completion evs2 σ3 x Hwf3 Hx3 Hreg3) as [_ Hreg4].
  assert (Hσ : σ = fst (run evs2 σ3)).
  { subst σ. by rewrite state_of_run_app, run_cons. }
  rewrite Hσ, Hid. split.
  - unfold registered in Hreg4.
    by destruct (activeRequests (fst (run evs2 σ3)) !! uniqueId x).
  - apply (plain_delivery_unregistered ev x); try done.
    + by apply wf_run.
    + destruct (lookup_lt_is_Some_2 _ _ Hx3) as [c Hc].
      eapply lookup_lt_Some, xhrs_run, Hc.
Qed.

End Client.

(** ** The properties at work on the concrete platform *)

Local Abbreviation run_demo :=
  (run Demo.SUDO_REQUIRED Demo.SUPERUSER_REQUIRED Demo.PROJECT_MOVED Demo.uniqueId
       Demo.param Demo.JSON_stringify Demo.String_ Demo.captured_stack).
Local Abbreviation step_demo :=
  (step Demo.SUDO_REQUIRED Demo.SUPERUSER_REQUIRED Demo.PROJECT_MOVED Demo.uniqueId
        Demo.param Demo.JSON_stringify Demo.String_ Demo.captured_stack).
Local Abbreviation request_demo :=
  (request Demo.uniqueId Demo.param Demo.JSON_stringify Demo.captured_stack).
Local Abbreviation requestPromise_demo :=
  (requestPromise Demo.uniqueId Demo.param Demo.JSON_stringify Demo.captured_stack).

Local Abbreviation cancel_demo :=
  (cancel Demo.SUDO_REQUIRED Demo.SUPERUSER_REQUIRED Demo.PROJECT_MOVED Demo.String_).
Local Abbreviation clear_demo :=
  (clear Demo.SUDO_REQUIRED Demo.SUPERUSER_REQUIRED Demo.PROJECT_MOVED Demo.String_).

(** The constructor on the concrete platform. *)
Example Client_default : Client Demo.String_ VUndef = Ok Demo.client.
Proof. reflexivity. Qed.

Example Client_baseUrl :
  Client Demo.String_ (VObj [("baseUrl", VStr "/api/1")]) = Ok (new_client "/api/1").
Proof. reflexivity. Qed.

Example Client_null :
  Client Demo.String_ VNull =
  Throw (VStr "TypeError: Cannot read property 'baseUrl' of null").
Proof. reflexivity. Qed.

(** A request was issued and is alive. *)
Local Abbreviation live_demo :=
  (fst (run_demo [CallRequest "/projects/" Demo.opts] Demo.client)).

(** The state in the middle of [cancel()] on its handle: the handle is marked
    not alive, and [abort()] is about to run the callbacks. *)
Local Abbreviation cancelling_demo :=
  (set_heap <[0 := {| alive := false; xhr := 0 |}]> live_demo).

Lemma Demo_uniqueId_inj m n : Demo.uniqueId m = Demo.uniqueId n → m = n.
Proof. unfold Demo.uniqueId. intros H. cbn in H. simplify_eq. by apply (inj pretty). Qed.

(** C1 as first stated fails: with a non-empty [itemIds] and a non-empty
    [query], the date field [start] of the bag is in the result, next to
    [id]. *)
Lemma paramsToQueryArgs_itemIds_keeps_dates :
  Demo.bag_ids_query !! "itemIds" = Some (VArr [VNum 1; VNum 2]) ∧
  Demo.bag_ids_query !! "query" = Some (VStr "is:unresolved") ∧
  paramsToQueryArgs Demo.bag_ids_query !! "id" = Some (VArr [VNum 1; VNum 2]) ∧
  paramsToQueryArgs Demo.bag_ids_query !! "start" = Some (VStr "2019-10-01").
Proof. vm_compute. done. Qed.

Lemma paramsToQueryArgs_itemIds_witness :
  Demo.bag_ids !! "itemIds" = Some (VArr [VNum 1; VNum 2]) ∧
  [VNum 1; VNum 2] ≠ [] ∧
  paramsToQueryArgs Demo.bag_ids !! "id" = Some (VArr [VNum 1; VNum 2]).
Proof.
  split; [reflexivity|]. split; [discriminate|].
  apply (paramsToQueryArgs_itemIds Demo.bag_ids [VNum 1; VNum 2]);
    [reflexivity|discriminate].
Defined.

Lemma paramsToQueryArgs_query_witness :
  Demo.bag_query !! "itemIds" = None ∧
  Demo.bag_query !! "query" = Some (VStr "is:unresolved") ∧
  "is:unresolved" ≠ EmptyString ∧
  paramsToQueryArgs Demo.bag_query !! "query" = Some (VStr "is:unresolved").
Proof.
  split; [reflexivity|]. split; [reflexivity|]. split; [discriminate|].
  apply (paramsToQueryArgs_query Demo.bag_query "is:unresolved");
    [reflexivity|reflexivity|discriminate].
Defined.


Lemma request_query_throws_witness :
  request_data_ Demo.JSON_stringify Demo.opts_circular = Ok VUndef ∧
  request_query Demo.param Demo.opts_circular = Throw (VStr "TypeError: cyclic object value") ∧
  result_of (request_demo "/projects/" Demo.opts_circular Demo.client) =
    Throw (VStr "TypeError: cyclic object value").
Proof.
  split; [reflexivity|]. split; [reflexivity|].
  apply (request_query_throws Demo.uniqueId Demo.param Demo.JSON_stringify
           Demo.captured_stack "/projects/" Demo.opts_circular Demo.client VUndef);
    reflexivity.
Defined.

Lemma request_method_and_body_witness :
  ∃ m url_ body,
    EAjax 0 url_ m body ∈ trace_of (request_demo "/projects/" Demo.opts Demo.client) ∧
    m = POST ∧
    Demo.JSON_stringify (data Demo.opts) = Ok body.
Proof.
  destruct (request_method_and_body Demo.uniqueId Demo.param Demo.JSON_stringify
              Demo.captured_stack "/projects/" Demo.opts Demo.client
              0 (state_of (request_demo "/projects/" Demo.opts Demo.client))
              (trace_of (request_demo "/projects/" Demo.opts Demo.client)) eq_refl)
    as (m & url_ & body & Hin & Hm & _ & Hbody & _).
  exists m, url_, body. split; [exact Hin|].
  specialize (Hm eq_refl). cbn in Hm. split; [exact Hm|].
  apply Hbody; [by rewrite Hm|discriminate].
Defined.

(** The state after a request was issued and its handle cancelled. *)
Local Abbreviation cancelled_demo :=
  (fst (run_demo [CallRequest "/projects/" Demo.opts; CallCancel 0] Demo.client)).

Lemma cleanup_is_unconditional_witness :
  activeRequests cancelling_demo !! "id0" = Some 0 ∧
  heap cancelling_demo !! 0 = Some {| alive := false; xhr := 0 |} ∧
  wrapCallback Demo.PROJECT_MOVED "id0" (Some (Caller "onComplete")) true
    [aborted_xhr; VStr "abort"] cancelling_demo =
  (Ok tt, set_activeRequests (delete "id0") cancelling_demo, []).
Proof.
  split; [reflexivity|]. split; [reflexivity|].
  apply (cleanup_is_unconditional Demo.PROJECT_MOVED "id0" (Some (Caller "onComplete"))
           [aborted_xhr; VStr "abort"] cancelling_demo 0 {| alive := false; xhr := 0 |});
    reflexivity.
Defined.

Lemma reauth_callbacks_are_unguarded_witness :
  isSudoRequired Demo.SUDO_REQUIRED Demo.SUPERUSER_REQUIRED Demo.sudo_response = true ∧
  activeRequests Demo.client !! "id0" = None ∧
  (∀ σ', onClose Demo.opts Demo.sudo_response σ' =
         (Ok tt, σ', [ECall "onError" [Demo.sudo_response]])).
Proof.
  split; [reflexivity|]. split; [reflexivity|].
  apply (reauth_callbacks_are_unguarded Demo.SUDO_REQUIRED Demo.SUPERUSER_REQUIRED
           Demo.PROJECT_MOVED Demo.uniqueId Demo.param Demo.JSON_stringify Demo.String_
           Demo.captured_stack "id0" "/projects/" Demo.opts Demo.sudo_response
           [VStr "error"; VStr "Unauthorized"] Demo.client "onSuccess" "onError");
    [reflexivity|left; reflexivity|reflexivity|reflexivity].
Defined.

Lemma sudo_required_reauthenticates_witness :
  isSudoRequired Demo.SUDO_REQUIRED Demo.SUPERUSER_REQUIRED Demo.sudo_response = true ∧
  request_data_ Demo.JSON_stringify Demo.opts = Ok (VStr "{status:resolved}") ∧
  request_query Demo.param Demo.opts = Ok "id=1" ∧
  trace_of (handleRequestError Demo.SUDO_REQUIRED Demo.SUPERUSER_REQUIRED
              Demo.PROJECT_MOVED "id0" "/projects/" Demo.opts Demo.sudo_response
              [VStr "error"; VStr "Unauthorized"] cancelled_demo) =
  [EOpenSudo 0 false true].
Proof.
  split; [reflexivity|]. split; [reflexivity|]. split; [reflexivity|].
  apply (sudo_required_reauthenticates Demo.SUDO_REQUIRED Demo.SUPERUSER_REQUIRED
           Demo.PROJECT_MOVED Demo.uniqueId Demo.param Demo.JSON_stringify Demo.String_
           Demo.captured_stack "id0" "/projects/" Demo.opts Demo.sudo_response
           [VStr "error"; VStr "Unauthorized"] cancelled_demo
           (VStr "{status:resolved}") "id=1" "onSuccess" "onError");
    reflexivity.
Defined.

Lemma requestPromise_outcome_witness :
  request_data_ Demo.JSON_stringify Demo.opts = Ok (VStr "{status:resolved}") ∧
  request_query Demo.param Demo.opts = Ok "id=1" ∧
  result_of (requestPromise_demo "/projects/"
               {| includeAllArgs := VUndef; options_rest := Demo.opts |} Demo.client) =
  Ok 0.
Proof.
  split; [reflexivity|]. split; [reflexivity|].
  apply (requestPromise_outcome Demo.SUDO_REQUIRED Demo.SUPERUSER_REQUIRED
           Demo.PROJECT_MOVED Demo.uniqueId Demo.param Demo.JSON_stringify Demo.String_
           Demo.captured_stack "/projects/"
           {| includeAllArgs := VUndef; options_rest := Demo.opts |} Demo.client
           (VStr "{status:resolved}") "id=1");
    reflexivity.
Defined.

Lemma requestPromise_rejection_method_witness :
  request_data_ Demo.JSON_stringify Demo.opts = Ok (VStr "{status:resolved}") ∧
  request_query Demo.param Demo.opts = Ok "id=1" ∧
  method Demo.opts = None ∧
  isSudoRequired Demo.SUDO_REQUIRED Demo.SUPERUSER_REQUIRED Demo.not_found = false ∧
  isProjectMoved Demo.PROJECT_MOVED Demo.not_found = false ∧
  EAjax 0 "/api/0/projects/?id=1" POST (VStr "{status:resolved}") ∈
    trace_of (requestPromise_demo "/projects/"
                {| includeAllArgs := VUndef; options_rest := Demo.opts |} Demo.client) ∧
  outcome <$>
    promises (state_of (step_demo
       (XhrError 0 Demo.not_found (VStr "error") (VStr "Not Found"))
       (state_of (requestPromise_demo "/projects/"
                    {| includeAllArgs := VUndef; options_rest := Demo.opts |}
                    Demo.client)))) !! 0 =
  Some (Some (Rejected
    (VRequestError Demo.not_found (VStr "Error at site 0") VUndef "/projects/" 2))).
Proof.
  split; [reflexivity|]. split; [reflexivity|]. split; [reflexivity|].
  split; [reflexivity|]. split; [reflexivity|].
  destruct (requestPromise_rejection_method Demo.SUDO_REQUIRED Demo.SUPERUSER_REQUIRED
           Demo.PROJECT_MOVED Demo.uniqueId Demo.param Demo.JSON_stringify Demo.String_
           Demo.captured_stack "/projects/"
           {| includeAllArgs := VUndef; options_rest := Demo.opts |} Demo.client
           (VStr "{status:resolved}") "id=1" Demo.not_found (VStr "error")
           (VStr "Not Found") eq_refl eq_refl eq_refl eq_refl eq_refl) as (Hajax & _ & Hrej).
  split; [exact Hajax|exact Hrej].
Defined.

Lemma cancelled_request_is_silent_witness :
  wf Demo.uniqueId Demo.client ∧
  known "onError" Demo.client = false ∧
  List.filter (is_call_of "onError")
    (snd (run_demo ([] ++ CallCancel 0 ::
                      [XhrError 0 Demo.not_found (VStr "error") (VStr "Not Found");
                       XhrComplete 0 Demo.not_found (VStr "error")])
            (state_of (request_demo "/projects/" Demo.opts Demo.client)))) = [].
Proof.
  split; [apply wf_new_client|]. split; [reflexivity|].
  apply (cancelled_request_is_silent Demo.SUDO_REQUIRED Demo.SUPERUSER_REQUIRED
           Demo.PROJECT_MOVED Demo.uniqueId Demo.param Demo.JSON_stringify Demo.String_
           Demo.captured_stack Demo_uniqueId_inj "/projects/" Demo.opts Demo.client 0
           (state_of (request_demo "/projects/" Demo.opts Demo.client))
           (trace_of (request_demo "/projects/" Demo.opts Demo.client))
           []
           [XhrError 0 Demo.not_found (VStr "error") (VStr "Not Found");
            XhrComplete 0 Demo.not_found (VStr "error")]
           "onError").
  - apply wf_new_client.
  - reflexivity.
  - reflexivity.
  - intros ev Hin. cbn in Hin.
    repeat (apply elem_of_cons in Hin as [->|Hin]; [reflexivity|]).
    by apply elem_of_nil in Hin.
  - intros ev Hin. by apply elem_of_nil in Hin.
  - intros ev Hin.
    repeat (apply elem_of_cons in Hin as [->|Hin]; [reflexivity|]).
    by apply elem_of_nil in Hin.
Defined.

Lemma completed_request_removed_once_witness :
  wf Demo.uniqueId Demo.client ∧
  (∀ ev, ev ∈ @nil Event ++ [] → is_complete_of 0 ev = false) ∧
  activeRequests
    (fst (run_demo [XhrSuccess 0 (VStr "payload") (VStr "success") Demo.ok_xhr]
            (state_of (request_demo "/projects/" Demo.opts Demo.client)))) !! "id0" = Some 0 ∧
  removals Demo.SUDO_REQUIRED Demo.SUPERUSER_REQUIRED Demo.PROJECT_MOVED Demo.uniqueId
    Demo.param Demo.JSON_stringify Demo.String_ Demo.captured_stack "id0"
    [XhrSuccess 0 (VStr "payload") (VStr "success") Demo.ok_xhr;
     XhrComplete 0 Demo.ok_xhr (VStr "success"); CallClear]
    (state_of (request_demo "/projects/" Demo.opts Demo.client))
  = 1.
Proof.
  assert (Hnil : ∀ ev, ev ∈ @nil Event ++ [] → is_complete_of 0 ev = false).
  { intros ev Hin. by apply elem_of_nil in Hin. }
  split; [apply wf_new_client|]. split; [exact Hnil|].
  destruct (completed_request_removed_once Demo.SUDO_REQUIRED Demo.SUPERUSER_REQUIRED
           Demo.PROJECT_MOVED Demo.uniqueId Demo.param Demo.JSON_stringify Demo.String_
           Demo.captured_stack Demo_uniqueId_inj "/projects/" Demo.opts Demo.client 0
           (state_of (request_demo "/projects/" Demo.opts Demo.client))
           (trace_of (request_demo "/projects/" Demo.opts Demo.client))
           [] [] [CallClear] (VStr "payload") (VStr "success") Demo.ok_xhr
           Demo.ok_xhr (VStr "success") (wf_new_client Demo.uniqueId "/api/0") eq_refl Hnil)
    as (Hpre & _ & Hrem & _).
  split; [|exact Hrem].
  exact (Hpre [XhrSuccess 0 (VStr "payload") (VStr "success") Demo.ok_xhr] [] eq_refl).
Defined.

(** *** The further properties at work *)

(** A request failed with the sudo-required code and completed; the modal is
    open. *)
Local Abbreviation modal_demo :=
  (fst (run_demo [CallRequest "/projects/" Demo.opts;
                  XhrError 0 Demo.sudo_response (VStr "error") (VStr "Unauthorized");
                  XhrComplete 0 Demo.sudo_response (VStr "error")] Demo.client)).


Lemma empty_itemIds_selects_id_witness :
  Demo.bag_empty_ids !! "itemIds" = Some (VArr []) ∧
  paramsToQueryArgs Demo.bag_empty_ids !! "id" = Some (VArr []) ∧
  paramsToQueryArgs Demo.bag_empty_ids !! "query" = None.
Proof.
  split; [reflexivity|].
  apply (empty_itemIds_selects_id Demo.bag_empty_ids). reflexivity.
Defined.

Lemma project_included_iff_nonempty_witness :
  Demo.bag_project !! "project" = Some (VArr [VNum 7]) ∧
  paramsToQueryArgs Demo.bag_project !! "project" = Some (VArr [VNum 7]).
Proof.
  split; [reflexivity|].
  apply (project_included_iff_nonempty Demo.bag_project [VNum 7]). reflexivity.
Defined.

Lemma project_omitted_when_nil_witness :
  isNil (prop Demo.bag_ids "project") = true ∧
  paramsToQueryArgs Demo.bag_ids !! "project" = None.
Proof.
  split; [reflexivity|].
  apply (project_omitted_when_nil Demo.bag_ids). reflexivity.
Defined.

Lemma result_keys_and_values_witness :
  paramsToQueryArgs Demo.bag_query !! "statsPeriod" = Some (VStr "14d") ∧
  "statsPeriod" ∈ query_keys ∧ isNil (VStr "14d") = false.
Proof.
  split; [reflexivity|].
  apply (result_keys_and_values Demo.bag_query "statsPeriod" (VStr "14d")). reflexivity.
Defined.

Lemma no_filter_selects_all_witness :
  truthy (prop Demo.bag_project "itemIds") = false ∧
  truthy (prop Demo.bag_project "query") = false ∧
  paramsToQueryArgs Demo.bag_project = {["project" := VArr [VNum 7]]}.
Proof.
  split; [reflexivity|]. split; [reflexivity|].
  apply (no_filter_selects_all Demo.bag_project); reflexivity.
Defined.



Lemma registry_is_sound_witness :
  activeRequests live_demo !! "id0" = Some 0 ∧
  ∃ r c, heap live_demo !! 0 = Some r ∧ xhrs live_demo !! xhr r = Some c ∧ c_id c = "id0".
Proof.
  split; [reflexivity|].
  apply (registry_is_sound Demo.SUDO_REQUIRED Demo.SUPERUSER_REQUIRED Demo.PROJECT_MOVED
           Demo.uniqueId Demo.param Demo.JSON_stringify Demo.String_ Demo.captured_stack
           "/api/0" [CallRequest "/projects/" Demo.opts] "id0" 0).
  reflexivity.
Defined.

Lemma cancel_is_permanent_witness :
  is_Some (heap live_demo !! 0) ∧
  dead 0 (fst (run_demo [CallCancel 0; CallRequest "/projects/" Demo.opts] live_demo)).
Proof.
  assert (H : is_Some (heap live_demo !! 0)) by (eexists; reflexivity).
  split; [exact H|].
  apply (cancel_is_permanent Demo.SUDO_REQUIRED Demo.SUPERUSER_REQUIRED Demo.PROJECT_MOVED
           Demo.uniqueId Demo.param Demo.JSON_stringify Demo.String_ Demo.captured_stack
           0 live_demo [CallRequest "/projects/" Demo.opts] H).
Defined.

Lemma moved_success_redirects_witness :
  isProjectMoved Demo.PROJECT_MOVED Demo.moved = true ∧
  calls (trace_of (step_demo (XhrSuccess 0 Demo.moved (VStr "success") Demo.ok_xhr)
                     live_demo)) = [].
Proof.
  split; [reflexivity|].
  rewrite (moved_success_redirects Demo.SUDO_REQUIRED Demo.SUPERUSER_REQUIRED
             Demo.PROJECT_MOVED Demo.uniqueId Demo.param Demo.JSON_stringify Demo.String_
             Demo.captured_stack live_demo 0 _ 0 {| alive := true; xhr := 0 |}
             Demo.moved (VStr "success") Demo.ok_xhr (Caller "onSuccess")
             eq_refl eq_refl eq_refl eq_refl eq_refl eq_refl).
  reflexivity.
Defined.

(** A request without a success callback was issued. *)
Local Abbreviation quiet_demo :=
  (fst (run_demo [CallRequest "/projects/" Demo.opts_no_success] Demo.client)).

Lemma success_without_callback_witness :
  (success ∘ c_options <$> xhrs quiet_demo !! 0) = Some None ∧
  List.filter is_redirect
    (trace_of (step_demo (XhrSuccess 0 Demo.moved (VStr "success") Demo.ok_xhr) quiet_demo))
  = [].
Proof.
  split; [reflexivity|].
  rewrite (success_without_callback Demo.SUDO_REQUIRED Demo.SUPERUSER_REQUIRED
             Demo.PROJECT_MOVED Demo.uniqueId Demo.param Demo.JSON_stringify Demo.String_
             Demo.captured_stack quiet_demo 0 _ Demo.moved (VStr "success") Demo.ok_xhr
             eq_refl eq_refl).
  reflexivity.
Defined.

Lemma moved_error_redirects_twice_witness :
  isSudoRequired Demo.SUDO_REQUIRED Demo.SUPERUSER_REQUIRED Demo.moved = false ∧
  isProjectMoved Demo.PROJECT_MOVED Demo.moved = true ∧
  calls (snd (run_demo [XhrError 0 Demo.moved (VStr "error") (VStr "Found");
                        XhrComplete 0 Demo.moved (VStr "error")] live_demo)) = [].
Proof.
  split; [reflexivity|]. split; [reflexivity|].
  apply (moved_error_redirects_twice Demo.SUDO_REQUIRED Demo.SUPERUSER_REQUIRED
           Demo.PROJECT_MOVED Demo.uniqueId Demo.param Demo.JSON_stringify Demo.String_
           Demo.captured_stack live_demo 0 _ 0 {| alive := true; xhr := 0 |}
           Demo.moved (VStr "error") (VStr "Found") (VStr "error")
           eq_refl eq_refl eq_refl eq_refl eq_refl eq_refl).
Defined.

Lemma every_error_is_reported_witness :
  ∃ rest,
    trace_of (step_demo (XhrError 0 Demo.not_found (VStr "error") (VStr "Not Found"))
                (fst (run_demo [CallCancel 0]
                        (state_of (request_demo "/projects/" Demo.opts Demo.client))))) =
    EMeasure "app.api.request-error" "api-request-start-id0" (VNum 404)
    :: ECaptureException
         (VRequestError Demo.not_found (VStr "Error at site 0") (VStr "POST") "/projects/" 2)
         {| extras := []; tags := [("http.statusCode", "404")]; level := Some "warning" |}
    :: rest.
Proof.
  destruct (every_error_is_reported Demo.SUDO_REQUIRED Demo.SUPERUSER_REQUIRED
           Demo.PROJECT_MOVED Demo.uniqueId Demo.param Demo.JSON_stringify Demo.String_
           Demo.captured_stack "/projects/" Demo.opts Demo.client 0
           (state_of (request_demo "/projects/" Demo.opts Demo.client))
           (trace_of (request_demo "/projects/" Demo.opts Demo.client))
           [CallCancel 0] Demo.not_found (VStr "error") (VStr "Not Found") eq_refl)
    as [rest Hrest].
  exists rest. revert Hrest. vm_compute. exact (fun H => H).
Defined.

Lemma completion_finishes_the_span_witness :
  ∃ span mark,
    trace_of (request_demo "/projects/" Demo.opts Demo.client) !! 0 =
      Some (EStartSpan span) ∧
    trace_of (request_demo "/projects/" Demo.opts Demo.client) !! 1 =
      Some (EMark mark) ∧
    trace_of (step_demo (XhrComplete 0 Demo.ok_xhr (VStr "success")) cancelled_demo) !! 0 =
      Some (EFinishSpan span).
Proof.
  destruct (completion_finishes_the_span Demo.SUDO_REQUIRED Demo.SUPERUSER_REQUIRED
           Demo.PROJECT_MOVED Demo.uniqueId Demo.param Demo.JSON_stringify Demo.String_
           Demo.captured_stack "/projects/" Demo.opts Demo.client 0
           (state_of (request_demo "/projects/" Demo.opts Demo.client))
           (trace_of (request_demo "/projects/" Demo.opts Demo.client))
           [CallCancel 0] eq_refl) as (span & mark & H0 & H1 & Hc & _).
  exists span, mark. split; [exact H0|]. split; [exact H1|].
  exact (Hc Demo.ok_xhr (VStr "success")).
Defined.

Lemma payload_failure_is_silent_witness :
  isUndefined (data Demo.opts) = false ∧
  is_GET (request_method Demo.opts) = false ∧
  request Demo.uniqueId Demo.param Demo.JSON_stringify_throws Demo.captured_stack
    "/projects/" Demo.opts Demo.client =
  (Throw (VStr "TypeError: Do not know how to serialize a BigInt"), Demo.client, []).
Proof.
  split; [reflexivity|]. split; [reflexivity|].
  apply (payload_failure_is_silent Demo.uniqueId Demo.param Demo.JSON_stringify_throws
           Demo.captured_stack "/projects/" Demo.opts Demo.client
           (VStr "TypeError: Do not know how to serialize a BigInt"));
    reflexivity.
Defined.

Lemma sudo_flags_exclusive_witness :
  Demo.SUDO_REQUIRED ≠ Demo.SUPERUSER_REQUIRED ∧
  isSudoRequired Demo.SUDO_REQUIRED Demo.SUPERUSER_REQUIRED Demo.sudo_response = true ∧
  ∃ sudo_ superuser_,
    trace_of (handleRequestError Demo.SUDO_REQUIRED Demo.SUPERUSER_REQUIRED
                Demo.PROJECT_MOVED "id0" "/projects/" Demo.opts Demo.sudo_response []
                Demo.client) =
      [EOpenSudo 0 superuser_ sudo_] ∧
    superuser_ = negb sudo_.
Proof.
  assert (Hne : Demo.SUDO_REQUIRED ≠ Demo.SUPERUSER_REQUIRED) by discriminate.
  split; [exact Hne|]. split; [reflexivity|].
  destruct (sudo_flags_exclusive Demo.SUDO_REQUIRED Demo.SUPERUSER_REQUIRED
              Demo.PROJECT_MOVED "id0" "/projects/" Demo.opts Demo.sudo_response []
              Demo.client Hne eq_refl) as (sd & su & Ht & Hx & _).
  exists sd, su. split; [exact Ht|exact Hx].
Defined.

Lemma closing_modal_rejects_promise_witness :
  request_data_ Demo.JSON_stringify Demo.opts = Ok (VStr "{status:resolved}") ∧
  request_query Demo.param Demo.opts = Ok "id=1" ∧
  isSudoRequired Demo.SUDO_REQUIRED Demo.SUPERUSER_REQUIRED Demo.sudo_response = true ∧
  outcome <$>
    promises (fst (run_demo
       [CallRequestPromise "/projects/"
          {| includeAllArgs := VUndef; options_rest := Demo.opts |};
        XhrError 0 Demo.sudo_response (VStr "error") (VStr "Unauthorized")]
       Demo.client)) !! 0 = Some None.
Proof.
  split; [reflexivity|]. split; [reflexivity|]. split; [reflexivity|].
  apply (closing_modal_rejects_promise Demo.SUDO_REQUIRED Demo.SUPERUSER_REQUIRED
           Demo.PROJECT_MOVED Demo.uniqueId Demo.param Demo.JSON_stringify Demo.String_
           Demo.captured_stack "/projects/"
           {| includeAllArgs := VUndef; options_rest := Demo.opts |} Demo.client
           (VStr "{status:resolved}") "id=1" Demo.sudo_response (VStr "error")
           (VStr "Unauthorized") eq_refl eq_refl eq_refl).
Defined.

Lemma retry_completes_before_success_witness :
  (m_requestOptions <$> modals modal_demo !! 0) = Some Demo.opts ∧
  jobs modal_demo = [] ∧
  calls (snd (run_demo [SudoRetry 0;
                        XhrSuccess 1 (VStr "payload") (VStr "success") Demo.ok_xhr;
                        XhrComplete 1 Demo.ok_xhr (VStr "success");
                        Microtask] modal_demo)) =
  [ECall "onComplete" [Demo.ok_xhr; VStr "success"]; ECall "onSuccess" [VStr "payload"]].
Proof.
  split; [reflexivity|]. split; [reflexivity|].
  apply (retry_completes_before_success Demo.SUDO_REQUIRED Demo.SUPERUSER_REQUIRED
           Demo.PROJECT_MOVED Demo.uniqueId Demo.param Demo.JSON_stringify Demo.String_
           Demo.captured_stack modal_demo 0
           {| superuser := false; sudo := true; m_path := "/projects/";
              m_requestOptions := Demo.opts; m_response := Demo.sudo_response |}
           (VStr "{status:resolved}") "id=1" "onSuccess" "onComplete"
           (VStr "payload") (VStr "success") Demo.ok_xhr Demo.ok_xhr (VStr "success"));
    reflexivity.
Defined.

Lemma request_registers_fresh_witness :
  wf Demo.uniqueId Demo.client ∧
  activeRequests (state_of (request_demo "/projects/" Demo.opts Demo.client)) =
    <["id0" := 0]> ∅.
Proof.
  split; [apply wf_new_client|].
  apply (request_registers_fresh Demo.uniqueId Demo.param Demo.JSON_stringify
           Demo.captured_stack Demo_uniqueId_inj "/projects/" Demo.opts Demo.client 0
           (state_of (request_demo "/projects/" Demo.opts Demo.client))
           (trace_of (request_demo "/projects/" Demo.opts Demo.client)));
    [apply wf_new_client|reflexivity].
Defined.

Lemma request_lifecycle_witness :
  wf Demo.uniqueId Demo.client ∧
  isSudoRequired Demo.SUDO_REQUIRED Demo.SUPERUSER_REQUIRED Demo.not_found = false ∧
  calls (snd (run_demo [XhrSuccess 0 (VStr "payload") (VStr "success") Demo.ok_xhr;
                        XhrComplete 0 Demo.ok_xhr (VStr "success")] live_demo)) =
  [ECall "onSuccess" [VStr "payload"; VStr "success"; Demo.ok_xhr];
   ECall "onComplete" [Demo.ok_xhr; VStr "success"]].
Proof.
  split; [apply wf_new_client|]. split; [reflexivity|].
  apply (request_lifecycle Demo.SUDO_REQUIRED Demo.SUPERUSER_REQUIRED
           Demo.PROJECT_MOVED Demo.uniqueId Demo.param Demo.JSON_stringify Demo.String_
           Demo.captured_stack Demo_uniqueId_inj "/projects/" Demo.opts Demo.client 0
           (state_of (request_demo "/projects/" Demo.opts Demo.client))
           (trace_of (request_demo "/projects/" Demo.opts Demo.client))
           "onSuccess" "onError" "onComplete" (VStr "payload") Demo.not_found
           (VStr "success") (VStr "Not Found") Demo.ok_xhr Demo.ok_xhr (VStr "success"));
    first [apply wf_new_client | reflexivity].
Defined.

Lemma completed_request_is_silent_witness :
  wf Demo.uniqueId Demo.client ∧
  plain_delivery Demo.SUDO_REQUIRED Demo.SUPERUSER_REQUIRED 0
    (XhrSuccess 0 (VStr "payload") (VStr "success") Demo.ok_xhr) = true ∧
  calls (trace_of (step_demo (XhrSuccess 0 (VStr "payload") (VStr "success") Demo.ok_xhr)
     (fst (run_demo [XhrComplete 0 Demo.ok_xhr (VStr "success")] live_demo)))) = [].
Proof.
  split; [apply wf_new_client|]. split; [reflexivity|].
  apply (completed_request_is_silent Demo.SUDO_REQUIRED Demo.SUPERUSER_REQUIRED
           Demo.PROJECT_MOVED Demo.uniqueId Demo.param Demo.JSON_stringify Demo.String_
           Demo.captured_stack Demo_uniqueId_inj "/projects/" Demo.opts Demo.client 0
           (state_of (request_demo "/projects/" Demo.opts Demo.client))
           (trace_of (request_demo "/projects/" Demo.opts Demo.client))
           [] [] Demo.ok_xhr (VStr "success")
           (XhrSuccess 0 (VStr "payload") (VStr "success") Demo.ok_xhr));
    first [apply wf_new_client | reflexivity].
Defined.
